(** * Text-Formatter: a shallow embedding of [main.go]

    The itinerary formatter rewrites placeholder tokens (airport codes,
    dates, times) against an airport table and then normalises white
    space.  This development embeds the functions of [main.go] as Rocq
    functions over sequences of runes and proves the properties stated
    for them.

    Conventions.
    - A Go [string] is modelled by the sequence of its runes ([text]);
      a rune is its code point, an [N].
    - [regexp] patterns are kept as data ([list atom]) and run by one
      backtracking matcher with Go's leftmost-first, greedy semantics;
      [ReplaceAllStringFunc] is the scan-and-replace loop over it.
    - The package-level variable [airportMap] is a field of the explicit
      program state; [*Airport] pointers are addresses into a heap. *)

From Stdlib Require Import NArith ZArith Ascii String.
From stdpp Require Import base option list gmap.

Local Open Scope N_scope.
Local Open Scope list_scope.

(** ** Runes and text *)

Abbreviation rune := N (only parsing).
Abbreviation text := (list N) (only parsing).

(** [str] reads an ASCII literal as text. *)
Fixpoint str (s : string) : text :=
  match s with
  | EmptyString => []
  | String c s' => N_of_ascii c :: str s'
  end.

Definition ESC : rune := 27.
Definition NL : rune := 10.

(** [unicode.IsSpace]: the runes Go treats as white space. *)
Definition isSpace (c : rune) : bool :=
  ((9 <=? c) && (c <=? 13)) || (c =? 32) || (c =? 133) || (c =? 160)
  || (c =? 5760) || ((8192 <=? c) && (c <=? 8202))
  || (c =? 8232) || (c =? 8233) || (c =? 8239) || (c =? 8287) || (c =? 12288).

Definition isUpper (c : rune) : bool := (65 <=? c) && (c <=? 90).
Definition isDigit (c : rune) : bool := (48 <=? c) && (c <=? 57).
Definition isRune (x : rune) (c : rune) : bool := c =? x.

(** ** The [regexp] fragment used by the program

    Every pattern of [main.go] is a sequence of atoms: a character
    class with a repetition range, matched greedily with backtracking. *)

Record atom := Atom {
  cls : rune -> bool;       (* the character class *)
  amin : nat;               (* least number of repetitions *)
  amax : option nat;        (* greatest number, if bounded *)
  captured : bool           (* written inside a capturing group *)
}.

Definition lit (c : rune) : atom := Atom (isRune c) 1 (Some 1%nat) false.
Definition opt (c : rune) : atom := Atom (isRune c) 0 (Some 1%nat) false.
Definition rep (p : rune -> bool) (n : nat) : atom := Atom p n (Some n) false.
Definition atLeast (p : rune -> bool) (n : nat) : atom := Atom p n None false.
Definition group (a : atom) : atom := Atom (cls a) (amin a) (amax a) true.

(** Length of the longest prefix of [s] inside the class [p]. *)
Fixpoint run (p : rune -> bool) (s : text) : nat :=
  match s with
  | c :: s' => if p c then S (run p s') else O
  | [] => O
  end.

(** Try the repetition counts [k], [k-1], ..., [lo] in that order. *)
Fixpoint backtrack (f : nat -> option (list nat)) (lo k : nat) : option (list nat) :=
  if (k <? lo)%nat then None
  else match f k with
       | Some l => Some (k :: l)
       | None => match k with
                 | O => None
                 | S k' => backtrack f lo k'
                 end
       end.

(** Anchored match: the number of runes each atom consumes. *)
Fixpoint matchAtoms (re : list atom) (s : text) : option (list nat) :=
  match re with
  | [] => Some []
  | a :: re' =>
      let hi := match amax a with
                | Some m => Nat.min m (run (cls a) s)
                | None => run (cls a) s
                end in
      backtrack (fun k => matchAtoms re' (drop k s)) (amin a) hi
  end.

Definition matchLen (re : list atom) (s : text) : option nat :=
  foldr Nat.add O <$> matchAtoms re s.

(** The scan shared by the [ReplaceAll...] methods: one left-to-right
    pass that cuts [src] into the runes copied through and the leftmost
    non-overlapping matches.  [skip] counts the runes of the current
    match still to be passed over.  None of the program's patterns
    matches the empty string, so an empty match leaves the rune in
    place. *)
Inductive piece := Copy (c : rune) | Match (m : text).

Fixpoint scan (re : list atom) (skip : nat) (src : text) : list piece :=
  match src with
  | [] => []
  | c :: rest =>
      match skip with
      | S k => scan re k rest
      | O =>
          match matchLen re src with
          | Some (S n) => Match (take (S n) src) :: scan re n rest
          | _ => Copy c :: scan re O rest
          end
      end
  end.

Definition flatten (ts : list text) : text := concat ts.

(** A callback that indexes out of range panics: [None]. *)
Definition render (repl : text -> option text) (p : piece) : option text :=
  match p with
  | Copy c => Some [c]
  | Match m => repl m
  end.

(** [re.ReplaceAllStringFunc(src, repl)] *)
Definition ReplaceAllStringFunc (re : list atom) (src : text) (repl : text -> option text) : option text :=
  flatten <$> mapM (render repl) (scan re O src).

(** [re.ReplaceAllString(src, repl)] for a template without [$]. *)
Definition ReplaceAllString (re : list atom) (src repl : text) : text :=
  flatten (map (fun p => match p with Copy c => [c] | Match _ => repl end) (scan re O src)).

(** [re.FindStringSubmatch(s)]: the leftmost match; element 0 is the
    whole match, then come the texts of the capturing atoms. *)
Fixpoint groupsOf (re : list atom) (ns : list nat) (s : text) : list text :=
  match re, ns with
  | a :: re', n :: ns' =>
      (if captured a then [take n s] else []) ++ groupsOf re' ns' (drop n s)
  | _, _ => []
  end.

Fixpoint FindStringSubmatch (re : list atom) (s : text) : option (list text) :=
  match matchAtoms re s with
  | Some ns => Some (take (foldr Nat.add O ns) s :: groupsOf re ns s)
  | None => match s with
            | [] => None
            | _ :: s' => FindStringSubmatch re s'
            end
  end.

(** ** Whitespace normalisation *)

(** [strings.Split(s, "\n")] *)
Fixpoint Split (s : text) : list text :=
  match s with
  | [] => [[]]
  | c :: r =>
      if c =? NL then [] :: Split r
      else match Split r with
           | l :: ls => (c :: l) :: ls
           | [] => [[c]]
           end
  end.

(** [strings.Fields(s)] *)
Fixpoint Fields (s : text) : list text :=
  match s with
  | [] => []
  | c :: r =>
      if isSpace c then Fields r
      else match r with
           | [] => [[c]]
           | d :: _ =>
               if isSpace d then [c] :: Fields r
               else match Fields r with
                    | w :: ws => (c :: w) :: ws
                    | [] => [[c]]
                    end
           end
  end.

(** [strings.Join(elems, sep)] *)
Fixpoint Join (elems : list text) (sep : text) : text :=
  match elems with
  | [] => []
  | [x] => x
  | x :: rest => x ++ sep ++ Join rest sep
  end.

Definition trimHorizontalWhitespace (content : text) : text :=
  let lines := Split content in
  Join (map (fun line => Join (Fields line) [32]) lines) [NL].

Definition isRVFLetter (c : rune) : bool := (c =? 114) || (c =? 118) || (c =? 102).
Definition isRVFControl (c : rune) : bool := (c =? 13) || (c =? 11) || (c =? 12).

Definition escapeRegex : list atom := [lit 92; rep isRVFLetter 1].
Definition controlRegex : list atom := [atLeast isRVFControl 1].
Definition newlinesRegex : list atom := [atLeast (isRune NL) 3].

Definition trimVerticalWhitespace (content : text) : text :=
  let content := ReplaceAllString escapeRegex content [NL] in
  let content := ReplaceAllString controlRegex content [NL] in
  let content := ReplaceAllString newlinesRegex content [NL; NL] in
  content.

Definition normalizeWhitespace (content : text) : text :=
  trimVerticalWhitespace (trimHorizontalWhitespace content).

(** ** The airport directory *)

Record Airport := mkAirport {
  Name : text;
  ISOCountry : text;
  Municipality : text;
  ICAOCode : text;
  IATACode : text;
  Coordinates : text
}.

(** A [*Airport] is the index of its record in the heap, in allocation
    order.  [airportMap] is the package-level variable. *)
Definition ptr := nat.

Record State := mkState {
  airportMap : gmap (list N) ptr;
  heap : list Airport
}.

(** The state before [loadAirportData] has run (a nil map reads as an
    empty one). *)
Definition initialState : State := mkState ∅ [].

(** [airport, exists := airportMap[code]], with the record it points to. *)
Definition lookupAirport (st : State) (code : text) : option Airport :=
  p ← airportMap st !! code; heap st !! p.

(** [strings.TrimSpace] *)
Fixpoint trimLeft (s : text) : text :=
  match s with
  | c :: s' => if isSpace c then trimLeft s' else s
  | [] => []
  end.

Definition TrimSpace (s : text) : text := reverse (trimLeft (reverse (trimLeft s))).

Definition isEmpty (s : text) : bool := match s with [] => true | _ => false end.

Inductive error :=
  | MissingColumn (req : text)   (* "missing required column: %s" *)
  | MalformedRecord              (* "malformed record" *)
  | EmptyName                    (* "empty name in record" *)
  | NoCode                       (* "record has no IATA or ICAO code" *)
  | IndexPanic.                  (* run-time panic: index out of range *)

Definition isSchemaError (e : error) : bool :=
  match e with MissingColumn _ => true | _ => false end.
Definition isRecordError (e : error) : bool :=
  match e with MalformedRecord | EmptyName | NoCode => true | _ => false end.

Definition requiredColumns : list text :=
  [str "name"; str "iso_country"; str "municipality"; str "icao_code"; str "iata_code"; str "coordinates"].

Section Directory.

(** [unicode.ToLower] on runes outside ASCII comes from the Unicode
    tables of the Go runtime; it is a parameter here. *)
Variable unicodeToLower : rune -> rune.

Definition asciiLower (c : rune) : rune :=
  if (65 <=? c) && (c <=? 90) then c + 32 else c.

(** [strings.ToLower]: the ASCII path when every byte is ASCII, the
    Unicode mapping otherwise. *)
Definition ToLower (s : text) : text :=
  if forallb (fun c => c <? 128) s then map asciiLower s else map unicodeToLower s.

(** The loop [for i, column := range header]. *)
Fixpoint buildColumnMap (i : nat) (header : list text) (columnMap : gmap (list N) nat) : gmap (list N) nat :=
  match header with
  | [] => columnMap
  | column :: header' =>
      let key := TrimSpace (ToLower column) in
      buildColumnMap (S i) header' (<[key := i]> columnMap)
  end.

(** The loop [for _, req := range requiredColumns]. *)
Fixpoint checkRequired (reqs : list text) (columnMap : gmap (list N) nat) : option error :=
  match reqs with
  | [] => None
  | req :: reqs' =>
      match columnMap !! req with
      | None => Some (MissingColumn req)
      | Some _ => checkRequired reqs' columnMap
      end
  end.

(** [record[columnMap[col]]]; a missing key reads as index 0, an index
    out of range panics. *)
Definition field (columnMap : gmap (list N) nat) (record : list text) (col : string) : error + text :=
  match record !! default O (columnMap !! str col) with
  | Some v => inr v
  | None => inl IndexPanic
  end.

(** One iteration of [for _, record := range records]. *)
Definition loadRecord (nheader : nat) (columnMap : gmap (list N) nat)
    (record : list text) (st : State) : State * option error :=
  if (length record =? 0)%nat then (st, None)
  else if negb (length record =? nheader)%nat then (st, Some MalformedRecord)
  else
    match field columnMap record "name", field columnMap record "iata_code",
          field columnMap record "icao_code" with
    | inr name, inr iataCode, inr icaoCode =>
        if isEmpty (TrimSpace name) then (st, Some EmptyName)
        else if isEmpty (TrimSpace iataCode) && isEmpty (TrimSpace icaoCode) then (st, Some NoCode)
        else
          match field columnMap record "iso_country", field columnMap record "municipality",
                field columnMap record "coordinates" with
          | inr country, inr municipality, inr coordinates =>
              let airport := length (heap st) in
              let h := heap st ++ [mkAirport name country municipality icaoCode iataCode coordinates] in
              let m := airportMap st in
              let m := if isEmpty iataCode then m else <[iataCode := airport]> m in
              let m := if isEmpty icaoCode then m else <[icaoCode := airport]> m in
              (mkState m h, None)
          | _, _, _ => (st, Some IndexPanic)
          end
    | _, _, _ => (st, Some IndexPanic)
    end.

Fixpoint loadRecords (nheader : nat) (columnMap : gmap (list N) nat)
    (records : list (list text)) (st : State) : State * option error :=
  match records with
  | [] => (st, None)
  | record :: records' =>
      match loadRecord nheader columnMap record st with
      | (st', None) => loadRecords nheader columnMap records' st'
      | (st', Some e) => (st', Some e)
      end
  end.

(** [loadAirportData], after the CSV reader has produced the header and
    the records: the state it leaves and the error it returns. *)
Definition loadAirportData (header : list text) (records : list (list text))
    (st : State) : State * option error :=
  let columnMap := buildColumnMap O header ∅ in
  match checkRequired requiredColumns columnMap with
  | Some e => (st, Some e)
  | None =>
      let st := mkState ∅ (heap st) in
      loadRecords (length header) columnMap records st
  end.

(** *** The conditions of failure, read from their description

    These definitions do not use the column map; [loadAirportData] is
    proved to fail exactly as they say. *)

(** A header name as it is compared: lower case, trimmed. *)
Definition normalizeColumn (column : text) : text := TrimSpace (ToLower column).

(** The logical column [req] is present in the header. *)
Definition hasColumn (header : list text) (req : text) : bool :=
  existsb (fun column => bool_decide (normalizeColumn column = req)) header.

(** The first required column that the header lacks. *)
Definition firstMissing (header : list text) : option text :=
  List.find (fun req => negb (hasColumn header req)) requiredColumns.

(** The position of a logical column: the last header field with that
    name, counted from [i]. *)
Fixpoint columnIndex (key : text) (i : nat) (header : list text) : option nat :=
  match header with
  | [] => None
  | column :: header' =>
      match columnIndex key (S i) header' with
      | Some j => Some j
      | None => if bool_decide (normalizeColumn column = key) then Some i else None
      end
  end.

(** The field of a row under a logical column (empty when there is none). *)
Definition fieldOf (header : list text) (record : list text) (col : string) : text :=
  default [] (j ← columnIndex (str col) O header; record !! j).

(** What is wrong with a row, if anything; a row without fields is skipped. *)
Definition recordError (header : list text) (record : list text) : option error :=
  if (length record =? 0)%nat then None
  else if negb (length record =? length header)%nat then Some MalformedRecord
  else if isEmpty (TrimSpace (fieldOf header record "name")) then Some EmptyName
  else if isEmpty (TrimSpace (fieldOf header record "iata_code"))
          && isEmpty (TrimSpace (fieldOf header record "icao_code")) then Some NoCode
  else None.

(** The error of the first offending row. *)
Fixpoint firstRecordError (header : list text) (records : list (list text)) : option error :=
  match records with
  | [] => None
  | record :: records' =>
      match recordError header record with
      | Some e => Some e
      | None => firstRecordError header records'
      end
  end.

(** The record a well-formed row denotes. *)
Definition airportOf (header : list text) (record : list text) : Airport :=
  mkAirport (fieldOf header record "name") (fieldOf header record "iso_country")
            (fieldOf header record "municipality") (fieldOf header record "icao_code")
            (fieldOf header record "iata_code") (fieldOf header record "coordinates").

(** The rows before the first offending one. *)
Fixpoint goodPrefix (header : list text) (records : list (list text)) : list (list text) :=
  match records with
  | [] => []
  | record :: records' =>
      match recordError header record with
      | Some _ => []
      | None => record :: goodPrefix header records'
      end
  end.

End Directory.



(** The effect of a well-formed row on the state: a fresh record, and
    its non-empty codes pointing to it. *)
Definition register (a : Airport) (st : State) : State :=
  let p := length (heap st) in
  let m := airportMap st in
  let m := if isEmpty (IATACode a) then m else <[IATACode a := p]> m in
  let m := if isEmpty (ICAOCode a) then m else <[ICAOCode a := p]> m in
  mkState m (heap st ++ [a]).

(** The state after a sequence of well-formed rows (rows without fields
    are skipped). *)
Fixpoint registerRows (unicodeToLower : rune -> rune) (header : list text)
    (records : list (list text)) (st : State) : State :=
  match records with
  | [] => st
  | record :: records' =>
      registerRows unicodeToLower header records'
        (if (length record =? 0)%nat then st
         else register (airportOf unicodeToLower header record) st)
  end.

(** ** Airport-code tokens *)

Definition ColorReset : text := ESC :: str "[0m".
Definition ColorGreen : text := ESC :: str "[32m".
Definition ColorYellow : text := ESC :: str "[33m".
Definition ColorMagenta : text := ESC :: str "[35m".
Definition ColorCyan : text := ESC :: str "[36m".

(** [(\*?)#([A-Z]{3})] and [(\*?)##([A-Z]{4})] *)
Definition iataRegex : list atom := [group (opt 42); lit 35; group (rep isUpper 3)].
Definition icaoRegex : list atom := [group (opt 42); lit 35; lit 35; group (rep isUpper 4)].

Definition plainAirport (airport : Airport) : text := Name airport.

Definition plainCity (airport : Airport) : text :=
  if negb (isEmpty (TrimSpace (Municipality airport))) then Municipality airport
  else plainAirport airport.

Definition highlightAirport (airport : Airport) : text :=
  ColorGreen ++ Name airport ++ ColorReset.

Definition highlightCity (airport : Airport) : text :=
  if negb (isEmpty (TrimSpace (Municipality airport)))
  then ColorCyan ++ Municipality airport ++ ColorReset
  else ColorGreen ++ Name airport ++ ColorReset.

Definition eqText (a b : text) : bool := bool_decide (a = b).

(** The callback shared by the four airport passes; [groups[i]] on a
    missing element panics. *)
Definition airportCallback (re : list atom) (st : State)
    (city airport : Airport -> text) (match_ : text) : option text :=
  groups ← FindStringSubmatch re match_;
  code ← groups !! 2%nat;
  match lookupAirport st code with
  | Some a =>
      g1 ← groups !! 1%nat;
      if eqText g1 (str "*") then Some (city a) else Some (airport a)
  | None => Some match_
  end.

Definition plainProcessAirportCodes (st : State) (content : text) : option text :=
  content ← ReplaceAllStringFunc iataRegex content
              (airportCallback iataRegex st plainCity plainAirport);
  ReplaceAllStringFunc icaoRegex content
    (airportCallback icaoRegex st plainCity plainAirport).

Definition processAirportCodes (st : State) (content : text) : option text :=
  content ← ReplaceAllStringFunc iataRegex content
              (airportCallback iataRegex st highlightCity highlightAirport);
  ReplaceAllStringFunc icaoRegex content
    (airportCallback icaoRegex st highlightCity highlightAirport).

(** ** Timestamps: the part of package [time] the program uses

    A [Time] is kept as the wall clock in its own zone together with
    the zone offset (seconds east of UTC): [time.Parse] builds the
    instant from the parsed wall clock minus the offset and attaches a
    zone of that offset, and [Format] adds the offset back, so the
    calendar fields [Format] prints are the parsed ones. *)

Record Time := mkTime {
  tYear : N; tMonth : N; tDay : N; tHour : N; tMinute : N;
  tOffset : Z
}.

(** The chunks of the two layouts passed to [time.Parse]. *)
Inductive layoutItem :=
  | PLongYear        (* 2006 *)
  | PZeroMonth       (* 01 *)
  | PZeroDay         (* 02 *)
  | PHour            (* 15 *)
  | PZeroMinute      (* 04 *)
  | PNumColonTZ      (* -07:00 *)
  | PLit (c : rune).

(** "2006-01-02T15:04Z" and "2006-01-02T15:04-07:00" *)
Definition layoutUTC : list layoutItem :=
  [PLongYear; PLit 45; PZeroMonth; PLit 45; PZeroDay; PLit 84; PHour; PLit 58; PZeroMinute; PLit 90].
Definition layoutOffset : list layoutItem :=
  [PLongYear; PLit 45; PZeroMonth; PLit 45; PZeroDay; PLit 84; PHour; PLit 58; PZeroMinute; PNumColonTZ].

Definition digitVal (c : rune) : N := c - 48.

(** [getnum(s, fixed)]: one or two decimal digits, exactly two when [fixed]. *)
Definition getnum (s : text) (fixed : bool) : option (N * text) :=
  match s with
  | c0 :: r =>
      if isDigit c0 then
        match r with
        | c1 :: r' =>
            if isDigit c1 then Some (digitVal c0 * 10 + digitVal c1, r')
            else if fixed then None else Some (digitVal c0, r)
        | [] => if fixed then None else Some (digitVal c0, r)
        end
      else None
  | [] => None
  end.

Definition isLeap (year : N) : bool :=
  (year mod 4 =? 0) && (negb (year mod 100 =? 0) || (year mod 400 =? 0)).

Definition daysIn (month year : N) : N :=
  if (month =? 2) && isLeap year then 29
  else match month with
       | 2 => 28
       | 4 | 6 | 9 | 11 => 30
       | _ => 31
       end.

(** The fields gathered while the layout is walked; [zoneOffset] is
    Go's [zoneOffset], [None] standing for its initial -1. *)
Record parsed := mkParsed {
  pYear : N; pMonth : N; pDay : N; pHour : N; pMin : N;
  zoneOffset : option Z
}.

Definition parseItem (it : layoutItem) (p : parsed) (value : text) : option (parsed * text) :=
  match it with
  | PLit c =>
      match value with
      | v :: value' => if v =? c then Some (p, value') else None
      | [] => None
      end
  | PLongYear =>
      match value with
      | a :: b :: c :: d :: value' =>
          if isDigit a && isDigit b && isDigit c && isDigit d
          then Some (mkParsed (((digitVal a * 10 + digitVal b) * 10 + digitVal c) * 10 + digitVal d)
                              (pMonth p) (pDay p) (pHour p) (pMin p) (zoneOffset p), value')
          else None
      | _ => None
      end
  | PZeroMonth =>
      '(month, value') ← getnum value true;
      if (month =? 0) || (12 <? month) then None
      else Some (mkParsed (pYear p) month (pDay p) (pHour p) (pMin p) (zoneOffset p), value')
  | PZeroDay =>
      '(day, value') ← getnum value true;
      Some (mkParsed (pYear p) (pMonth p) day (pHour p) (pMin p) (zoneOffset p), value')
  | PHour =>
      '(hour, value') ← getnum value false;
      if 24 <=? hour then None
      else Some (mkParsed (pYear p) (pMonth p) (pDay p) hour (pMin p) (zoneOffset p), value')
  | PZeroMinute =>
      '(min, value') ← getnum value true;
      if 60 <=? min then None
      else Some (mkParsed (pYear p) (pMonth p) (pDay p) (pHour p) min (zoneOffset p), value')
  | PNumColonTZ =>
      match value with
      | sign :: h1 :: h2 :: colon :: m1 :: m2 :: value' =>
          if negb (colon =? 58) then None
          else
            '(hr, _) ← getnum [h1; h2] true;
            '(mm, _) ← getnum [m1; m2] true;
            if (24 <? hr) || (60 <? mm) then None
            else
              let off := (Z.of_N ((hr * 60 + mm) * 60))%Z in
              if sign =? 43 then
                Some (mkParsed (pYear p) (pMonth p) (pDay p) (pHour p) (pMin p) (Some off), value')
              else if sign =? 45 then
                Some (mkParsed (pYear p) (pMonth p) (pDay p) (pHour p) (pMin p) (Some (- off)%Z), value')
              else None
      | _ => None
      end
  end.

Fixpoint parseItems (layout : list layoutItem) (p : parsed) (value : text) : option parsed :=
  match layout with
  | [] => if isEmpty value then Some p else None   (* extra text *)
  | it :: layout' =>
      '(p', value') ← parseItem it p value;
      parseItems layout' p' value'
  end.

(** [time.Parse(layout, value)]; [None] is a non-nil [err]. *)
Definition Parse (layout : list layoutItem) (value : text) : option Time :=
  p ← parseItems layout (mkParsed 0 1 1 0 0 None) value;
  if (pDay p <? 1) || (daysIn (pMonth p) (pYear p) <? pDay p) then None   (* day out of range *)
  else Some (mkTime (pYear p) (pMonth p) (pDay p) (pHour p) (pMin p) (default 0%Z (zoneOffset p))).

(** The chunks of the layouts passed to [Format]. *)
Inductive formatItem :=
  | FZeroDay         (* 02 *)
  | FMonth           (* Jan *)
  | FLongYear        (* 2006 *)
  | FHour            (* 15 *)
  | FZeroHour12      (* 03 *)
  | FZeroMinute      (* 04 *)
  | FPM              (* PM *)
  | FNumColonTZ      (* -07:00 *)
  | FLit (c : rune).

(** "02 Jan 2006", "03:04PM", "15:04" and "-07:00" *)
Definition layoutDate : list formatItem := [FZeroDay; FLit 32; FMonth; FLit 32; FLongYear].
Definition layoutKitchen : list formatItem := [FZeroHour12; FLit 58; FZeroMinute; FPM].
Definition layoutClock : list formatItem := [FHour; FLit 58; FZeroMinute].
Definition layoutZone : list formatItem := [FNumColonTZ].

Fixpoint uintDigits (u : Decimal.uint) : text :=
  match u with
  | Decimal.Nil => []
  | Decimal.D0 u' => 48 :: uintDigits u'
  | Decimal.D1 u' => 49 :: uintDigits u'
  | Decimal.D2 u' => 50 :: uintDigits u'
  | Decimal.D3 u' => 51 :: uintDigits u'
  | Decimal.D4 u' => 52 :: uintDigits u'
  | Decimal.D5 u' => 53 :: uintDigits u'
  | Decimal.D6 u' => 54 :: uintDigits u'
  | Decimal.D7 u' => 55 :: uintDigits u'
  | Decimal.D8 u' => 56 :: uintDigits u'
  | Decimal.D9 u' => 57 :: uintDigits u'
  end.

(** [appendInt(b, x, width)] for [x >= 0]: decimal, zero-padded. *)
Definition appendInt (x : N) (width : nat) : text :=
  let ds := uintDigits (N.to_uint x) in
  replicate (width - length ds) 48 ++ ds.

Definition shortMonthName (month : N) : text :=
  match month with
  | 1 => str "Jan" | 2 => str "Feb" | 3 => str "Mar" | 4 => str "Apr"
  | 5 => str "May" | 6 => str "Jun" | 7 => str "Jul" | 8 => str "Aug"
  | 9 => str "Sep" | 10 => str "Oct" | 11 => str "Nov" | 12 => str "Dec"
  | _ => []
  end.

Definition formatItemText (t : Time) (it : formatItem) : text :=
  match it with
  | FLit c => [c]
  | FZeroDay => appendInt (tDay t) 2
  | FMonth => shortMonthName (tMonth t)
  | FLongYear => appendInt (tYear t) 4
  | FHour => appendInt (tHour t) 2
  | FZeroHour12 =>
      let hr := tHour t mod 12 in
      appendInt (if hr =? 0 then 12 else hr) 2
  | FZeroMinute => appendInt (tMinute t) 2
  | FPM => if 12 <=? tHour t then str "PM" else str "AM"
  | FNumColonTZ =>
      let zone := Z.quot (tOffset t) 60 in
      let sign := if (zone <? 0)%Z then 45 else 43 in
      let zone := Z.to_N (Z.abs zone) in
      sign :: appendInt (zone / 60) 2 ++ [58] ++ appendInt (zone mod 60) 2
  end.

(** [t.Format(layout)] *)
Definition Format (t : Time) (layout : list formatItem) : text :=
  flatten (map (formatItemText t) layout).

(** ** Date and time tokens *)

(** The class [[0-9T:.Z+-]] *)
Definition isStamp (c : rune) : bool :=
  isDigit c || (c =? 84) || (c =? 58) || (c =? 46) || (c =? 90) || (c =? 43) || (c =? 45).

(** [D\(([0-9T:.Z+-]{16,})\)], [T12\(...\)] and [T24\(...\)] *)
Definition dateRegex : list atom :=
  [lit 68; lit 40; group (atLeast isStamp 16); lit 41].
Definition time12Regex : list atom :=
  [lit 84; lit 49; lit 50; lit 40; group (atLeast isStamp 16); lit 41].
Definition time24Regex : list atom :=
  [lit 84; lit 50; lit 52; lit 40; group (atLeast isStamp 16); lit 41].

(** [s[lo : len(s)-1]]; slice bounds out of range panic. *)
Definition inner (lo : nat) (s : text) : option text :=
  match length s with
  | O => None
  | S hi => if (lo <=? hi)%nat then Some (take (hi - lo) (drop lo s)) else None
  end.

(** The two attempts of every callback: the UTC layout, then the
    offset layout. *)
Definition parseStamp (value : text) : option Time :=
  match Parse layoutUTC value with
  | Some t => Some t
  | None => Parse layoutOffset value
  end.

Definition zoneText (t : Time) : text :=
  let zone := Format t layoutZone in
  if eqText zone (str "Z") then str "(+00:00)" else str "(" ++ zone ++ str ")".

(** The callbacks of the date pass and of the time passes; [hl]
    selects the highlighted rendering. *)
Definition dateCallback (hl : bool) (match_ : text) : option text :=
  dateStr ← inner 2 match_;
  match parseStamp dateStr with
  | None => Some match_
  | Some t =>
      if hl then Some (ColorMagenta ++ Format t layoutDate ++ ColorReset)
      else Some (Format t layoutDate)
  end.

Definition timeCallback (hl : bool) (layout : list formatItem) (match_ : text) : option text :=
  timeStr ← inner 4 match_;
  match parseStamp timeStr with
  | None => Some match_
  | Some t =>
      let zone := zoneText t in
      if hl then Some (ColorCyan ++ Format t layout ++ ColorReset ++ str " "
                         ++ ColorYellow ++ zone ++ ColorReset)
      else Some (Format t layout ++ str " " ++ zone)
  end.

Definition datesAndTimes (hl : bool) (content : text) : option text :=
  content ← ReplaceAllStringFunc dateRegex content (dateCallback hl);
  content ← ReplaceAllStringFunc time12Regex content (timeCallback hl layoutKitchen);
  ReplaceAllStringFunc time24Regex content (timeCallback hl layoutClock).

Definition plainProcessDatesAndTimes (content : text) : option text := datesAndTimes false content.
Definition processDatesAndTimes (content : text) : option text := datesAndTimes true content.

(** ** The two renderings *)

Definition plainProcessContent (st : State) (content : text) : option text :=
  content ← plainProcessAirportCodes st content;
  content ← plainProcessDatesAndTimes content;
  let content := trimHorizontalWhitespace content in
  let content := trimVerticalWhitespace content in
  Some content.

Definition highlightProcessContent (st : State) (content : text) : option text :=
  content ← processAirportCodes st content;
  content ← processDatesAndTimes content;
  let content := trimHorizontalWhitespace content in
  let content := trimVerticalWhitespace content in
  Some content.



(** ** Direct readings of the patterns

    What each pattern accepts at the head of a text, written without
    the matcher; the matcher is proved to agree with them. *)

Definition iataLen (s : text) : option nat :=
  match s with
  | 42 :: 35 :: a :: b :: c :: _ =>
      if isUpper a && isUpper b && isUpper c then Some 5%nat else None
  | 35 :: a :: b :: c :: _ =>
      if isUpper a && isUpper b && isUpper c then Some 4%nat else None
  | _ => None
  end.

Definition icaoLen (s : text) : option nat :=
  match s with
  | 42 :: 35 :: 35 :: a :: b :: c :: d :: _ =>
      if isUpper a && isUpper b && isUpper c && isUpper d then Some 7%nat else None
  | 35 :: 35 :: a :: b :: c :: d :: _ =>
      if isUpper a && isUpper b && isUpper c && isUpper d then Some 6%nat else None
  | _ => None
  end.

(** The tail shared by the date and time patterns: the longest run of
    stamp characters, at least 16 of them, closed by [)]. *)
Definition stampTail (n : nat) (body : text) : option nat :=
  let k := run isStamp body in
  if (16 <=? k)%nat
  then match drop k body with
       | 41 :: _ => Some (n + k + 1)%nat
       | _ => None
       end
  else None.

Definition dateLen (s : text) : option nat :=
  match s with
  | 68 :: 40 :: body => stampTail 2 body
  | _ => None
  end.

Definition time12Len (s : text) : option nat :=
  match s with
  | 84 :: 49 :: 50 :: 40 :: body => stampTail 4 body
  | _ => None
  end.

Definition time24Len (s : text) : option nat :=
  match s with
  | 84 :: 50 :: 52 :: 40 :: body => stampTail 4 body
  | _ => None
  end.

(** No match that starts inside [pre] is affected by what follows. *)
Definition local (re : list atom) (pre rest : text) : Prop :=
  forall x y, pre = x ++ y -> y <> [] -> matchLen re (y ++ rest) = matchLen re y.

(** What an airport token turns into: the rendering of the record its
    code resolves to, the token itself when the code is unknown. *)
Definition resolve (st : State) (rendering : Airport -> text) (code tok : text) : text :=
  match lookupAirport st code with
  | Some a => rendering a
  | None => tok
  end.

(** ** Sample data *)

Definition sampleHeader : list text :=
  [str "name"; str "iso_country"; str "municipality"; str "icao_code"; str "iata_code"; str "coordinates"].

Definition sampleRows : list (list text) :=
  [ [str "John F Kennedy International Airport"; str "US"; str "New York"; str "KJFK"; str "JFK"; str "-73.7781, 40.6413"];
    [str "London Heathrow Airport"; str "GB"; str "London"; str "EGLL"; str "LHR"; str "-0.461941, 51.4706"];
    [str "Charles de Gaulle Airport"; str "FR"; str "Paris"; str "LFPG"; str "CDG"; str "2.55, 49.0097"];
    [str "Neghelle Airport"; str "ET"; str "Neghelle"; str "HANG"; str "EGL"; str "39.7023, 5.2897"];
    [str "Albacete Airport"; str "ES"; str "Albacete"; str "LEAB"; str "ABC"; str "-1.86352, 38.9485"] ].

Definition sampleState : State :=
  fst (loadAirportData asciiLower sampleHeader sampleRows initialState).

(** A text on which the stamp run is not followed by [)]. *)
Definition unclosed (rest : text) : Prop :=
  match drop (run isStamp rest) rest with
  | c :: _ => c <> 41
  | [] => True
  end.

(** A text whose first rune cannot continue the opening of a date or
    time token. *)
Definition freshStart (rest : text) : Prop :=
  match rest with
  | c :: _ => c <> 40 /\ c <> 49 /\ c <> 50 /\ c <> 52
  | [] => True
  end.

(** ** The three steps of the vertical collapse, read from their description

    These functions do not use the matcher; [trimVerticalWhitespace] is
    proved to compute their composition. *)

(** A backslash followed by [r], [v] or [f] becomes a newline. *)
Fixpoint unescape (s : text) : text :=
  match s with
  | [] => []
  | c :: r =>
      match r with
      | d :: r' => if (c =? 92) && isRVFLetter d then NL :: unescape r' else c :: unescape r
      | [] => [c]
      end
  end.

(** A run of carriage returns, vertical tabs and form feeds becomes one
    newline (written at the last rune of the run). *)
Fixpoint controlRuns (s : text) : text :=
  match s with
  | [] => []
  | c :: r =>
      if isRVFControl c then
        match r with
        | d :: _ => if isRVFControl d then controlRuns r else NL :: controlRuns r
        | [] => [NL]
        end
      else c :: controlRuns r
  end.

(** A newline followed by two more newlines is dropped: of a run of
    three or more, the last two remain. *)
Fixpoint collapseNewlines (s : text) : text :=
  match s with
  | [] => []
  | c :: r =>
      match r with
      | d :: e :: _ =>
          if (c =? NL) && (d =? NL) && (e =? NL) then collapseNewlines r
          else c :: collapseNewlines r
      | _ => c :: collapseNewlines r
      end
  end.

(** Three newlines in a row somewhere in the text. *)
Fixpoint tripleNewline (s : text) : bool :=
  match s with
  | [] => false
  | c :: r =>
      match r with
      | d :: e :: _ => (c =? NL) && (d =? NL) && (e =? NL)
      | _ => false
      end || tripleNewline r
  end.

(** A rune that the vertical collapse copies as it is. *)
Definition plainRune (c : rune) : bool :=
  negb (c =? NL) && negb (isRVFControl c) && negb (c =? 92).

Definition escapeLen (s : text) : option nat :=
  match s with
  | 92 :: d :: _ => if isRVFLetter d then Some 2%nat else None
  | _ => None
  end.

Definition runLen (p : rune -> bool) (n : nat) (s : text) : option nat :=
  if (n <=? run p s)%nat then Some (run p s) else None.

(** ** Notions used to state idempotence *)

(** A backslash directly followed by [r], [v] or [f] somewhere in the text. *)
Fixpoint hasEscape (s : text) : bool :=
  match s with
  | [] => false
  | c :: r =>
      match r with
      | d :: _ => (c =? 92) && isRVFLetter d
      | [] => false
      end || hasEscape r
  end.

Definition noNewline (t : text) : bool := forallb (fun c => negb (c =? NL)) t.

(** What the horizontal step does to one line. *)
Definition squeeze (line : text) : text := Join (Fields line) [32].

(** Lines as the horizontal step leaves them. *)
Definition tidyLine (l : text) : Prop :=
  noNewline l = true /\ forallb (fun c => negb (isRVFControl c)) l = true
  /\ hasEscape l = false /\ squeeze l = l.

(** The effect of the newline collapse on the lines after the first: an
    empty line followed by an empty line that is not the last is dropped. *)
Fixpoint dropBlank (rest : list text) : list text :=
  match rest with
  | [] => []
  | x :: rest' =>
      match rest' with
      | y :: _ :: _ => if isEmpty x && isEmpty y then dropBlank rest' else x :: dropBlank rest'
      | _ => x :: dropBlank rest'
      end
  end.

(** A table whose second row has an empty name, and a table whose two
    rows share an IATA code. *)
Definition failingRows : list (list text) :=
  [ [str "John F Kennedy International Airport"; str "US"; str "New York"; str "KJFK"; str "JFK"; str "-73.7781, 40.6413"];
    [str "  "; str "GB"; str "London"; str "EGLL"; str "LHR"; str "-0.461941, 51.4706"];
    [str "Charles de Gaulle Airport"; str "FR"; str "Paris"; str "LFPG"; str "CDG"; str "2.55, 49.0097"] ].

Definition sharedCodeRows : list (list text) :=
  [ [str "John F Kennedy International Airport"; str "US"; str "New York"; str "KJFK"; str "JFK"; str "-73.7781, 40.6413"];
    [str "Jackson Field"; str "US"; str "Jackson"; str "KJFX"; str "JFK"; str "0, 0"] ].

(** ** Notions used to compare the two renderings *)

(** A style marker as the program writes them: ESC, [[], digits, [m]. *)
Definition markerRegex : list atom := [lit 27; lit 91; atLeast isDigit 1; lit 109].


(** No atom of the pattern accepts the rune: no match contains it. *)
Definition stops (re : list atom) (c : rune) : bool := forallb (fun a => negb (cls a c)) re.

(** A pattern that does not match the empty text. *)
Definition proper (re : list atom) : Prop := matchLen re [] = None.

(** A text that can be inserted for a token without touching any later
    pass: it is not empty, neither starts nor ends with white space, and
    holds no ESC, [#], [(] or backslash. *)
Definition inertRune (c : rune) : bool :=
  negb ((c =? 27) || (c =? 35) || (c =? 40) || (c =? 92)).

(** The first and the last rune are not white space. *)
Definition cleanEnds (r : text) : bool :=
  match r with
  | [] => false
  | c :: _ => negb (isSpace c)
  end
  && match last r with
     | Some c => negb (isSpace c)
     | None => false
     end.

Definition cleanText (r : text) : bool := cleanEnds r && forallb inertRune r.




(** A sequence of style markers. *)
Inductive marks : text -> Prop :=
  | marks_nil : marks []
  | marks_cons ds m :
      ds <> [] -> forallb isDigit ds = true -> marks m ->
      marks ([27; 91] ++ ds ++ [109] ++ m).


(** The lines after the first, as the horizontal step leaves them. *)
Definition afterLine (ls : list text) : text :=
  match ls with
  | [] => []
  | _ => NL :: Join (map squeeze ls) [NL]
  end.


(** Only white space up to the end of the line. *)
Fixpoint blankToEol (r : text) : bool :=
  match r with
  | [] => true
  | c :: r' => if c =? NL then true else isSpace c && blankToEol r'
  end.

(** The blank the horizontal step writes between a field and the text
    after it. *)
Definition gap (r : text) : text :=
  match r with
  | d :: _ => if isSpace d && negb (d =? NL) && negb (blankToEol r) then [32] else []
  | [] => []
  end.


(** The five token passes of either rendering, before the white space
    is normalised. *)
Definition tokenPasses (hl : bool) (st : State) (content : text) : option text :=
  content ← (if hl then processAirportCodes st content else plainProcessAirportCodes st content);
  if hl then processDatesAndTimes content else plainProcessDatesAndTimes content.

(** A pass that treats the texts on both sides of a white-space rune
    separately. *)
Definition spaceHom (f : text -> option text) : Prop :=
  forall x c y x' y', isSpace c = true -> f x = Some x' -> f y = Some y' ->
    f (x ++ c :: y) = Some (x' ++ c :: y').

(** A pattern whose matches all contain the rune [k]. *)
Definition needs (re : list atom) (k : rune) : Prop :=
  forall y n, matchLen re y = Some n -> In k y.

Definition isLetter (c : rune) : bool := ((65 <=? c) && (c <=? 90)) || ((97 <=? c) && (c <=? 122)).


(** The callback of an airport pass in either rendering. *)
Definition airportPass (re : list atom) (hl : bool) (st : State) : text -> option text :=
  airportCallback re st (if hl then highlightCity else plainCity)
                        (if hl then highlightAirport else plainAirport).





(** ** Notions used by the further properties *)

(** A rune the horizontal step never removes: not white space, or a newline. *)
Definition kept (c : rune) : bool := negb (isSpace c) || (c =? NL).

(** Every white-space rune of [s] other than a newline is a blank with a
    rune that is not white space directly before and directly after it;
    [prev] tells whether the rune before [s] is such a rune. *)
Fixpoint blanksInside (prev : bool) (s : text) : bool :=
  match s with
  | [] => true
  | c :: r =>
      if isSpace c && negb (c =? NL)
      then (c =? 32) && prev
           && match r with d :: _ => negb (isSpace d) | [] => false end
           && blanksInside false r
      else blanksInside (negb (isSpace c)) r
  end.
(** The first rune of the text satisfies [p]. *)
Definition headIs (p : rune -> bool) (s : text) : bool :=
  match s with d :: _ => p d | [] => false end.

(** A text the vertical step has nothing to do on. *)
Definition verticallyTidy (s : text) : bool :=
  negb (hasEscape s) && forallb (fun c => negb (isRVFControl c)) s && negb (tripleNewline s).
(** A white-space rune other than a newline read as a blank. *)
Definition asBlank (c : rune) : rune := if isSpace c && negb (c =? NL) then 32 else c.
(** The text a piece of the scan stands for. *)
Definition pieceText (p : piece) : text :=
  match p with Copy c => [c] | Match m => m end.
(** A table in which the name of one airport holds the token of another. *)
Definition nestedRows : list (list text) :=
  [ [str "London Heathrow Airport"; str "GB"; str "London"; str "EGLL"; str "LHR"; str "-0.461941, 51.4706"];
    [str "Annex of ##EGLL"; str "GB"; str "   "; str "EGAX"; str "ANX"; str "0, 0"] ].

Definition nestedState : State :=
  fst (loadAirportData asciiLower sampleHeader nestedRows initialState).
(** The number of runes a chunk of a layout can consume. *)
Definition itemWidth (it : layoutItem) (n : nat) : Prop :=
  match it with
  | PLongYear => n = 4%nat
  | PHour => n = 1%nat \/ n = 2%nat
  | PNumColonTZ => n = 6%nat
  | PLit _ => n = 1%nat
  | _ => n = 2%nat
  end.
(** A stamp as it is written: [YYYY-MM-DDThh:mmZ], and with an offset
    [YYYY-MM-DDThh:mm+HH:MM] ([-HH:MM] when [west]). *)
Definition stampClock (y mo d h mi : N) : text :=
  appendInt y 4 ++ [45] ++ appendInt mo 2 ++ [45] ++ appendInt d 2 ++ [84]
  ++ appendInt h 2 ++ [58] ++ appendInt mi 2.

Definition stampUTC (y mo d h mi : N) : text := stampClock y mo d h mi ++ [90].

Definition stampOffset (y mo d h mi : N) (west : bool) (oh om : N) : text :=
  stampClock y mo d h mi ++ [if west then 45 else 43] ++ appendInt oh 2 ++ [58] ++ appendInt om 2.

(** The date exists and the time of day is in range. *)
Definition validClock (y mo d h mi : N) : bool :=
  (1 <=? mo) && (mo <=? 12) && (1 <=? d) && (d <=? daysIn mo y) && (h <? 24) && (mi <? 60).
(** A row that registers the code [k]: it has fields, [k] is not empty,
    and [k] is its IATA or its ICAO field exactly as written. *)
Definition carries (unicodeToLower : rune -> rune) (header : list text) (k : text)
    (record : list text) : bool :=
  negb (length record =? 0)%nat && negb (isEmpty k)
  && (eqText (fieldOf unicodeToLower header record "iata_code") k
      || eqText (fieldOf unicodeToLower header record "icao_code") k).

(** The last row of the table that registers [k]. *)
Fixpoint lastCarrier (unicodeToLower : rune -> rune) (header : list text) (k : text)
    (records : list (list text)) : option (list text) :=
  match records with
  | [] => None
  | record :: records' =>
      match lastCarrier unicodeToLower header k records' with
      | Some r => Some r
      | None => if carries unicodeToLower header k record then Some record else None
      end
  end.

(** Every pointer of the map is an address of the heap. *)
Definition pointersValid (st : State) : Prop :=
  forall k p, airportMap st !! k = Some p -> (p < length (heap st))%nat.
(** The sample header written with capitals and surrounding blanks. *)
Definition shoutedHeader : list text :=
  [str " Name "; str "ISO_Country"; str "MUNICIPALITY"; str "Icao_Code "; str "  IATA_CODE"; str "Coordinates"].
(** The fields of a row (or the names of a header) taken in the order
    [idx] of column positions. *)
Definition reorder (idx : list nat) (l : list text) : list text :=
  (fun i => default [] (l !! i)) <$> idx.

(** The sample table with its columns in another order. *)
Definition shuffledColumns : list nat := [4; 0; 5; 3; 1; 2]%nat.
(** No name and no municipality of the directory holds the rune [k]. *)
Definition directoryWithout (k : rune) (st : State) : Prop :=
  forall code a, lookupAirport st code = Some a ->
    forallb (fun c => negb (c =? k)) (Name a) = true
    /\ forallb (fun c => negb (c =? k)) (Municipality a) = true.

(** ** The command-line program

    [main] and its helpers act on the outside world.  The world is
    modelled by what its operations answer: [os.Stat], the CSV reader
    opened on a path, [os.ReadFile] and [os.WriteFile].  File contents
    are texts (valid UTF-8), error values are the texts [%v] prints for
    them, and [main] is taken after [flag.Parse]: the value of [-h] and
    the remaining arguments are its inputs. *)

Definition ColorRed : text := ESC :: str "[31m".
Definition ColorBlue : text := ESC :: str "[34m".
Definition Bold : text := ESC :: str "[1m".
Definition Italic : text := ESC :: str "[3m".
Definition Underline : text := ESC :: str "[4m".

(** What a run does to the outside: text printed on standard output,
    and a file written. *)
Inductive effect :=
  | Print (s : text)
  | WriteFile (path content : text).

Definition printUsage : list effect :=
  [Print (Bold ++ Underline ++ str "Itinerary usage:" ++ ColorReset ++ [NL]);
   Print (Italic ++ str "go run . ./input.txt ./output.txt ./airport-lookup.csv"
          ++ ColorReset ++ [NL])].

Definition printError (message : text) : list effect :=
  [Print (ColorRed ++ Bold ++ str "Error: " ++ message ++ ColorReset ++ [NL])].

Definition printSuccess (message : text) : list effect :=
  [Print (ColorGreen ++ Bold ++ str "Success: " ++ message ++ ColorReset ++ [NL])].

(** The answer of [os.Stat]: no error, an error for which
    [os.IsNotExist] holds, or another error. *)
Inductive statResult := StatFound | StatNotExist | StatOtherError.

Definition fileExists (stat : text -> statResult) (path : text) : bool :=
  match stat path with
  | StatNotExist => false
  | _ => true
  end.

(** What [loadAirportData] gets from the file: [os.Open] fails, the
    header cannot be read, the header is read and [ReadAll] fails, or
    the header and the rows are read. *)
Inductive tableFile :=
  | OpenFails (err : text)
  | HeaderFails (err : text)
  | RowsFail (header : list text) (err : text)
  | Rows (header : list text) (records : list (list text)).

(** The result of [loadAirportData(path)]: [nil], an error with its
    message, or a run-time panic. *)
Inductive loadResult := LoadOk | LoadFails (message : text) | LoadPanics.

Definition ofError (e : error) : loadResult :=
  match e with
  | MissingColumn req => LoadFails (str "missing required column: " ++ req)
  | MalformedRecord => LoadFails (str "malformed record")
  | EmptyName => LoadFails (str "empty name in record")
  | NoCode => LoadFails (str "record has no IATA or ICAO code")
  | IndexPanic => LoadPanics
  end.

(** [loadAirportData(path)]: the columns are checked and the directory
    is replaced before [ReadAll] is called. *)
Definition loadAirportDataFile (unicodeToLower : rune -> rune) (f : tableFile) (st : State)
    : State * loadResult :=
  match f with
  | OpenFails err => (st, LoadFails err)
  | HeaderFails err => (st, LoadFails err)
  | RowsFail header err =>
      match loadAirportData unicodeToLower header [] st with
      | (st', Some e) => (st', ofError e)
      | (st', None) => (st', LoadFails err)
      end
  | Rows header records =>
      match loadAirportData unicodeToLower header records st with
      | (st', Some e) => (st', ofError e)
      | (st', None) => (st', LoadOk)
      end
  end.

Record World := mkWorld {
  stat : text -> statResult;
  openTable : text -> tableFile;
  readFile : text -> text + text;            (* the error, or the content *)
  writeFile : text -> text -> option text    (* the error, if any *)
}.

(** How a run ends: by a panic, or normally with the directory it
    leaves and the effects it had, in order. *)
Inductive outcome := Panics | Ends (st : State) (effects : list effect).

Definition main (unicodeToLower : rune -> rune) (helpFlag : bool) (args : list text)
    (w : World) (st : State) : outcome :=
  if helpFlag then Ends st printUsage
  else
    match args with
    | [inputPath; outputPath; airportLookupPath] =>
        if negb (fileExists (stat w) inputPath)
        then Ends st (printError (str "Input file not found"))
        else if negb (fileExists (stat w) airportLookupPath)
        then Ends st (printError (str "Airport lookup file not found"))
        else
          match loadAirportDataFile unicodeToLower (openTable w airportLookupPath) st with
          | (_, LoadPanics) => Panics
          | (st', LoadFails err) =>
              Ends st' (printError (str "Airport lookup file is malformed: " ++ err))
          | (st', LoadOk) =>
              match readFile w inputPath with
              | inl err => Ends st' (printError (str "Error reading input file: " ++ err))
              | inr input =>
                  match plainProcessContent st' input, highlightProcessContent st' input with
                  | Some plainOutput, Some highlightedOutput =>
                      match writeFile w outputPath plainOutput with
                      | Some err =>
                          Ends st' (printError (str "Error writing output file: " ++ err))
                      | None =>
                          Ends st'
                            ([WriteFile outputPath plainOutput]
                             ++ printSuccess (str "Processing completed successfully!")
                             ++ [Print ([NL] ++ Bold ++ ColorBlue
                                        ++ str "=== Processed Output ===" ++ ColorReset
                                        ++ [NL; NL]);
                                 Print (highlightedOutput ++ [NL])])
                      end
                  | _, _ => Panics
                  end
              end
          end
    | _ => Ends st printUsage
    end.

(** The file written by a run, if any. *)
Definition written (o : outcome) : list (text * text) :=
  match o with
  | Panics => []
  | Ends _ effects =>
      flat_map (fun e => match e with WriteFile p c => [(p, c)] | Print _ => [] end) effects
  end.

(** A world in which every file exists, the table is the sample table
    and the input is one line. *)
Definition sampleWorld : World :=
  mkWorld (fun _ => StatFound) (fun _ => Rows sampleHeader sampleRows)
          (fun _ => inr (str "Depart  #JFK")) (fun _ _ => None).

(** What [ReadAll] hands over for the records that follow the header.
    The reader is the one [csv.NewReader] returns, so [FieldsPerRecord]
    is 0: [Read] fixes the number of fields to that of the header, and
    [ReadAll] fails, with the message [err], on the first record with
    another number of fields.  A table reaches the row loop only when
    every record has as many fields as the header. *)
Definition readAll (header : list text) (records : list (list text)) (err : text) : tableFile :=
  if forallb (fun record => (length record =? length header)%nat) records
  then Rows header records
  else RowsFail header err.

(** * Properties *)

(** A first check of the whitespace steps on a concrete text. *)
Example ex_ws1 :
  normalizeWhitespace (str "a   b" ++ [9; 10; 10; 10; 10; 10] ++ str " c\rd")
  = str "a b" ++ [10; 10] ++ str "c" ++ [10] ++ str "d".
Proof. vm_compute. reflexivity. Qed.


(** ** The matcher *)

Lemma backtrack_eq f lo k :
  backtrack f lo k =
  if (k <? lo)%nat then None
  else match f k with
       | Some l => Some (k :: l)
       | None => match k with O => None | S k' => backtrack f lo k' end
       end.
Proof. destruct k; reflexivity. Qed.

Lemma backtrack_below f lo k : (k < lo)%nat -> backtrack f lo k = None.
Proof.
  intros H. rewrite backtrack_eq. destruct (Nat.ltb_spec k lo); [reflexivity | lia].
Qed.

Lemma backtrack_one f : backtrack f 1 1 = cons 1%nat <$> f 1%nat.
Proof.
  rewrite backtrack_eq. change (1 <? 1)%nat with false. cbv iota.
  destruct (f 1%nat); [reflexivity |]. apply backtrack_below. lia.
Qed.

(** When every shorter repetition fails, only the greedy one counts. *)
Lemma backtrack_top f lo k :
  (forall j, (lo <= j < k)%nat -> f j = None) ->
  backtrack f lo k = if (k <? lo)%nat then None else cons k <$> f k.
Proof.
  induction k as [| k IH]; intros H; rewrite backtrack_eq.
  - destruct (Nat.ltb_spec 0 lo); [reflexivity |]. destruct (f 0%nat); reflexivity.
  - destruct (Nat.ltb_spec (S k) lo); [reflexivity |].
    destruct (f (S k)) eqn:E; [reflexivity |]. simpl.
    rewrite IH by (intros; apply H; lia).
    destruct (Nat.ltb_spec k lo); [reflexivity |]. rewrite (H k); [reflexivity | lia].
Qed.

Lemma matchAtoms_lit p cap re s :
  matchAtoms (Atom p 1 (Some 1%nat) cap :: re) s =
  match s with
  | c :: s' => if p c then cons 1%nat <$> matchAtoms re s' else None
  | [] => None
  end.
Proof.
  destruct s as [| c s']; [reflexivity |].
  cbn [matchAtoms amax amin cls run]. destruct (p c).
  - change (Nat.min 1 (S (run p s'))) with 1%nat. apply backtrack_one.
  - reflexivity.
Qed.

Lemma matchAtoms_opt p cap re s :
  matchAtoms (Atom p 0 (Some 1%nat) cap :: re) s =
  match s with
  | c :: s' =>
      if p c then match matchAtoms re s' with
                  | Some l => Some (1%nat :: l)
                  | None => cons 0%nat <$> matchAtoms re s
                  end
      else cons 0%nat <$> matchAtoms re s
  | [] => cons 0%nat <$> matchAtoms re []
  end.
Proof.
  destruct s as [| c s']; cbn [matchAtoms amax amin cls run].
  - simpl. destruct (matchAtoms re []); reflexivity.
  - destruct (p c).
    + change (Nat.min 1 (S (run p s'))) with 1%nat.
      rewrite backtrack_eq. change (drop 1 (c :: s')) with s'.
      change (1 <? 0)%nat with false. cbv iota.
      destruct (matchAtoms re s'); [reflexivity |].
      rewrite backtrack_eq. change (drop 0 (c :: s')) with (c :: s').
      change (0 <? 0)%nat with false. cbv iota.
      destruct (matchAtoms re (c :: s')); reflexivity.
    + change (Nat.min 1 0) with 0%nat.
      rewrite backtrack_eq. change (drop 0 (c :: s')) with (c :: s').
      change (0 <? 0)%nat with false. cbv iota.
      destruct (matchAtoms re (c :: s')); reflexivity.
Qed.

Lemma matchAtoms_rep p n cap re s :
  matchAtoms (Atom p n (Some n) cap :: re) s =
  if (n <=? run p s)%nat then cons n <$> matchAtoms re (drop n s) else None.
Proof.
  cbn [matchAtoms amax amin cls].
  destruct (Nat.leb_spec n (run p s)) as [Hle | Hgt].
  - rewrite Nat.min_l by exact Hle. rewrite backtrack_top by (intros; lia).
    rewrite Nat.ltb_irrefl. reflexivity.
  - apply backtrack_below. lia.
Qed.

Lemma run_le p s : (run p s <= length s)%nat.
Proof. induction s as [| c s IH]; simpl; [lia |]. destruct (p c); simpl; lia. Qed.

Lemma run_drop_head p s j :
  (j < run p s)%nat -> exists c r, drop j s = c :: r /\ p c = true.
Proof.
  revert j. induction s as [| c s IH]; simpl; intros j Hj; [lia |].
  destruct (p c) eqn:E; [| lia].
  destruct j as [| j]; [exists c, s; auto |]. apply IH. lia.
Qed.

(** A greedy class followed by a literal outside the class: no
    backtracking can succeed. *)
Lemma matchAtoms_atLeast_lit p n cap q cap' re s :
  (forall c, p c = true -> q c = false) ->
  matchAtoms (Atom p n None cap :: Atom q 1 (Some 1%nat) cap' :: re) s =
  if (n <=? run p s)%nat
  then cons (run p s) <$> matchAtoms (Atom q 1 (Some 1%nat) cap' :: re) (drop (run p s) s)
  else None.
Proof.
  intros Hpq.
  change (matchAtoms (Atom p n None cap :: Atom q 1 (Some 1%nat) cap' :: re) s)
    with (backtrack (fun k => matchAtoms (Atom q 1 (Some 1%nat) cap' :: re) (drop k s)) n (run p s)).
  rewrite backtrack_top.
  - destruct (Nat.leb_spec n (run p s)), (Nat.ltb_spec (run p s) n); try lia; reflexivity.
  - intros j Hj. rewrite matchAtoms_lit.
    destruct (run_drop_head p s j) as (c & r & -> & Hc); [lia |].
    rewrite (Hpq c Hc). reflexivity.
Qed.


(** ** The patterns agree with their direct readings *)

Ltac bits c :=
  let p := fresh "p" in
  destruct c as [| p]; [| do 7 (try destruct p as [p | p |])].

Ltac uppers :=
  repeat (match goal with |- context [isUpper ?x] => destruct (isUpper x) end; simpl).

Lemma matchLen_iata s : matchLen iataRegex s = iataLen s.
Proof.
  unfold matchLen, iataRegex, group, opt, lit, rep. cbn [cls amin amax].
  rewrite matchAtoms_opt, !matchAtoms_lit.
  destruct s as [| c0 s]; [reflexivity |]. unfold isRune.
  destruct (N.eqb_spec c0 42) as [-> | E0].
  - destruct s as [| c1 s]; [reflexivity |].
    destruct (N.eqb_spec c1 35) as [-> | E1].
    + rewrite matchAtoms_rep. destruct s as [| a [| b [| c r]]]; simpl; uppers; reflexivity.
    + simpl. bits c1; try reflexivity; congruence.
  - destruct (N.eqb_spec c0 35) as [-> | E1].
    + rewrite matchAtoms_rep. destruct s as [| a [| b [| c r]]]; simpl; uppers; reflexivity.
    + simpl. bits c0; try reflexivity; congruence.
Qed.

Lemma matchLen_icao s : matchLen icaoRegex s = icaoLen s.
Proof.
  unfold matchLen, icaoRegex, group, opt, lit, rep. cbn [cls amin amax].
  rewrite matchAtoms_opt, !matchAtoms_lit.
  destruct s as [| c0 s]; [reflexivity |]. unfold isRune.
  destruct (N.eqb_spec c0 42) as [-> | E0].
  - destruct s as [| c1 s]; [reflexivity |]. rewrite !matchAtoms_lit.
    destruct (N.eqb_spec c1 35) as [-> | E1].
    + destruct s as [| c2 s]; [reflexivity |].
      destruct (N.eqb_spec c2 35) as [-> | E2].
      * rewrite matchAtoms_rep. destruct s as [| a [| b [| c [| d r]]]]; simpl; uppers; reflexivity.
      * simpl. bits c2; try reflexivity; congruence.
    + simpl. bits c1; try reflexivity; congruence.
  - destruct (N.eqb_spec c0 35) as [-> | E1].
    + destruct s as [| c2 s]; [reflexivity |]. rewrite !matchAtoms_lit.
      destruct (N.eqb_spec c2 35) as [-> | E2].
      * rewrite matchAtoms_rep. destruct s as [| a [| b [| c [| d r]]]]; simpl; uppers; reflexivity.
      * simpl. bits c2; try reflexivity; congruence.
    + simpl. bits c0; try reflexivity; congruence.
Qed.
Lemma isStamp_not_close c : isStamp c = true -> isRune 41 c = false.
Proof.
  unfold isRune. destruct (N.eqb_spec c 41) as [-> | E]; [discriminate | reflexivity].
Qed.

Lemma stamp_tail_atoms body :
  matchAtoms [Atom isStamp 16 None true; Atom (isRune 41) 1 (Some 1%nat) false] body
  = if (16 <=? run isStamp body)%nat
    then match drop (run isStamp body) body with
         | 41 :: _ => Some [run isStamp body; 1%nat]
         | _ => None
         end
    else None.
Proof.
  rewrite matchAtoms_atLeast_lit by apply isStamp_not_close.
  destruct (16 <=? run isStamp body)%nat; [| reflexivity].
  rewrite matchAtoms_lit. destruct (drop (run isStamp body) body) as [| c r]; [reflexivity |].
  unfold isRune. destruct (N.eqb_spec c 41) as [-> | E]; [reflexivity |].
  bits c; try reflexivity; congruence.
Qed.

Lemma stamp_tail_len n body :
  (fun l => (n + foldr Nat.add 0 l)%nat) <$>
    matchAtoms [Atom isStamp 16 None true; Atom (isRune 41) 1 (Some 1%nat) false] body
  = stampTail n body.
Proof.
  rewrite stamp_tail_atoms. unfold stampTail.
  destruct (16 <=? run isStamp body)%nat; [| reflexivity].
  destruct (drop (run isStamp body) body) as [| c r]; [reflexivity |].
  bits c; try reflexivity. simpl. f_equal. lia.
Qed.

Ltac lit_step c n :=
  rewrite matchAtoms_lit; unfold isRune at 1;
  destruct (N.eqb_spec c n) as [-> | ?];
  [| bits c; try reflexivity; congruence].

Lemma matchLen_date s : matchLen dateRegex s = dateLen s.
Proof.
  unfold matchLen, dateRegex, group, atLeast, lit. cbn [cls amin amax].
  destruct s as [| c0 s]; [reflexivity |]. lit_step c0 68.
  destruct s as [| c1 s]; [reflexivity |]. lit_step c1 40.
  change (dateLen (68 :: 40 :: s)) with (stampTail 2 s).
  rewrite <- (stamp_tail_len 2).
  destruct (matchAtoms _ s); reflexivity.
Qed.

Lemma matchLen_time12 s : matchLen time12Regex s = time12Len s.
Proof.
  unfold matchLen, time12Regex, group, atLeast, lit. cbn [cls amin amax].
  destruct s as [| c0 s]; [reflexivity |]. lit_step c0 84.
  destruct s as [| c1 s]; [reflexivity |]. lit_step c1 49.
  destruct s as [| c2 s]; [reflexivity |]. lit_step c2 50.
  destruct s as [| c3 s]; [reflexivity |]. lit_step c3 40.
  match goal with |- _ = ?f (_ :: _ :: _ :: _ :: s) => change (f (84 :: _ :: _ :: 40 :: s)) with (stampTail 4 s) end.
  rewrite <- (stamp_tail_len 4).
  destruct (matchAtoms _ s); reflexivity.
Qed.

Lemma matchLen_time24 s : matchLen time24Regex s = time24Len s.
Proof.
  unfold matchLen, time24Regex, group, atLeast, lit. cbn [cls amin amax].
  destruct s as [| c0 s]; [reflexivity |]. lit_step c0 84.
  destruct s as [| c1 s]; [reflexivity |]. lit_step c1 50.
  destruct s as [| c2 s]; [reflexivity |]. lit_step c2 52.
  destruct s as [| c3 s]; [reflexivity |]. lit_step c3 40.
  match goal with |- _ = ?f (_ :: _ :: _ :: _ :: s) => change (f (84 :: _ :: _ :: 40 :: s)) with (stampTail 4 s) end.
  rewrite <- (stamp_tail_len 4).
  destruct (matchAtoms _ s); reflexivity.
Qed.

(** ** The scan *)

Lemma backtrack_Some f lo k r :
  backtrack f lo k = Some r ->
  exists j l, r = j :: l /\ (lo <= j <= k)%nat /\ f j = Some l.
Proof.
  induction k as [| k IH]; rewrite backtrack_eq.
  - destruct (Nat.ltb_spec 0 lo); [discriminate |].
    destruct (f 0%nat) eqn:E; [| discriminate].
    intros [= <-]. exists 0%nat, l. repeat split; auto; lia.
  - destruct (Nat.ltb_spec (S k) lo); [discriminate |].
    destruct (f (S k)) eqn:E.
    + intros [= <-]. exists (S k), l. repeat split; auto.
    + intros Hb. destruct (IH Hb) as (j & l & -> & Hj & Hf).
      exists j, l. repeat split; auto; lia.
Qed.

Lemma matchAtoms_le re : forall s ns,
  matchAtoms re s = Some ns -> (foldr Nat.add 0 ns <= length s)%nat.
Proof.
  induction re as [| a re IH]; intros s ns; simpl.
  - intros [= <-]. simpl. lia.
  - intros Hb. apply backtrack_Some in Hb as (j & l & -> & Hj & Hf).
    apply IH in Hf. rewrite length_drop in Hf. simpl.
    assert (j <= run (cls a) s)%nat by (destruct (amax a); lia).
    pose proof (run_le (cls a) s). lia.
Qed.

Lemma matchLen_le re s n : matchLen re s = Some n -> (n <= length s)%nat.
Proof.
  unfold matchLen. destruct (matchAtoms re s) eqn:E; [| discriminate].
  intros [= <-]. eapply matchAtoms_le, E.
Qed.

Lemma local_tail re c pre rest : local re (c :: pre) rest -> local re pre rest.
Proof. intros H x y -> Hy. apply (H (c :: x) y); auto. Qed.

Lemma scan_app re pre rest : local re pre rest ->
  forall skip, (skip <= length pre)%nat ->
  scan re skip (pre ++ rest) = scan re skip pre ++ scan re 0 rest.
Proof.
  induction pre as [| c pre IH]; intros Hloc skip Hskip.
  - simpl in Hskip. assert (skip = 0%nat) as -> by lia. reflexivity.
  - simpl in Hskip. pose proof (local_tail _ _ _ _ Hloc) as Hloc'.
    destruct skip as [| k]; simpl.
    + change (c :: pre ++ rest) with ((c :: pre) ++ rest).
      rewrite (Hloc [] (c :: pre)) by (auto; discriminate).
      destruct (matchLen re (c :: pre)) as [[| n] |] eqn:E.
      * rewrite IH by (auto; lia). reflexivity.
      * apply matchLen_le in E. simpl in E.
        rewrite IH by (auto; lia). simpl. f_equal. f_equal. f_equal.
        rewrite take_app_le by lia. reflexivity.
      * rewrite IH by (auto; lia). reflexivity.
    + apply IH; auto. lia.
Qed.

Lemma scan_skip re : forall k s, scan re k s = scan re 0 (drop k s).
Proof.
  induction k as [| k IH]; intros s; [reflexivity |].
  destruct s as [| c s]; [reflexivity |]. simpl. apply IH.
Qed.

(** A match at the head of the text becomes one piece. *)
Lemma scan_match re tok rest :
  tok <> [] -> matchLen re (tok ++ rest) = Some (length tok) ->
  scan re 0 (tok ++ rest) = Match tok :: scan re 0 rest.
Proof.
  intros Hne Hm. destruct tok as [| c tok]; [congruence |].
  simpl. change (c :: tok ++ rest) with ((c :: tok) ++ rest). rewrite Hm. simpl.
  rewrite take_app_length. f_equal. rewrite scan_skip, drop_app_length. reflexivity.
Qed.
Lemma iataLen_tests s :
  iataLen s =
  match s with
  | c0 :: c1 :: c2 :: c3 :: r =>
      if c0 =? 42 then
        match r with
        | c4 :: _ => if (c1 =? 35) && isUpper c2 && isUpper c3 && isUpper c4
                     then Some 5%nat else None
        | [] => None
        end
      else if (c0 =? 35) && isUpper c1 && isUpper c2 && isUpper c3 then Some 4%nat else None
  | _ => None
  end.
Proof.
  destruct s as [| c0 s].
  { reflexivity. }
  destruct (N.eqb_spec c0 42) as [-> | E0].
  - destruct s as [| c1 s]; [reflexivity |].
    destruct (N.eqb_spec c1 35) as [-> | E1].
    + destruct s as [| c2 [| c3 [| c4 r]]]; reflexivity.
    + destruct s as [| c2 [| c3 [| c4 r]]]; simpl;
        bits c1; try reflexivity; congruence.
  - destruct (N.eqb_spec c0 35) as [-> | E1].
    + destruct s as [| c1 [| c2 [| c3 r]]]; reflexivity.
    + destruct s as [| c1 [| c2 [| c3 r]]]; simpl;
        bits c0; try reflexivity; congruence.
Qed.

Lemma icaoLen_tests s :
  icaoLen s =
  match s with
  | c0 :: c1 :: c2 :: c3 :: c4 :: c5 :: r =>
      if c0 =? 42 then
        match r with
        | c6 :: _ => if (c1 =? 35) && (c2 =? 35) && isUpper c3 && isUpper c4 && isUpper c5 && isUpper c6
                     then Some 7%nat else None
        | [] => None
        end
      else if (c0 =? 35) && (c1 =? 35) && isUpper c2 && isUpper c3 && isUpper c4 && isUpper c5
           then Some 6%nat else None
  | _ => None
  end.
Proof.
  destruct s as [| c0 s].
  { reflexivity. }
  destruct (N.eqb_spec c0 42) as [-> | E0].
  - destruct s as [| c1 s]; [reflexivity |].
    destruct (N.eqb_spec c1 35) as [-> | E1].
    + destruct s as [| c2 s]; [reflexivity |].
      destruct (N.eqb_spec c2 35) as [-> | E2].
      * destruct s as [| c3 [| c4 [| c5 [| c6 r]]]]; reflexivity.
      * destruct s as [| c3 [| c4 [| c5 [| c6 r]]]]; simpl;
          bits c2; try reflexivity; congruence.
    + destruct s as [| c2 [| c3 [| c4 [| c5 [| c6 r]]]]]; simpl;
        bits c1; try reflexivity; congruence.
  - destruct (N.eqb_spec c0 35) as [-> | E1].
    + destruct s as [| c1 s]; [reflexivity |].
      destruct (N.eqb_spec c1 35) as [-> | E2].
      * destruct s as [| c2 [| c3 [| c4 [| c5 r]]]]; reflexivity.
      * destruct s as [| c2 [| c3 [| c4 [| c5 r]]]]; simpl;
          bits c1; try reflexivity; congruence.
    + destruct s as [| c1 [| c2 [| c3 [| c4 [| c5 r]]]]]; simpl;
        bits c0; try reflexivity; congruence.
Qed.
Ltac tests :=
  repeat (match goal with
          | |- context [N.eqb ?c ?n] => destruct (N.eqb_spec c n); subst
          | |- context [isUpper ?c] => destruct (isUpper c) eqn:?
          | |- context [match ?r with [] => _ | _ :: _ => _ end] => is_var r; destruct r
          end; simpl; try reflexivity; try congruence).

Lemma isUpper_hash : isUpper 35 = false.
Proof. reflexivity. Qed.

(** An IATA token is found whatever precedes it, a [*] apart. *)
Lemma iata_local pre r : last pre <> Some 42 -> local iataRegex pre (35 :: r).
Proof.
  intros H x y -> Hy. rewrite last_app in H.
  rewrite !matchLen_iata, !iataLen_tests.
  destruct y as [| c0 [| c1 [| c2 [| c3 [| c4 y]]]]]; [congruence | ..]; simpl in H |- *;
    tests.
Qed.

Lemma icao_local pre r : last pre <> Some 42 -> local icaoRegex pre (35 :: 35 :: r).
Proof.
  intros H x y -> Hy. rewrite last_app in H.
  rewrite !matchLen_icao, !icaoLen_tests.
  destruct y as [| c0 [| c1 [| c2 [| c3 [| c4 [| c5 [| c6 y]]]]]]]; [congruence | ..];
    simpl in H |- *; tests.
Qed.

(** ** Replacing *)

Lemma mapM_option_app {A B} (f : A -> option B) l1 l2 :
  mapM f (l1 ++ l2) = a ← mapM f l1; b ← mapM f l2; Some (a ++ b).
Proof.
  induction l1 as [| x l1 IH]; simpl.
  - destruct (mapM f l2); reflexivity.
  - destruct (f x); simpl; [| reflexivity]. rewrite IH.
    destruct (mapM f l1); simpl; [| reflexivity].
    destruct (mapM f l2); reflexivity.
Qed.

Lemma flatten_app a b : flatten (a ++ b) = flatten a ++ flatten b.
Proof. apply concat_app. Qed.

Lemma replace_app re pre rest cb : local re pre rest ->
  ReplaceAllStringFunc re (pre ++ rest) cb =
  x ← ReplaceAllStringFunc re pre cb; y ← ReplaceAllStringFunc re rest cb; Some (x ++ y).
Proof.
  intros Hloc. unfold ReplaceAllStringFunc.
  rewrite scan_app by (auto; lia). rewrite mapM_option_app.
  destruct (mapM (render cb) (scan re 0 pre)); simpl; [| reflexivity].
  destruct (mapM (render cb) (scan re 0 rest)); simpl; [| reflexivity].
  rewrite flatten_app. reflexivity.
Qed.

Lemma replace_match re tok rest cb :
  tok <> [] -> matchLen re (tok ++ rest) = Some (length tok) ->
  ReplaceAllStringFunc re (tok ++ rest) cb =
  x ← cb tok; y ← ReplaceAllStringFunc re rest cb; Some (x ++ y).
Proof.
  intros Hne Hm. unfold ReplaceAllStringFunc. rewrite scan_match by auto.
  simpl. destruct (cb tok); simpl; [| reflexivity].
  destruct (mapM (render cb) (scan re 0 rest)); reflexivity.
Qed.

(** The callbacks on a well-formed token *)

Lemma iata_callback st city airport a b c :
  isUpper a = true -> isUpper b = true -> isUpper c = true ->
  airportCallback iataRegex st city airport [35; a; b; c]
    = Some (resolve st airport [a; b; c] [35; a; b; c]) /\
  airportCallback iataRegex st city airport [42; 35; a; b; c]
    = Some (resolve st city [a; b; c] [42; 35; a; b; c]).
Proof.
  intros Ha Hb Hc. unfold airportCallback, resolve, iataRegex, group, opt, lit, rep.
  remember (lookupAirport st) as lk.
  cbn [cls amin amax FindStringSubmatch].
  rewrite !matchAtoms_opt, !matchAtoms_lit, !matchAtoms_rep. simpl.
  rewrite Ha, Hb, Hc. simpl.
  split; destruct (lk _); reflexivity.
Qed.

Lemma icao_callback st city airport a b c d :
  isUpper a = true -> isUpper b = true -> isUpper c = true -> isUpper d = true ->
  airportCallback icaoRegex st city airport [35; 35; a; b; c; d]
    = Some (resolve st airport [a; b; c; d] [35; 35; a; b; c; d]) /\
  airportCallback icaoRegex st city airport [42; 35; 35; a; b; c; d]
    = Some (resolve st city [a; b; c; d] [42; 35; 35; a; b; c; d]).
Proof.
  intros Ha Hb Hc Hd. unfold airportCallback, resolve, icaoRegex, group, opt, lit, rep.
  remember (lookupAirport st) as lk.
  cbn [cls amin amax FindStringSubmatch].
  rewrite !matchAtoms_opt, !matchAtoms_lit, !matchAtoms_rep. simpl.
  rewrite Ha, Hb, Hc, Hd. simpl.
  split; destruct (lk _); reflexivity.
Qed.
(** ** Airport tokens inside longer text *)

Lemma iata_token_len a b c post :
  isUpper a = true -> isUpper b = true -> isUpper c = true ->
  matchLen iataRegex ([35; a; b; c] ++ post) = Some 4%nat.
Proof. intros Ha Hb Hc. rewrite matchLen_iata. simpl. rewrite Ha, Hb, Hc. reflexivity. Qed.

Lemma icao_token_len a b c d post :
  isUpper a = true -> isUpper b = true -> isUpper c = true -> isUpper d = true ->
  matchLen icaoRegex ([35; 35; a; b; c; d] ++ post) = Some 6%nat.
Proof. intros Ha Hb Hc Hd. rewrite matchLen_icao. simpl. rewrite Ha, Hb, Hc, Hd. reflexivity. Qed.

(** C10: airport-code matching applies no boundary check.  A [#] followed
    by three upper-case letters is replaced as an IATA token whatever text
    surrounds it (a directly preceding [*] only selects the city
    rendering), and the text before and after it is scanned on its own;
    likewise for [##] followed by four upper-case letters in the ICAO pass.
    With [ABC] in the directory, ["#ABCD"] becomes the resolved name
    followed by ["D"], and ["##LEABX"] the resolved name followed by ["X"]. *)
Theorem airport_tokens_ignore_boundaries :
  forall st city airport pre post a b c d,
    isUpper a = true -> isUpper b = true -> isUpper c = true -> isUpper d = true ->
    last pre <> Some 42 ->
    (ReplaceAllStringFunc iataRegex (pre ++ [35; a; b; c] ++ post)
       (airportCallback iataRegex st city airport)
     = x ← ReplaceAllStringFunc iataRegex pre (airportCallback iataRegex st city airport);
       y ← ReplaceAllStringFunc iataRegex post (airportCallback iataRegex st city airport);
       Some (x ++ resolve st airport [a; b; c] [35; a; b; c] ++ y))
    /\ (ReplaceAllStringFunc icaoRegex (pre ++ [35; 35; a; b; c; d] ++ post)
          (airportCallback icaoRegex st city airport)
        = x ← ReplaceAllStringFunc icaoRegex pre (airportCallback icaoRegex st city airport);
          y ← ReplaceAllStringFunc icaoRegex post (airportCallback icaoRegex st city airport);
          Some (x ++ resolve st airport [a; b; c; d] [35; 35; a; b; c; d] ++ y))
    /\ plainProcessAirportCodes sampleState (str "#ABCD") = Some (str "Albacete AirportD")
    /\ plainProcessAirportCodes sampleState (str "##LEABX") = Some (str "Albacete AirportX").
Proof.
  intros st city airport pre post a b c d Ha Hb Hc Hd Hpre.
  split; [| split; [| split; vm_compute; reflexivity]].
  - rewrite replace_app by (apply iata_local, Hpre).
    rewrite replace_match by (try discriminate; apply iata_token_len; auto).
    rewrite (proj1 (iata_callback st city airport a b c Ha Hb Hc)).
    destruct (ReplaceAllStringFunc iataRegex pre _); simpl; [| reflexivity].
    destruct (ReplaceAllStringFunc iataRegex post _); reflexivity.
  - rewrite replace_app by (apply icao_local, Hpre).
    rewrite replace_match by (try discriminate; apply icao_token_len; auto).
    rewrite (proj1 (icao_callback st city airport a b c d Ha Hb Hc Hd)).
    destruct (ReplaceAllStringFunc icaoRegex pre _); simpl; [| reflexivity].
    destruct (ReplaceAllStringFunc icaoRegex post _); reflexivity.
Qed.

Lemma airport_tokens_ignore_boundaries_witness :
  ReplaceAllStringFunc iataRegex (str "to " ++ [35; 65; 66; 67] ++ str "D")
    (airportCallback iataRegex sampleState plainCity plainAirport)
  = x ← ReplaceAllStringFunc iataRegex (str "to ") (airportCallback iataRegex sampleState plainCity plainAirport);
    y ← ReplaceAllStringFunc iataRegex (str "D") (airportCallback iataRegex sampleState plainCity plainAirport);
    Some (x ++ resolve sampleState plainAirport [65; 66; 67] [35; 65; 66; 67] ++ y).
Proof.
  apply (airport_tokens_ignore_boundaries sampleState plainCity plainAirport
           (str "to ") (str "D") 65 66 67 68);
    try reflexivity. vm_compute. discriminate.
Defined.

(** C2: the IATA pass runs first and takes [#XXX] out of [##XXXX].  With
    both [EGL] and [EGLL] in the directory, ["##EGLL"] is not resolved as
    the ICAO token it is: the output is [#] followed by the record of
    [EGL] and the left-over letter. *)
Theorem icao_token_taken_by_iata_pass :
  lookupAirport sampleState (str "EGLL") <> None /\
  lookupAirport sampleState (str "EGL") <> None /\
  plainProcessContent sampleState (str "##EGLL") = Some (str "#Neghelle AirportL") /\
  plainProcessContent sampleState (str "##EGLL") <> Some (str "London Heathrow Airport") /\
  highlightProcessContent sampleState (str "##EGLL")
    = Some (str "#" ++ ColorGreen ++ str "Neghelle Airport" ++ ColorReset ++ str "L").
Proof. vm_compute. repeat split; discriminate. Qed.

(** ** Date and time tokens in context *)

Lemma run_all p s : forallb p s = true -> run p s = length s.
Proof.
  induction s as [| c s IH]; simpl; [reflexivity |].
  destruct (p c); simpl; [| discriminate]. intros H. rewrite IH by exact H. reflexivity.
Qed.

Lemma run_app_stop p s c r : forallb p s = true -> p c = false -> run p (s ++ c :: r) = length s.
Proof.
  induction s as [| x s IH]; simpl; intros Hs Hc.
  - rewrite Hc. reflexivity.
  - destruct (p x); simpl in *; [| discriminate]. rewrite IH by auto. reflexivity.
Qed.

Lemma run_app_short p y rest : (run p y < length y)%nat -> run p (y ++ rest) = run p y.
Proof.
  induction y as [| c y IH]; simpl; [lia |].
  destruct (p c); [| reflexivity]. intros H. rewrite IH by lia. reflexivity.
Qed.

Lemma run_app_full p y rest : run p y = length y -> run p (y ++ rest) = (length y + run p rest)%nat.
Proof.
  induction y as [| c y IH]; simpl; [reflexivity |].
  destruct (p c); [| discriminate]. intros H. rewrite IH by lia. reflexivity.
Qed.

Lemma stampTail_app n y rest : unclosed rest -> stampTail n (y ++ rest) = stampTail n y.
Proof.
  intros Hu. unfold stampTail.
  pose proof (run_le isStamp y) as Hle.
  destruct (Nat.eq_dec (run isStamp y) (length y)) as [Heq | Hne].
  - rewrite run_app_full by exact Heq.
    rewrite drop_app_ge by lia. rewrite Heq, drop_all.
    replace (length y + run isStamp rest - length y)%nat with (run isStamp rest) by lia.
    unfold unclosed in Hu.
    destruct (drop (run isStamp rest) rest) as [| c r].
    + destruct (16 <=? _)%nat, (16 <=? _)%nat; reflexivity.
    + destruct (16 <=? _)%nat, (16 <=? _)%nat; try reflexivity;
        bits c; try reflexivity; congruence.
  - rewrite run_app_short by lia.
    rewrite drop_app_le by lia.
    destruct (drop (run isStamp y) y) as [| c r] eqn:E.
    + apply (f_equal length) in E. rewrite length_drop in E. simpl in E. lia.
    + reflexivity.
Qed.

Lemma stampTail_token n body post :
  forallb isStamp body = true -> (16 <= length body)%nat ->
  stampTail n (body ++ 41 :: post) = Some (n + length body + 1)%nat.
Proof.
  intros Hb Hlen. unfold stampTail.
  rewrite run_app_stop by auto. rewrite drop_app_length.
  destruct (Nat.leb_spec 16 (length body)); [reflexivity | lia].
Qed.

Lemma date_local pre rest : freshStart rest -> unclosed rest -> local dateRegex pre rest.
Proof.
  intros Hf Hu x y -> Hy. rewrite !matchLen_date.
  destruct y as [| c0 [| c1 body]]; [congruence | ..].
  - destruct rest as [| c r]; [reflexivity |]. simpl in Hf |- *.
    destruct Hf as (? & ? & ? & ?).
    bits c0; try reflexivity. bits c; try reflexivity; congruence.
  - change ((c0 :: c1 :: body) ++ rest) with (c0 :: c1 :: (body ++ rest)).
    unfold dateLen.
    bits c0; try reflexivity. bits c1; try reflexivity. apply stampTail_app, Hu.
Qed.

Lemma time12_local pre rest : freshStart rest -> unclosed rest -> local time12Regex pre rest.
Proof.
  intros Hf Hu x y -> Hy. rewrite !matchLen_time12.
  destruct y as [| c0 [| c1 [| c2 [| c3 body]]]]; [congruence | ..].
  - destruct rest as [| c r]; [reflexivity |]. simpl in Hf |- *.
    destruct Hf as (? & ? & ? & ?).
    bits c0; try reflexivity. bits c; try reflexivity; congruence.
  - destruct rest as [| c r]; [simpl; bits c0; try reflexivity; bits c1; reflexivity |].
    simpl in Hf |- *. destruct Hf as (? & ? & ? & ?).
    bits c0; try reflexivity. bits c1; try reflexivity. bits c; try reflexivity; congruence.
  - destruct rest as [| c r];
      [simpl; bits c0; try reflexivity; bits c1; try reflexivity; bits c2; reflexivity |].
    simpl in Hf |- *. destruct Hf as (? & ? & ? & ?).
    bits c0; try reflexivity. bits c1; try reflexivity. bits c2; try reflexivity.
    bits c; try reflexivity; congruence.
  - change ((c0 :: c1 :: c2 :: c3 :: body) ++ rest) with (c0 :: c1 :: c2 :: c3 :: (body ++ rest)).
    unfold time12Len.
    bits c0; try reflexivity. bits c1; try reflexivity. bits c2; try reflexivity.
    bits c3; try reflexivity. apply stampTail_app, Hu.
Qed.

Lemma time24_local pre rest : freshStart rest -> unclosed rest -> local time24Regex pre rest.
Proof.
  intros Hf Hu x y -> Hy. rewrite !matchLen_time24.
  destruct y as [| c0 [| c1 [| c2 [| c3 body]]]]; [congruence | ..].
  - destruct rest as [| c r]; [reflexivity |]. simpl in Hf |- *.
    destruct Hf as (? & ? & ? & ?).
    bits c0; try reflexivity. bits c; try reflexivity; congruence.
  - destruct rest as [| c r]; [simpl; bits c0; try reflexivity; bits c1; reflexivity |].
    simpl in Hf |- *. destruct Hf as (? & ? & ? & ?).
    bits c0; try reflexivity. bits c1; try reflexivity. bits c; try reflexivity; congruence.
  - destruct rest as [| c r];
      [simpl; bits c0; try reflexivity; bits c1; try reflexivity; bits c2; reflexivity |].
    simpl in Hf |- *. destruct Hf as (? & ? & ? & ?).
    bits c0; try reflexivity. bits c1; try reflexivity. bits c2; try reflexivity.
    bits c; try reflexivity; congruence.
  - change ((c0 :: c1 :: c2 :: c3 :: body) ++ rest) with (c0 :: c1 :: c2 :: c3 :: (body ++ rest)).
    unfold time24Len.
    bits c0; try reflexivity. bits c1; try reflexivity. bits c2; try reflexivity.
    bits c3; try reflexivity. apply stampTail_app, Hu.
Qed.
(** ** The callbacks never panic *)

Lemma scan_pieces re : forall src k m,
  In (Match m) (scan re k src) ->
  exists s n, matchLen re s = Some (S n) /\ m = take (S n) s.
Proof.
  induction src as [| c src IH]; intros k m; simpl; [tauto |].
  destruct k as [| k]; [| apply IH].
  destruct (matchLen re (c :: src)) as [[| n] |] eqn:E; simpl.
  - intros [H | H]; [discriminate | eapply IH, H].
  - intros [H | H]; [| eapply IH, H].
    injection H as <-. exists (c :: src), n. auto.
  - intros [H | H]; [discriminate | eapply IH, H].
Qed.

Lemma replace_total re cb src :
  (forall s n, matchLen re s = Some (S n) -> is_Some (cb (take (S n) s))) ->
  is_Some (ReplaceAllStringFunc re src cb).
Proof.
  intros Hcb. unfold ReplaceAllStringFunc.
  assert (is_Some (mapM (render cb) (scan re 0 src))) as [l ->]; [| eexists; reflexivity].
  apply mapM_is_Some, Forall_forall. intros [c | m] Hin; simpl.
  - eexists; reflexivity.
  - apply list_elem_of_In, scan_pieces in Hin as (s & n & Hm & ->). apply Hcb, Hm.
Qed.

Lemma iata_callback_total st city airport s n :
  matchLen iataRegex s = Some n ->
  is_Some (airportCallback iataRegex st city airport (take n s)).
Proof.
  rewrite matchLen_iata, iataLen_tests. intros H.
  destruct s as [| c0 [| c1 [| c2 [| c3 r]]]]; try discriminate.
  destruct (N.eqb_spec c0 42) as [-> | E0].
  - destruct r as [| c4 r]; [discriminate |].
    destruct (N.eqb_spec c1 35) as [-> | E1]; [| discriminate]. simpl in H.
    destruct (isUpper c2) eqn:H2, (isUpper c3) eqn:H3, (isUpper c4) eqn:H4; try discriminate.
    injection H as <-. cbn [firstn].
    eexists. apply (proj2 (iata_callback st city airport c2 c3 c4 H2 H3 H4)).
  - destruct (N.eqb_spec c0 35) as [-> | E1]; [| discriminate]. simpl in H.
    destruct (isUpper c1) eqn:H1, (isUpper c2) eqn:H2, (isUpper c3) eqn:H3; try discriminate.
    injection H as <-. cbn [firstn].
    eexists. apply (proj1 (iata_callback st city airport c1 c2 c3 H1 H2 H3)).
Qed.

Lemma icao_callback_total st city airport s n :
  matchLen icaoRegex s = Some n ->
  is_Some (airportCallback icaoRegex st city airport (take n s)).
Proof.
  rewrite matchLen_icao, icaoLen_tests. intros H.
  destruct s as [| c0 [| c1 [| c2 [| c3 [| c4 [| c5 r]]]]]]; try discriminate.
  destruct (N.eqb_spec c0 42) as [-> | E0].
  - destruct r as [| c6 r]; [discriminate |].
    destruct (N.eqb_spec c1 35) as [-> | E1]; [| discriminate].
    destruct (N.eqb_spec c2 35) as [-> | E2]; [| discriminate]. simpl in H.
    destruct (isUpper c3) eqn:H3, (isUpper c4) eqn:H4, (isUpper c5) eqn:H5, (isUpper c6) eqn:H6;
      try discriminate.
    injection H as <-. cbn [firstn].
    eexists. apply (proj2 (icao_callback st city airport c3 c4 c5 c6 H3 H4 H5 H6)).
  - destruct (N.eqb_spec c0 35) as [-> | E1]; [| discriminate].
    destruct (N.eqb_spec c1 35) as [-> | E2]; [| discriminate]. simpl in H.
    destruct (isUpper c2) eqn:H2, (isUpper c3) eqn:H3, (isUpper c4) eqn:H4, (isUpper c5) eqn:H5;
      try discriminate.
    injection H as <-. cbn [firstn].
    eexists. apply (proj1 (icao_callback st city airport c2 c3 c4 c5 H2 H3 H4 H5)).
Qed.
Lemma stampTail_ge n body r : stampTail n body = Some r -> (n + 17 <= r)%nat.
Proof.
  unfold stampTail. destruct (Nat.leb_spec 16 (run isStamp body)); [| discriminate].
  destruct (drop _ body) as [| c t]; [discriminate |].
  bits c; try discriminate. intros [= <-]. lia.
Qed.

Lemma dateLen_ge s r : dateLen s = Some r -> (19 <= r)%nat.
Proof.
  destruct s as [| c0 [| c1 body]]; try discriminate; simpl.
  - bits c0; discriminate.
  - bits c0; try discriminate. bits c1; try discriminate. apply stampTail_ge.
Qed.

Lemma time12Len_ge s r : time12Len s = Some r -> (21 <= r)%nat.
Proof.
  destruct s as [| c0 [| c1 [| c2 [| c3 body]]]]; simpl;
    try discriminate; bits c0; try discriminate; bits c1; try discriminate;
    bits c2; try discriminate; bits c3; try discriminate. apply stampTail_ge.
Qed.

Lemma time24Len_ge s r : time24Len s = Some r -> (21 <= r)%nat.
Proof.
  destruct s as [| c0 [| c1 [| c2 [| c3 body]]]]; simpl;
    try discriminate; bits c0; try discriminate; bits c1; try discriminate;
    bits c2; try discriminate; bits c3; try discriminate. apply stampTail_ge.
Qed.

Lemma inner_is_Some lo m : (lo < length m)%nat -> is_Some (inner lo m).
Proof.
  unfold inner. destruct (length m) as [| hi]; [lia |]. intros H.
  destruct (Nat.leb_spec lo hi); [eexists; reflexivity | lia].
Qed.

Lemma dateCallback_total hl m : (2 < length m)%nat -> is_Some (dateCallback hl m).
Proof.
  intros H. unfold dateCallback. destruct (inner_is_Some 2 m H) as [d ->]. simpl.
  destruct (parseStamp d); [destruct hl |]; eexists; reflexivity.
Qed.

Lemma timeCallback_total hl layout m : (4 < length m)%nat -> is_Some (timeCallback hl layout m).
Proof.
  intros H. unfold timeCallback. destruct (inner_is_Some 4 m H) as [d ->]. simpl.
  destruct (parseStamp d); [destruct hl |]; eexists; reflexivity.
Qed.

Lemma airportCodes_total st city airport content :
  is_Some (content ← ReplaceAllStringFunc iataRegex content (airportCallback iataRegex st city airport);
           ReplaceAllStringFunc icaoRegex content (airportCallback icaoRegex st city airport)).
Proof.
  destruct (replace_total iataRegex (airportCallback iataRegex st city airport) content) as [c ->].
  { intros s n. apply iata_callback_total. }
  simpl. apply replace_total. intros s n. apply icao_callback_total.
Qed.

Lemma datesAndTimes_total hl content : is_Some (datesAndTimes hl content).
Proof.
  unfold datesAndTimes.
  destruct (replace_total dateRegex (dateCallback hl) content) as [c1 ->].
  { intros s n Hm. apply dateCallback_total.
    pose proof (matchLen_le _ _ _ Hm). rewrite matchLen_date in Hm. apply dateLen_ge in Hm.
    rewrite length_take. lia. }
  simpl.
  destruct (replace_total time12Regex (timeCallback hl layoutKitchen) c1) as [c2 ->].
  { intros s n Hm. apply timeCallback_total.
    pose proof (matchLen_le _ _ _ Hm). rewrite matchLen_time12 in Hm. apply time12Len_ge in Hm.
    rewrite length_take. lia. }
  simpl. apply replace_total.
  intros s n Hm. apply timeCallback_total.
  pose proof (matchLen_le _ _ _ Hm). rewrite matchLen_time24 in Hm. apply time24Len_ge in Hm.
  rewrite length_take. lia.
Qed.

Lemma plainProcessContent_total st content : is_Some (plainProcessContent st content).
Proof.
  unfold plainProcessContent, plainProcessAirportCodes.
  destruct (airportCodes_total st plainCity plainAirport content) as [c1 ->]. simpl.
  unfold plainProcessDatesAndTimes.
  destruct (datesAndTimes_total false c1) as [c2 ->]. eexists; reflexivity.
Qed.

Lemma highlightProcessContent_total st content : is_Some (highlightProcessContent st content).
Proof.
  unfold highlightProcessContent, processAirportCodes.
  destruct (airportCodes_total st highlightCity highlightAirport content) as [c1 ->]. simpl.
  unfold processDatesAndTimes.
  destruct (datesAndTimes_total true c1) as [c2 ->]. eexists; reflexivity.
Qed.
Lemma iata_local_star pre r : local iataRegex pre (42 :: r).
Proof.
  intros x y -> Hy. rewrite !matchLen_iata, !iataLen_tests.
  destruct y as [| c0 [| c1 [| c2 [| c3 [| c4 y]]]]]; [congruence | ..]; simpl; tests.
Qed.

Lemma icao_local_star pre r : local icaoRegex pre (42 :: r).
Proof.
  intros x y -> Hy. rewrite !matchLen_icao, !icaoLen_tests.
  destruct y as [| c0 [| c1 [| c2 [| c3 [| c4 [| c5 [| c6 y]]]]]]]; [congruence | ..];
    simpl; tests.
Qed.

Lemma iata_star_token_len a b c post :
  isUpper a = true -> isUpper b = true -> isUpper c = true ->
  matchLen iataRegex ([42; 35; a; b; c] ++ post) = Some 5%nat.
Proof. intros Ha Hb Hc. rewrite matchLen_iata. simpl. rewrite Ha, Hb, Hc. reflexivity. Qed.

Lemma icao_star_token_len a b c d post :
  isUpper a = true -> isUpper b = true -> isUpper c = true -> isUpper d = true ->
  matchLen icaoRegex ([42; 35; 35; a; b; c; d] ++ post) = Some 7%nat.
Proof. intros Ha Hb Hc Hd. rewrite matchLen_icao. simpl. rewrite Ha, Hb, Hc, Hd. reflexivity. Qed.

(** One token between two texts that are scanned on their own. *)
Lemma replace_token re cb pre tok post out :
  local re pre (tok ++ post) -> tok <> [] ->
  matchLen re (tok ++ post) = Some (length tok) -> cb tok = Some out ->
  ReplaceAllStringFunc re (pre ++ tok ++ post) cb =
  x ← ReplaceAllStringFunc re pre cb; y ← ReplaceAllStringFunc re post cb; Some (x ++ out ++ y).
Proof.
  intros Hloc Hne Hm Hcb. rewrite replace_app by exact Hloc.
  rewrite replace_match by auto. rewrite Hcb.
  destruct (ReplaceAllStringFunc re pre cb); simpl; [| reflexivity].
  destruct (ReplaceAllStringFunc re post cb); reflexivity.
Qed.

Lemma resolve_miss st rendering code tok :
  lookupAirport st code = None -> resolve st rendering code tok = tok.
Proof. unfold resolve. intros ->. reflexivity. Qed.

Lemma date_token_len body post :
  forallb isStamp body = true -> (16 <= length body)%nat ->
  matchLen dateRegex ((str "D(" ++ body ++ str ")") ++ post)
  = Some (length (str "D(" ++ body ++ str ")")).
Proof.
  intros Hb Hl. rewrite matchLen_date. simpl. rewrite <- app_assoc. simpl.
  rewrite stampTail_token by auto. rewrite length_app. simpl. f_equal; lia.
Qed.

Lemma time12_token_len body post :
  forallb isStamp body = true -> (16 <= length body)%nat ->
  matchLen time12Regex ((str "T12(" ++ body ++ str ")") ++ post)
  = Some (length (str "T12(" ++ body ++ str ")")).
Proof.
  intros Hb Hl. rewrite matchLen_time12. simpl. rewrite <- app_assoc. simpl.
  rewrite stampTail_token by auto. rewrite length_app. simpl. f_equal; lia.
Qed.

Lemma time24_token_len body post :
  forallb isStamp body = true -> (16 <= length body)%nat ->
  matchLen time24Regex ((str "T24(" ++ body ++ str ")") ++ post)
  = Some (length (str "T24(" ++ body ++ str ")")).
Proof.
  intros Hb Hl. rewrite matchLen_time24. simpl. rewrite <- app_assoc. simpl.
  rewrite stampTail_token by auto. rewrite length_app. simpl. f_equal; lia.
Qed.

Lemma inner_app pre body c : inner (length pre) (pre ++ body ++ [c]) = Some body.
Proof.
  unfold inner. rewrite !length_app. cbn [length].
  replace (length pre + (length body + 1))%nat with (S (length pre + length body)) by lia.
  destruct (Nat.leb_spec (length pre) (length pre + length body)); [| lia].
  rewrite drop_app_length.
  replace (length pre + length body - length pre)%nat with (length body) by lia.
  rewrite take_app_length. reflexivity.
Qed.
Lemma token_fresh c r : c = 68 \/ c = 84 -> freshStart (c :: r).
Proof. intros [-> | ->]; repeat split; discriminate. Qed.

Lemma date_token_unclosed r : unclosed (68 :: r).
Proof. unfold unclosed. simpl. discriminate. Qed.

Lemma time_token_unclosed d1 d2 r : isDigit d1 = true -> isDigit d2 = true -> unclosed (84 :: d1 :: d2 :: 40 :: r).
Proof.
  intros H1 H2. unfold unclosed. simpl. unfold isStamp. rewrite H1, H2. simpl. discriminate.
Qed.

Lemma dateCallback_miss hl body :
  parseStamp body = None ->
  dateCallback hl (str "D(" ++ body ++ str ")") = Some (str "D(" ++ body ++ str ")").
Proof.
  intros Hp. unfold dateCallback.
  pose proof (inner_app (str "D(") body 41) as Hi.
  change (length (str "D(")) with 2%nat in Hi. change (str ")") with [41].
  rewrite Hi. simpl. rewrite Hp. reflexivity.
Qed.

Lemma timeCallback_miss hl layout d1 d2 body :
  parseStamp body = None ->
  timeCallback hl layout ([84; d1; d2; 40] ++ body ++ str ")") = Some ([84; d1; d2; 40] ++ body ++ str ")").
Proof.
  intros Hp. unfold timeCallback.
  pose proof (inner_app [84; d1; d2; 40] body 41) as Hi.
  change (length [84; d1; d2; 40]) with 4%nat in Hi. change (str ")") with [41].
  rewrite Hi. simpl. rewrite Hp. reflexivity.
Qed.

(** Every pass on its own keeps a token that does not resolve.  For
    every state, both renderings and every surrounding text: an IATA or
    ICAO token (with or without [*]) whose code is not in the directory,
    and a date, 12-hour or 24-hour token whose inner text parses under
    neither layout, is replaced by itself by its pass; and
    [plainProcessContent] and [highlightProcessContent] return a text on
    every input (no callback panics). *)
Lemma every_pass_keeps_unresolved_token :
  (forall st city airport pre post a b c d,
      isUpper a = true -> isUpper b = true -> isUpper c = true -> isUpper d = true ->
      (lookupAirport st [a; b; c] = None ->
         (last pre <> Some 42 ->
          ReplaceAllStringFunc iataRegex (pre ++ [35; a; b; c] ++ post)
            (airportCallback iataRegex st city airport)
          = x ← ReplaceAllStringFunc iataRegex pre (airportCallback iataRegex st city airport);
            y ← ReplaceAllStringFunc iataRegex post (airportCallback iataRegex st city airport);
            Some (x ++ [35; a; b; c] ++ y))
         /\ ReplaceAllStringFunc iataRegex (pre ++ [42; 35; a; b; c] ++ post)
              (airportCallback iataRegex st city airport)
            = x ← ReplaceAllStringFunc iataRegex pre (airportCallback iataRegex st city airport);
              y ← ReplaceAllStringFunc iataRegex post (airportCallback iataRegex st city airport);
              Some (x ++ [42; 35; a; b; c] ++ y))
      /\ (lookupAirport st [a; b; c; d] = None ->
         (last pre <> Some 42 ->
          ReplaceAllStringFunc icaoRegex (pre ++ [35; 35; a; b; c; d] ++ post)
            (airportCallback icaoRegex st city airport)
          = x ← ReplaceAllStringFunc icaoRegex pre (airportCallback icaoRegex st city airport);
            y ← ReplaceAllStringFunc icaoRegex post (airportCallback icaoRegex st city airport);
            Some (x ++ [35; 35; a; b; c; d] ++ y))
         /\ ReplaceAllStringFunc icaoRegex (pre ++ [42; 35; 35; a; b; c; d] ++ post)
              (airportCallback icaoRegex st city airport)
            = x ← ReplaceAllStringFunc icaoRegex pre (airportCallback icaoRegex st city airport);
              y ← ReplaceAllStringFunc icaoRegex post (airportCallback icaoRegex st city airport);
              Some (x ++ [42; 35; 35; a; b; c; d] ++ y)))
  /\ (forall hl pre post body,
        forallb isStamp body = true -> (16 <= length body)%nat -> parseStamp body = None ->
        ReplaceAllStringFunc dateRegex (pre ++ (str "D(" ++ body ++ str ")") ++ post) (dateCallback hl)
        = (x ← ReplaceAllStringFunc dateRegex pre (dateCallback hl);
           y ← ReplaceAllStringFunc dateRegex post (dateCallback hl);
           Some (x ++ (str "D(" ++ body ++ str ")") ++ y))
        /\ ReplaceAllStringFunc time12Regex (pre ++ (str "T12(" ++ body ++ str ")") ++ post)
             (timeCallback hl layoutKitchen)
           = (x ← ReplaceAllStringFunc time12Regex pre (timeCallback hl layoutKitchen);
              y ← ReplaceAllStringFunc time12Regex post (timeCallback hl layoutKitchen);
              Some (x ++ (str "T12(" ++ body ++ str ")") ++ y))
        /\ ReplaceAllStringFunc time24Regex (pre ++ (str "T24(" ++ body ++ str ")") ++ post)
             (timeCallback hl layoutClock)
           = (x ← ReplaceAllStringFunc time24Regex pre (timeCallback hl layoutClock);
              y ← ReplaceAllStringFunc time24Regex post (timeCallback hl layoutClock);
              Some (x ++ (str "T24(" ++ body ++ str ")") ++ y)))
  /\ (forall st content,
        is_Some (plainProcessContent st content) /\ is_Some (highlightProcessContent st content)).
Proof.
  split; [| split].
  - intros st city airport pre post a b c d Ha Hb Hc Hd. split; intros Hmiss; split.
    + intros Hpre. apply replace_token.
      * apply iata_local, Hpre.
      * discriminate.
      * apply iata_token_len; auto.
      * rewrite (proj1 (iata_callback st city airport a b c Ha Hb Hc)).
        rewrite resolve_miss by exact Hmiss. reflexivity.
    + apply replace_token.
      * apply iata_local_star.
      * discriminate.
      * apply iata_star_token_len; auto.
      * rewrite (proj2 (iata_callback st city airport a b c Ha Hb Hc)).
        rewrite resolve_miss by exact Hmiss. reflexivity.
    + intros Hpre. apply replace_token.
      * apply icao_local, Hpre.
      * discriminate.
      * apply icao_token_len; auto.
      * rewrite (proj1 (icao_callback st city airport a b c d Ha Hb Hc Hd)).
        rewrite resolve_miss by exact Hmiss. reflexivity.
    + apply replace_token.
      * apply icao_local_star.
      * discriminate.
      * apply icao_star_token_len; auto.
      * rewrite (proj2 (icao_callback st city airport a b c d Ha Hb Hc Hd)).
        rewrite resolve_miss by exact Hmiss. reflexivity.
  - intros hl pre post body Hb Hl Hp. split; [| split].
    + apply replace_token.
      * apply date_local; [apply token_fresh; auto | apply date_token_unclosed].
      * discriminate.
      * apply date_token_len; auto.
      * apply dateCallback_miss, Hp.
    + apply replace_token.
      * apply time12_local; [apply token_fresh; auto | apply time_token_unclosed; reflexivity].
      * discriminate.
      * apply time12_token_len; auto.
      * apply (timeCallback_miss hl layoutKitchen 49 50), Hp.
    + apply replace_token.
      * apply time24_local; [apply token_fresh; auto | apply time_token_unclosed; reflexivity].
      * discriminate.
      * apply time24_token_len; auto.
      * apply (timeCallback_miss hl layoutClock 50 52), Hp.
  - intros st content. split.
    + apply plainProcessContent_total.
    + apply highlightProcessContent_total.
Qed.
(** ** Timestamps *)

Lemma parseItem_zone it p value p' value' :
  parseItem it p value = Some (p', value') -> it <> PNumColonTZ ->
  zoneOffset p' = zoneOffset p.
Proof.
  destruct it; simpl; intros H Hne; try congruence.
  - destruct value as [| a [| b [| c [| d v]]]]; try discriminate.
    destruct (_ && _); [| discriminate]. injection H as <- _. reflexivity.
  - destruct (getnum value true) as [[m v] |]; [| discriminate]. simpl in H.
    destruct (_ || _); [discriminate |]. injection H as <- _. reflexivity.
  - destruct (getnum value true) as [[m v] |]; [| discriminate]. simpl in H.
    injection H as <- _. reflexivity.
  - destruct (getnum value false) as [[m v] |]; [| discriminate]. simpl in H.
    destruct (24 <=? m); [discriminate |]. injection H as <- _. reflexivity.
  - destruct (getnum value true) as [[m v] |]; [| discriminate]. simpl in H.
    destruct (60 <=? m); [discriminate |]. injection H as <- _. reflexivity.
  - destruct value as [| v value]; [discriminate |].
    destruct (v =? c); [| discriminate]. injection H as <- _. reflexivity.
Qed.

Lemma parseItems_zone layout : Forall (fun it => it <> PNumColonTZ) layout ->
  forall p value p', parseItems layout p value = Some p' -> zoneOffset p' = zoneOffset p.
Proof.
  induction 1 as [| it layout Hit _ IH]; intros p value p'; simpl.
  - destruct (isEmpty value); [| discriminate]. intros [= <-]. reflexivity.
  - destruct (parseItem it p value) as [[p1 v1] |] eqn:E; [| discriminate]. simpl.
    intros H. rewrite (IH _ _ _ H). eapply parseItem_zone; eauto.
Qed.

Lemma Parse_UTC_offset value t : Parse layoutUTC value = Some t -> tOffset t = 0%Z.
Proof.
  unfold Parse. destruct (parseItems layoutUTC _ value) as [p |] eqn:E; [| discriminate]. simpl.
  destruct (_ || _); [discriminate |]. intros [= <-]. simpl.
  erewrite parseItems_zone; [| | exact E]; [reflexivity |].
  unfold layoutUTC. repeat constructor; discriminate.
Qed.

Lemma zoneText_UTC t : tOffset t = 0%Z -> zoneText t = str "(+00:00)".
Proof. destruct t; simpl. intros ->. reflexivity. Qed.

Lemma parseStamp_UTC value t : Parse layoutUTC value = Some t -> parseStamp value = Some t.
Proof. unfold parseStamp. intros ->. reflexivity. Qed.

Lemma timeCallback_hit hl layout d1 d2 value t :
  parseStamp value = Some t ->
  timeCallback hl layout ([84; d1; d2; 40] ++ value ++ str ")")
  = Some (if hl then ColorCyan ++ Format t layout ++ ColorReset ++ str " "
                       ++ ColorYellow ++ zoneText t ++ ColorReset
          else Format t layout ++ str " " ++ zoneText t).
Proof.
  intros Hp. unfold timeCallback.
  pose proof (inner_app [84; d1; d2; 40] value 41) as Hi.
  change (length [84; d1; d2; 40]) with 4%nat in Hi. change (str ")") with [41].
  rewrite Hi. simpl. rewrite Hp. destruct hl; reflexivity.
Qed.

(** C9: a T12 or T24 token whose inner text parses under the UTC layout
    is rendered with the zone [(+00:00)], in both modes and in any
    context; the plain transform of ["T24(2025-03-16T06:30Z)"] is
    ["06:30 (+00:00)"]. *)
Theorem utc_zone_rendered_as_zero_offset :
  (forall value t pre post,
      Parse layoutUTC value = Some t ->
      forallb isStamp value = true -> (16 <= length value)%nat ->
      zoneText t = str "(+00:00)"
      /\ ReplaceAllStringFunc time12Regex (pre ++ (str "T12(" ++ value ++ str ")") ++ post)
           (timeCallback false layoutKitchen)
         = (x ← ReplaceAllStringFunc time12Regex pre (timeCallback false layoutKitchen);
            y ← ReplaceAllStringFunc time12Regex post (timeCallback false layoutKitchen);
            Some (x ++ (Format t layoutKitchen ++ str " (+00:00)") ++ y))
      /\ ReplaceAllStringFunc time24Regex (pre ++ (str "T24(" ++ value ++ str ")") ++ post)
           (timeCallback false layoutClock)
         = (x ← ReplaceAllStringFunc time24Regex pre (timeCallback false layoutClock);
            y ← ReplaceAllStringFunc time24Regex post (timeCallback false layoutClock);
            Some (x ++ (Format t layoutClock ++ str " (+00:00)") ++ y))
      /\ timeCallback true layoutKitchen (str "T12(" ++ value ++ str ")")
         = Some (ColorCyan ++ Format t layoutKitchen ++ ColorReset ++ str " "
                   ++ ColorYellow ++ str "(+00:00)" ++ ColorReset)
      /\ timeCallback true layoutClock (str "T24(" ++ value ++ str ")")
         = Some (ColorCyan ++ Format t layoutClock ++ ColorReset ++ str " "
                   ++ ColorYellow ++ str "(+00:00)" ++ ColorReset))
  /\ (forall st, plainProcessContent st (str "T24(2025-03-16T06:30Z)") = Some (str "06:30 (+00:00)")).
Proof.
  split.
  - intros value t pre post Hp Hs Hl.
    pose proof (zoneText_UTC t (Parse_UTC_offset _ _ Hp)) as Hz.
    pose proof (parseStamp_UTC _ _ Hp) as Hps.
    split; [exact Hz |]. split; [| split; [| split]].
    + apply replace_token.
      * apply time12_local; [apply token_fresh; auto | apply time_token_unclosed; reflexivity].
      * discriminate.
      * apply time12_token_len; auto.
      * change (str " (+00:00)") with (str " " ++ str "(+00:00)").
        rewrite <- Hz. apply (timeCallback_hit false layoutKitchen 49 50), Hps.
    + apply replace_token.
      * apply time24_local; [apply token_fresh; auto | apply time_token_unclosed; reflexivity].
      * discriminate.
      * apply time24_token_len; auto.
      * change (str " (+00:00)") with (str " " ++ str "(+00:00)").
        rewrite <- Hz. apply (timeCallback_hit false layoutClock 50 52), Hps.
    + rewrite <- Hz. apply (timeCallback_hit true layoutKitchen 49 50), Hps.
    + rewrite <- Hz. apply (timeCallback_hit true layoutClock 50 52), Hps.
  - intros st. vm_compute. reflexivity.
Qed.

Lemma utc_zone_rendered_as_zero_offset_witness :
  zoneText (mkTime 2025 3 16 6 30 0) = str "(+00:00)"
  /\ timeCallback true layoutClock (str "T24(" ++ str "2025-03-16T06:30Z" ++ str ")")
     = Some (ColorCyan ++ Format (mkTime 2025 3 16 6 30 0) layoutClock ++ ColorReset ++ str " "
               ++ ColorYellow ++ str "(+00:00)" ++ ColorReset).
Proof.
  assert (16 <= length (str "2025-03-16T06:30Z"))%nat as Hl by (vm_compute; lia).
  pose proof (proj1 utc_zone_rendered_as_zero_offset (str "2025-03-16T06:30Z")
                (mkTime 2025 3 16 6 30 0) [] [] eq_refl eq_refl Hl) as H.
  split; [apply H | apply H].
Defined.
(** ** The vertical collapse *)

Lemma backtrack_first f lo k l :
  f k = Some l -> backtrack f lo k = if (k <? lo)%nat then None else Some (k :: l).
Proof. intros H. rewrite backtrack_eq, H. reflexivity. Qed.

Lemma matchLen_atLeast p n cap s : matchLen [Atom p n None cap] s = runLen p n s.
Proof.
  unfold matchLen, runLen. cbn [matchAtoms amax amin cls].
  rewrite (backtrack_first _ _ _ []) by reflexivity.
  destruct (Nat.ltb_spec (run p s) n), (Nat.leb_spec n (run p s)); try lia; [reflexivity |].
  simpl. f_equal. lia.
Qed.

Lemma matchLen_escape s : matchLen escapeRegex s = escapeLen s.
Proof.
  unfold matchLen, escapeRegex, lit, rep. rewrite matchAtoms_lit.
  destruct s as [| c s]; [reflexivity |]. unfold isRune.
  destruct (N.eqb_spec c 92) as [-> | E].
  - rewrite matchAtoms_rep. destruct s as [| d s]; [reflexivity |]. simpl.
    destruct (isRVFLetter d); reflexivity.
  - simpl. bits c; try reflexivity; congruence.
Qed.

Lemma replaceAll_nil re tpl : ReplaceAllString re [] tpl = [].
Proof. reflexivity. Qed.

Lemma replaceAll_cons re tpl c rest :
  ReplaceAllString re (c :: rest) tpl =
  match matchLen re (c :: rest) with
  | Some (S n) => tpl ++ ReplaceAllString re (drop n rest) tpl
  | _ => c :: ReplaceAllString re rest tpl
  end.
Proof.
  unfold ReplaceAllString. simpl.
  destruct (matchLen re (c :: rest)) as [[| n] |]; try reflexivity.
  simpl. rewrite scan_skip. reflexivity.
Qed.

(** Induction on the length of a text. *)
Lemma text_length_ind (P : text -> Prop) :
  (forall s, (forall t, (length t < length s)%nat -> P t) -> P s) -> forall s, P s.
Proof.
  intros H s. remember (length s) as n eqn:E. revert s E.
  induction n as [n IH] using lt_wf_ind. intros s ->. apply H.
  intros t Ht. eapply IH; eauto.
Qed.

Lemma escape_step s : ReplaceAllString escapeRegex s [NL] = unescape s.
Proof.
  induction s as [s IH] using text_length_ind.
  destruct s as [| c rest]; [reflexivity |].
  rewrite replaceAll_cons, matchLen_escape.
  destruct rest as [| d r].
  - simpl. bits c; reflexivity.
  - destruct (N.eqb_spec c 92) as [-> | E].
    + simpl. destruct (isRVFLetter d).
      * simpl. rewrite drop_0, IH by (simpl; lia). reflexivity.
      * rewrite IH by (simpl; lia). reflexivity.
    + cbn [unescape]. rewrite (proj2 (N.eqb_neq c 92) E). cbn [andb].
      rewrite IH by (simpl; lia). unfold escapeLen.
      bits c; try reflexivity; congruence.
Qed.
Lemma controlRuns_cons c r :
  controlRuns (c :: r) =
  if isRVFControl c then
    match r with
    | d :: _ => if isRVFControl d then controlRuns r else NL :: controlRuns r
    | [] => [NL]
    end
  else c :: controlRuns r.
Proof. reflexivity. Qed.

Lemma collapseNewlines_cons c r :
  collapseNewlines (c :: r) =
  match r with
  | d :: e :: _ =>
      if (c =? NL) && (d =? NL) && (e =? NL) then collapseNewlines r
      else c :: collapseNewlines r
  | _ => c :: collapseNewlines r
  end.
Proof. reflexivity. Qed.

Lemma controlRuns_run c rest :
  isRVFControl c = true ->
  controlRuns (c :: rest) = NL :: controlRuns (drop (run isRVFControl rest) rest).
Proof.
  revert c. induction rest as [| d r IH]; intros c Hc; rewrite controlRuns_cons, Hc.
  - reflexivity.
  - cbn [run]. destruct (isRVFControl d) eqn:Hd.
    + rewrite IH by exact Hd. reflexivity.
    + reflexivity.
Qed.

Lemma control_step s : ReplaceAllString controlRegex s [NL] = controlRuns s.
Proof.
  induction s as [s IH] using text_length_ind.
  destruct s as [| c rest]; [reflexivity |].
  unfold controlRegex, atLeast. rewrite replaceAll_cons, matchLen_atLeast.
  unfold runLen. cbn [run]. destruct (isRVFControl c) eqn:Hc.
  - cbn [Nat.leb]. fold (atLeast isRVFControl 1). fold controlRegex.
    rewrite IH by (rewrite length_drop; simpl; lia).
    rewrite controlRuns_run by exact Hc. reflexivity.
  - cbn [Nat.leb]. fold (atLeast isRVFControl 1). fold controlRegex.
    rewrite IH by (simpl; lia). rewrite controlRuns_cons, Hc. reflexivity.
Qed.

Lemma run_newline_two s :
  (2 <= run (isRune NL) s)%nat -> exists r, s = NL :: NL :: r.
Proof.
  destruct s as [| d [| e r]]; simpl; try lia.
  - unfold isRune. destruct (N.eqb_spec d NL); simpl; lia.
  - unfold isRune. destruct (N.eqb_spec d NL) as [-> |]; [| simpl; lia].
    destruct (N.eqb_spec e NL) as [-> |]; [| simpl; lia]. intros _. exists r. reflexivity.
Qed.

Lemma collapse_run rest :
  (2 <= run (isRune NL) rest)%nat ->
  collapseNewlines (NL :: rest) = NL :: NL :: collapseNewlines (drop (run (isRune NL) rest) rest).
Proof.
  induction rest as [| d r IH]; intros H.
  - simpl in H. lia.
  - destruct (run_newline_two _ H) as (r' & E). injection E as -> ->.
    change (collapseNewlines (NL :: NL :: NL :: r')) with (collapseNewlines (NL :: NL :: r')).
    change (run (isRune NL) (NL :: NL :: r')) with (S (run (isRune NL) (NL :: r'))).
    change (drop (S (run (isRune NL) (NL :: r'))) (NL :: NL :: r'))
      with (drop (run (isRune NL) (NL :: r')) (NL :: r')).
    destruct (Nat.le_gt_cases 2 (run (isRune NL) (NL :: r'))) as [H2 | H2].
    + apply IH, H2.
    + change (run (isRune NL) (NL :: r')) with (S (run (isRune NL) r')) in *.
      assert (run (isRune NL) r' = 0)%nat as Hr by lia. rewrite Hr.
      change (drop 1 (NL :: r')) with (drop 0 r'). rewrite drop_0.
      destruct r' as [| e r'']; [reflexivity |].
      cbn [run] in Hr. unfold isRune in Hr.
      destruct (N.eqb_spec e NL) as [-> | E]; [discriminate |].
      rewrite (collapseNewlines_cons NL (NL :: e :: r'')).
      rewrite (proj2 (N.eqb_neq e NL) E), Bool.andb_false_r.
      rewrite (collapseNewlines_cons NL (e :: r'')).
      rewrite (proj2 (N.eqb_neq e NL) E), Bool.andb_false_r. cbn [andb].
      destruct r'' as [| f r3]; reflexivity.
Qed.
Lemma newline_step s : ReplaceAllString newlinesRegex s [NL; NL] = collapseNewlines s.
Proof.
  induction s as [s IH] using text_length_ind.
  destruct s as [| c rest]; [reflexivity |].
  unfold newlinesRegex, atLeast. rewrite replaceAll_cons, matchLen_atLeast.
  fold (atLeast (isRune NL) 3). fold newlinesRegex.
  unfold runLen. cbn [run]. unfold isRune at 1 3.
  destruct (N.eqb_spec c NL) as [-> | E].
  - destruct (Nat.leb_spec 3 (S (run (isRune NL) rest))) as [H3 | H3].
    + rewrite IH by (rewrite length_drop; simpl; lia).
      rewrite collapse_run by lia. reflexivity.
    + rewrite IH by (simpl; lia). rewrite collapseNewlines_cons.
      destruct rest as [| d [| e r]]; try reflexivity.
      destruct (N.eqb_spec d NL) as [-> | Ed]; [| reflexivity].
      destruct (N.eqb_spec e NL) as [-> | Ee]; [| reflexivity].
      simpl in H3. lia.
  - cbn [Nat.leb]. rewrite IH by (simpl; lia). rewrite collapseNewlines_cons.
    rewrite (proj2 (N.eqb_neq c NL) E). destruct rest as [| d [| e r]]; reflexivity.
Qed.

(** The code computes the three steps in order. *)
Lemma trimVertical_steps s :
  trimVerticalWhitespace s = collapseNewlines (controlRuns (unescape s)).
Proof.
  unfold trimVerticalWhitespace. rewrite escape_step, control_step, newline_step. reflexivity.
Qed.

Lemma tripleNewline_cons c r :
  tripleNewline (c :: r) =
  match r with
  | d :: e :: _ => (c =? NL) && (d =? NL) && (e =? NL)
  | _ => false
  end || tripleNewline r.
Proof. reflexivity. Qed.

Lemma collapse_first : forall r c t,
  collapseNewlines r = c :: t -> exists r', r = c :: r'.
Proof.
  induction r as [| d r1 IH]; intros c t; [discriminate |].
  rewrite collapseNewlines_cons.
  destruct r1 as [| e [| f r3]]; try (intros [= <- _]; eexists; reflexivity).
  destruct ((d =? NL) && (e =? NL) && (f =? NL)) eqn:T.
  - apply andb_prop in T as [T Tf]. apply andb_prop in T as [Td Te].
    apply N.eqb_eq in Td, Te, Tf. subst. intros H.
    destruct (IH _ _ H) as (r' & E). injection E as <- _. eexists; reflexivity.
  - intros [= <- _]. eexists; reflexivity.
Qed.

Lemma collapse_second : forall r t,
  collapseNewlines r = NL :: NL :: t -> exists r', r = NL :: NL :: r'.
Proof.
  intros [| d r1] t; [discriminate |].
  rewrite collapseNewlines_cons.
  assert (d :: collapseNewlines r1 = NL :: NL :: t -> exists r', d :: r1 = NL :: NL :: r') as Hk.
  { intros [= -> H]. destruct (collapse_first _ _ _ H) as (r' & ->). eexists; reflexivity. }
  destruct r1 as [| e [| f r3]]; try exact Hk.
  destruct ((d =? NL) && (e =? NL) && (f =? NL)) eqn:T; [| exact Hk].
  apply andb_prop in T as [T Tf]. apply andb_prop in T as [Td Te].
  apply N.eqb_eq in Td, Te. subst. intros _. eexists; reflexivity.
Qed.

Lemma collapse_no_triple s : tripleNewline (collapseNewlines s) = false.
Proof.
  induction s as [| c r IH]; [reflexivity |].
  assert (tripleNewline (c :: collapseNewlines r) = false
          \/ exists r', c = NL /\ r = NL :: NL :: r') as Hk.
  { rewrite tripleNewline_cons, IH, Bool.orb_false_r.
    destruct (collapseNewlines r) as [| d [| e t]] eqn:E; auto.
    destruct ((c =? NL) && (d =? NL) && (e =? NL)) eqn:T; auto.
    apply andb_prop in T as [T Te]. apply andb_prop in T as [Tc Td].
    apply N.eqb_eq in Tc, Td, Te. subst.
    destruct (collapse_second _ _ E) as (r' & ->). right. eauto. }
  rewrite collapseNewlines_cons.
  destruct Hk as [Hk | (r' & -> & ->)].
  - destruct r as [| d [| e r3]]; try exact Hk.
    destruct ((c =? NL) && (d =? NL) && (e =? NL)); [exact IH | exact Hk].
  - exact IH.
Qed.
Lemma unescape_cons c r :
  unescape (c :: r) =
  match r with
  | d :: r' => if (c =? 92) && isRVFLetter d then NL :: unescape r' else c :: unescape r
  | [] => [c]
  end.
Proof. reflexivity. Qed.

Lemma unescape_no_backslash s :
  forallb (fun c => negb (c =? 92)) s = true -> unescape s = s.
Proof.
  induction s as [| c r IH]; [reflexivity |]. cbn [forallb].
  intros H. apply andb_prop in H as [Hc Hr]. rewrite unescape_cons.
  destruct r as [| d r']; [reflexivity |].
  apply Bool.negb_true_iff in Hc. rewrite Hc. cbn [andb]. rewrite IH by exact Hr. reflexivity.
Qed.

Lemma controlRuns_no_control s :
  forallb (fun c => negb (isRVFControl c)) s = true -> controlRuns s = s.
Proof.
  induction s as [| c r IH]; [reflexivity |]. cbn [forallb].
  intros H. apply andb_prop in H as [Hc Hr]. rewrite controlRuns_cons.
  apply Bool.negb_true_iff in Hc. rewrite Hc, IH by exact Hr. reflexivity.
Qed.

Lemma collapse_no_newline_app p t :
  forallb (fun c => negb (c =? NL)) p = true ->
  collapseNewlines (p ++ t) = p ++ collapseNewlines t.
Proof.
  induction p as [| c r IH]; [reflexivity |]. cbn [forallb].
  intros H. apply andb_prop in H as [Hc Hr].
  change ((c :: r) ++ t) with (c :: (r ++ t)). rewrite collapseNewlines_cons.
  apply Bool.negb_true_iff in Hc. rewrite Hc. cbn [andb].
  rewrite IH by exact Hr. destruct (r ++ t) as [| d [| e u]]; reflexivity.
Qed.

Lemma collapse_no_newline p :
  forallb (fun c => negb (c =? NL)) p = true -> collapseNewlines p = p.
Proof.
  intros H. rewrite <- (app_nil_r p) at 1. rewrite collapse_no_newline_app by exact H.
  simpl. apply app_nil_r.
Qed.

Lemma run_replicate_app p n c t :
  p c = true -> run p (replicate n c ++ t) = (n + run p t)%nat.
Proof. intros H. induction n as [| n IH]; simpl; [reflexivity |]. rewrite H, IH. reflexivity. Qed.

Lemma run_head_false p t :
  match t with c :: _ => p c = false | [] => True end -> run p t = 0%nat.
Proof. destruct t as [| c t]; simpl; [reflexivity |]. intros ->. reflexivity. Qed.

(** A run of three or more newlines before a text that does not start
    with a newline is collapsed to two. *)
Lemma collapse_newline_run n t :
  match t with c :: _ => isRune NL c = false | [] => True end ->
  collapseNewlines (replicate (3 + n) NL ++ t) = NL :: NL :: collapseNewlines t.
Proof.
  intros Ht. change (replicate (3 + n) NL ++ t) with (NL :: (replicate (2 + n) NL ++ t)).
  pose proof (run_replicate_app (isRune NL) (2 + n) NL t eq_refl) as Hr.
  rewrite (run_head_false _ _ Ht) in Hr.
  rewrite collapse_run by lia. rewrite Hr.
  replace (2 + n + 0)%nat with (length (replicate (2 + n) NL)) by (rewrite length_replicate; lia).
  rewrite drop_app_length. reflexivity.
Qed.

Lemma forallb_weaken {A} (p q : A -> bool) l :
  (forall x, p x = true -> q x = true) -> forallb p l = true -> forallb q l = true.
Proof.
  intros Hpq. induction l as [| x l IH]; simpl; [reflexivity |].
  intros H. apply andb_prop in H as [Hx Hl]. rewrite (Hpq _ Hx), IH by exact Hl. reflexivity.
Qed.

Lemma plainRune_parts c :
  plainRune c = true ->
  negb (c =? NL) = true /\ negb (isRVFControl c) = true /\ negb (c =? 92) = true.
Proof.
  unfold plainRune. intros H. apply andb_prop in H as [H H3]. apply andb_prop in H as [H1 H2].
  auto.
Qed.

Lemma forallb_app_true {A} (p : A -> bool) l1 l2 :
  forallb p l1 = true -> forallb p l2 = true -> forallb p (l1 ++ l2) = true.
Proof. intros H1 H2. rewrite forallb_app, H1, H2. reflexivity. Qed.

Lemma forallb_replicate_true {A} (p : A -> bool) n x :
  p x = true -> forallb p (replicate n x) = true.
Proof. intros H. induction n as [| n IH]; simpl; [reflexivity |]. rewrite H, IH. reflexivity. Qed.

(** C4: the vertical collapse does what is specified, on every input.
    [trimVerticalWhitespace] computes, in this order: every backslash
    followed by [r], [v] or [f] replaced by a newline; every run of
    carriage-return, vertical-tab and form-feed runes replaced by one
    newline; every run of three or more newlines cut to two.  Its output
    never holds three newlines in a row, so at most one blank line
    separates two paragraphs: three or more newlines between two texts
    without newlines, control runes or backslashes become exactly two,
    and four blank lines between two paragraphs become one through
    [plainProcessContent]. *)
Theorem vertical_collapse_as_specified :
  (forall s, trimVerticalWhitespace s = collapseNewlines (controlRuns (unescape s)))
  /\ (forall s, tripleNewline (trimVerticalWhitespace s) = false)
  /\ (forall p1 p2 n,
        forallb plainRune p1 = true -> forallb plainRune p2 = true ->
        trimVerticalWhitespace (p1 ++ replicate (3 + n) NL ++ p2) = p1 ++ [NL; NL] ++ p2)
  /\ (forall st,
        plainProcessContent st (str "First paragraph." ++ [NL; NL; NL; NL; NL] ++ str "Second paragraph.")
        = Some (str "First paragraph." ++ [NL; NL] ++ str "Second paragraph.")).
Proof.
  split; [exact trimVertical_steps |]. split; [| split].
  - intros s. rewrite trimVertical_steps. apply collapse_no_triple.
  - intros p1 p2 n H1 H2. rewrite trimVertical_steps.
    assert (forall q, forallb plainRune p1 = true -> forallb plainRune p2 = true ->
                      (forall c, plainRune c = true -> q c = true) -> q NL = true ->
                      forallb q (p1 ++ replicate (3 + n) NL ++ p2) = true) as Hall.
    { intros q Hp1 Hp2 Hq Hnl. apply forallb_app_true; [| apply forallb_app_true].
      - eapply forallb_weaken; eauto.
      - apply forallb_replicate_true, Hnl.
      - eapply forallb_weaken; eauto. }
    rewrite unescape_no_backslash
      by (apply Hall; auto; intros c Hc; apply (plainRune_parts c Hc)).
    rewrite controlRuns_no_control
      by (apply Hall; auto; intros c Hc; apply (plainRune_parts c Hc)).
    assert (forallb (fun c => negb (c =? NL)) p1 = true) as Hn1
      by (eapply forallb_weaken; [| exact H1]; intros c Hc; apply (plainRune_parts c Hc)).
    assert (forallb (fun c => negb (c =? NL)) p2 = true) as Hn2
      by (eapply forallb_weaken; [| exact H2]; intros c Hc; apply (plainRune_parts c Hc)).
    rewrite collapse_no_newline_app by exact Hn1.
    rewrite collapse_newline_run.
    + rewrite collapse_no_newline by exact Hn2. reflexivity.
    + destruct p2 as [| c p2]; [exact I |]. simpl in Hn2.
      apply andb_prop in Hn2 as [Hc _]. apply Bool.negb_true_iff in Hc. exact Hc.
  - intros st. vm_compute. reflexivity.
Qed.

Lemma vertical_collapse_as_specified_witness :
  trimVerticalWhitespace (str "one" ++ replicate (3 + 2) NL ++ str "two")
  = str "one" ++ [NL; NL] ++ str "two".
Proof.
  apply (proj1 (proj2 (proj2 vertical_collapse_as_specified)) (str "one") (str "two") 2%nat);
    reflexivity.
Defined.
(** ** The horizontal collapse, line by line *)

Lemma Fields_cons c r :
  Fields (c :: r) =
  if isSpace c then Fields r
  else match r with
       | [] => [[c]]
       | d :: _ =>
           if isSpace d then [c] :: Fields r
           else match Fields r with
                | w :: ws => (c :: w) :: ws
                | [] => [[c]]
                end
       end.
Proof. reflexivity. Qed.

Lemma Fields_nonspace_head d r : isSpace d = false -> exists w ws, Fields (d :: r) = (d :: w) :: ws.
Proof.
  intros Hd. rewrite Fields_cons, Hd. destruct r as [| e r']; [eexists _, _; reflexivity |].
  destruct (isSpace e); [eexists _, _; reflexivity |].
  destruct (Fields (e :: r')); eexists _, _; reflexivity.
Qed.

Lemma Join_cons x rest sep :
  Join (x :: rest) sep = match rest with [] => x | _ => x ++ sep ++ Join rest sep end.
Proof. destruct rest; reflexivity. Qed.

(** [squeeze] as a recursion on the line. *)
Lemma squeeze_cons c r :
  squeeze (c :: r) =
  if isSpace c then squeeze r
  else match r with
       | [] => [c]
       | d :: _ =>
           if isSpace d then match squeeze r with [] => [c] | _ => c :: 32 :: squeeze r end
           else c :: squeeze r
       end.
Proof.
  unfold squeeze. rewrite Fields_cons. destruct (isSpace c); [reflexivity |].
  destruct r as [| d r']; [reflexivity |].
  destruct (isSpace d) eqn:Hd.
  - rewrite Join_cons. destruct (Fields (d :: r')) as [| w ws] eqn:E; [reflexivity |].
    destruct (Join (w :: ws) [32]) eqn:EJ; [| reflexivity].
    (* a field is never empty *)
    exfalso. clear - E EJ.
    assert (forall s w ws, Fields s = w :: ws -> w <> []) as Hne.
    { induction s as [| a s IH]; intros w' ws'; [discriminate |].
      rewrite Fields_cons. destruct (isSpace a); [apply IH |].
      destruct s as [| b s']; [intros [= <- _]; discriminate |].
      destruct (isSpace b); [intros [= <- _]; discriminate |].
      destruct (Fields (b :: s')); intros [= <- _]; discriminate. }
    apply Hne in E. rewrite Join_cons in EJ. destruct ws; [congruence |].
    destruct w; [congruence | discriminate].
  - destruct (Fields_nonspace_head d r' Hd) as (w & ws & ->).
    rewrite !Join_cons. destruct ws; reflexivity.
Qed.

Lemma squeeze_nil : squeeze [] = [].
Proof. reflexivity. Qed.

Lemma squeeze_head_nonspace d r :
  isSpace d = false -> exists t, squeeze (d :: r) = d :: t.
Proof.
  intros Hd. rewrite squeeze_cons, Hd. destruct r as [| e r']; [eexists; reflexivity |].
  destruct (isSpace e); [| eexists; reflexivity].
  destruct (squeeze (e :: r')); eexists; reflexivity.
Qed.

Lemma isSpace_space : isSpace 32 = true.
Proof. reflexivity. Qed.

Lemma squeeze_idem line : squeeze (squeeze line) = squeeze line.
Proof.
  induction line as [| c r IH]; [reflexivity |].
  rewrite squeeze_cons. destruct (isSpace c) eqn:Hc; [exact IH |].
  destruct r as [| d r']; [rewrite squeeze_cons, Hc; reflexivity |].
  destruct (isSpace d) eqn:Hd.
  - destruct (squeeze (d :: r')) as [| e t] eqn:E.
    + rewrite squeeze_cons, Hc. reflexivity.
    + rewrite squeeze_cons, Hc, isSpace_space.
      rewrite (squeeze_cons 32), isSpace_space, IH. reflexivity.
  - destruct (squeeze_head_nonspace d r' Hd) as (t & E). rewrite E in IH |- *.
    rewrite squeeze_cons, Hc, Hd, IH. reflexivity.
Qed.

Lemma squeeze_runes q line :
  q 32 = true -> (forall c, isSpace c = false -> q c = true) ->
  forallb q (squeeze line) = true.
Proof.
  intros Hsp Hq. induction line as [| c r IH]; [reflexivity |].
  rewrite squeeze_cons. destruct (isSpace c) eqn:Hc; [exact IH |].
  destruct r as [| d r'].
  - simpl. rewrite (Hq c Hc). reflexivity.
  - destruct (isSpace d).
    + destruct (squeeze (d :: r')) as [| e t]; cbn [forallb] in *;
        rewrite (Hq c Hc), ?Hsp, ?IH; reflexivity.
    + cbn [forallb]. rewrite (Hq c Hc), IH. reflexivity.
Qed.

Lemma hasEscape_cons c r :
  hasEscape (c :: r) =
  match r with
  | d :: _ => (c =? 92) && isRVFLetter d
  | [] => false
  end || hasEscape r.
Proof. reflexivity. Qed.

Lemma squeeze_no_escape line : hasEscape line = false -> hasEscape (squeeze line) = false.
Proof.
  induction line as [| c r IH]; [reflexivity |].
  rewrite hasEscape_cons. intros H. apply Bool.orb_false_iff in H as [Hh Hr].
  specialize (IH Hr). rewrite squeeze_cons.
  destruct (isSpace c) eqn:Hc; [exact IH |].
  destruct r as [| d r']; [reflexivity |].
  destruct (isSpace d) eqn:Hd.
  - destruct (squeeze (d :: r')) as [| e t]; [reflexivity |].
    rewrite hasEscape_cons, (hasEscape_cons 32), IH.
    rewrite Bool.andb_false_r. reflexivity.
  - destruct (squeeze_head_nonspace d r' Hd) as (t & E). rewrite E in IH |- *.
    rewrite hasEscape_cons, Hh, IH. reflexivity.
Qed.

(** Lines *)

Lemma Split_cons c r :
  Split (c :: r) =
  if c =? NL then [] :: Split r
  else match Split r with
       | l :: ls => (c :: l) :: ls
       | [] => [[c]]
       end.
Proof. reflexivity. Qed.

Lemma Split_nonempty s : Split s <> [].
Proof.
  destruct s as [| c r]; [discriminate |]. rewrite Split_cons.
  destruct (c =? NL); [discriminate |]. destruct (Split r); discriminate.
Qed.

Lemma Split_app_newline l t : noNewline l = true -> Split (l ++ NL :: t) = l :: Split t.
Proof.
  induction l as [| c r IH]; [reflexivity |]. unfold noNewline in *. cbn [forallb].
  intros H. apply andb_prop in H as [Hc Hr]. apply Bool.negb_true_iff in Hc.
  change ((c :: r) ++ NL :: t) with (c :: (r ++ NL :: t)).
  rewrite Split_cons, Hc, IH by exact Hr. reflexivity.
Qed.

Lemma Split_line l : noNewline l = true -> Split l = [l].
Proof.
  induction l as [| c r IH]; [reflexivity |]. unfold noNewline in *. cbn [forallb].
  intros H. apply andb_prop in H as [Hc Hr]. apply Bool.negb_true_iff in Hc.
  rewrite Split_cons, Hc, IH by exact Hr. reflexivity.
Qed.

Lemma Split_Join ls :
  ls <> [] -> Forall (fun l => noNewline l = true) ls -> Split (Join ls [NL]) = ls.
Proof.
  induction ls as [| l rest IH]; [congruence |]. intros _ H.
  apply Forall_cons in H as [Hl Hrest]. rewrite Join_cons.
  destruct rest as [| l2 rest'].
  - apply Split_line, Hl.
  - change (l ++ [NL] ++ Join (l2 :: rest') [NL]) with (l ++ NL :: Join (l2 :: rest') [NL]).
    rewrite Split_app_newline by exact Hl. rewrite IH by (auto; discriminate). reflexivity.
Qed.

Lemma Split_lines s : Forall (fun l => noNewline l = true) (Split s).
Proof.
  induction s as [| c r IH]; [repeat constructor |].
  rewrite Split_cons. destruct (N.eqb_spec c NL) as [-> | E].
  - constructor; [reflexivity | exact IH].
  - destruct (Split r) as [| l ls]; [repeat constructor |].
    + unfold noNewline. simpl. rewrite (proj2 (N.eqb_neq c NL) E). reflexivity.
    + apply Forall_cons in IH as [Hl Hls]. constructor; [| exact Hls].
      unfold noNewline in *. simpl. rewrite (proj2 (N.eqb_neq c NL) E), Hl. reflexivity.
Qed.
Lemma hasEscape_app_newline l t :
  hasEscape (l ++ NL :: t) = hasEscape l || hasEscape t.
Proof.
  induction l as [| c r IH].
  - simpl. destruct t; reflexivity.
  - change ((c :: r) ++ NL :: t) with (c :: (r ++ NL :: t)).
    rewrite !hasEscape_cons, IH. destruct r as [| d r']; simpl.
    + rewrite Bool.andb_false_r. reflexivity.
    + rewrite Bool.orb_assoc. reflexivity.
Qed.

Lemma hasEscape_Join ls :
  Forall (fun l => hasEscape l = false) ls -> hasEscape (Join ls [NL]) = false.
Proof.
  induction 1 as [| l rest Hl _ IH]; [reflexivity |].
  rewrite Join_cons. destruct rest as [| l2 rest']; [exact Hl |].
  change (l ++ [NL] ++ Join (l2 :: rest') [NL]) with (l ++ NL :: Join (l2 :: rest') [NL]).
  rewrite hasEscape_app_newline, Hl, IH. reflexivity.
Qed.

Lemma Split_head r l ls :
  Split r = l :: ls ->
  match l with
  | [] => r = [] \/ exists r', r = NL :: r'
  | d :: _ => exists r', r = d :: r'
  end.
Proof.
  destruct r as [| c r']; [intros [= <- _]; auto |].
  rewrite Split_cons. destruct (N.eqb_spec c NL) as [-> | E].
  - intros [= <- _]. eauto.
  - destruct (Split r'); intros [= <- _]; eauto.
Qed.

Lemma hasEscape_Split s :
  hasEscape s = false -> Forall (fun l => hasEscape l = false) (Split s).
Proof.
  induction s as [| c r IH]; [repeat constructor |].
  rewrite hasEscape_cons. intros H. apply Bool.orb_false_iff in H as [Hh Hr].
  specialize (IH Hr). rewrite Split_cons. destruct (c =? NL).
  - constructor; [reflexivity | exact IH].
  - destruct (Split r) as [| l ls] eqn:E; [repeat constructor |].
    apply Forall_cons in IH as [Hl Hls]. constructor; [| exact Hls].
    rewrite hasEscape_cons, Hl. apply Split_head in E.
    destruct l as [| d l']; [reflexivity |]. destruct E as (r' & ->).
    rewrite Hh. reflexivity.
Qed.

Lemma forallb_Join q ls :
  q NL = true -> Forall (fun l => forallb q l = true) ls -> forallb q (Join ls [NL]) = true.
Proof.
  intros Hq. induction 1 as [| l rest Hl _ IH]; [reflexivity |].
  rewrite Join_cons. destruct rest as [| l2 rest']; [exact Hl |].
  rewrite !forallb_app, Hl, IH. simpl. rewrite Hq. reflexivity.
Qed.

Lemma dropBlank_cons x rest' :
  dropBlank (x :: rest') =
  match rest' with
  | y :: _ :: _ => if isEmpty x && isEmpty y then dropBlank rest' else x :: dropBlank rest'
  | _ => x :: dropBlank rest'
  end.
Proof. reflexivity. Qed.

Lemma dropBlank_Forall (P : text -> Prop) rest : Forall P rest -> Forall P (dropBlank rest).
Proof.
  induction 1 as [| x rest' Hx Hrest IH]; [constructor |].
  rewrite dropBlank_cons. destruct rest' as [| y [| z more]]; try (constructor; assumption).
  destruct (isEmpty x && isEmpty y); [exact IH | constructor; assumption].
Qed.

Lemma dropBlank_nonempty rest : rest <> [] -> dropBlank rest <> [].
Proof.
  induction rest as [| x rest' IH]; [congruence |]. intros _.
  rewrite dropBlank_cons. destruct rest' as [| y [| z more]]; try discriminate.
  destruct (isEmpty x && isEmpty y); [apply IH; discriminate | discriminate].
Qed.
Lemma noNewline_head d r : noNewline (d :: r) = true -> (d =? NL) = false /\ noNewline r = true.
Proof.
  unfold noNewline. cbn [forallb]. intros H. apply andb_prop in H as [Hd Hr].
  apply Bool.negb_true_iff in Hd. auto.
Qed.

Lemma collapse_line_then l t :
  noNewline l = true -> collapseNewlines (l ++ t) = l ++ collapseNewlines t.
Proof. apply collapse_no_newline_app. Qed.

Lemma Join_two x y more :
  Join (x :: y :: more) [NL] = x ++ NL :: Join (y :: more) [NL].
Proof. reflexivity. Qed.

Lemma collapse_after_newline rest :
  rest <> [] -> Forall (fun l => noNewline l = true) rest ->
  collapseNewlines (NL :: Join rest [NL]) = NL :: Join (dropBlank rest) [NL].
Proof.
  induction rest as [| x rest' IH]; [congruence |]. intros _ H.
  apply Forall_cons in H as [Hx Hrest].
  destruct rest' as [| y more].
  - (* the last line *)
    change (Join [x] [NL]) with x. change (dropBlank [x]) with [x]. change (Join [x] [NL]) with x.
    rewrite collapseNewlines_cons.
    destruct x as [| d [| e x']]; try reflexivity.
    destruct (noNewline_head _ _ Hx) as [Hd Hx']. rewrite Hd, Bool.andb_false_r. cbn [andb].
    rewrite (collapse_no_newline (d :: e :: x')) by exact Hx. reflexivity.
  - specialize (IH ltac:(discriminate) Hrest).
    pose proof (dropBlank_nonempty (y :: more) ltac:(discriminate)) as Hne.
    rewrite Join_two. destruct x as [| d x'].
    + (* an empty line *)
      change ([] ++ NL :: Join (y :: more) [NL]) with (NL :: Join (y :: more) [NL]).
      rewrite collapseNewlines_cons.
      destruct y as [| e y'].
      * destruct more as [| z more'].
        -- reflexivity.
        -- exact IH.
      * apply Forall_cons in Hrest as [Hy _]. destruct (noNewline_head _ _ Hy) as [He _].
        assert (exists u, Join ((e :: y') :: more) [NL] = e :: u) as (u & Eu).
        { rewrite Join_cons. destruct more; eexists; reflexivity. }
        rewrite Eu in IH |- *. rewrite He, Bool.andb_false_r. cbn [andb].
        rewrite IH. rewrite (dropBlank_cons [] ((e :: y') :: more)).
        destruct more as [| z more']; cbn [isEmpty andb];
          rewrite Join_cons; destruct (dropBlank _) eqn:E; try congruence; reflexivity.
    + (* a line with text *)
      destruct (noNewline_head _ _ Hx) as [Hd Hx'].
      change ((d :: x') ++ NL :: Join (y :: more) [NL]) with (d :: (x' ++ NL :: Join (y :: more) [NL])).
      rewrite collapseNewlines_cons.
      assert (collapseNewlines (d :: x' ++ NL :: Join (y :: more) [NL])
              = (d :: x') ++ NL :: Join (dropBlank (y :: more)) [NL]) as Hc.
      { change (d :: x' ++ NL :: Join (y :: more) [NL]) with ((d :: x') ++ NL :: Join (y :: more) [NL]).
        rewrite collapse_line_then by exact Hx. rewrite IH. reflexivity. }
      rewrite Hd, Bool.andb_false_r. cbn [andb]. rewrite Hc.
      rewrite (dropBlank_cons (d :: x') (y :: more)). cbn [isEmpty andb].
      assert (Join ((d :: x') :: dropBlank (y :: more)) [NL]
              = (d :: x') ++ NL :: Join (dropBlank (y :: more)) [NL]) as Hj.
      { rewrite Join_cons. destruct (dropBlank (y :: more)); [congruence | reflexivity]. }
      destruct more as [| z more']; rewrite Hj;
        destruct (x' ++ NL :: Join _ [NL]) as [| f u]; reflexivity.
Qed.
Lemma collapse_Join l0 rest :
  Forall (fun l => noNewline l = true) (l0 :: rest) ->
  collapseNewlines (Join (l0 :: rest) [NL]) = Join (l0 :: dropBlank rest) [NL].
Proof.
  intros H. apply Forall_cons in H as [H0 Hrest].
  destruct rest as [| y more].
  - change (Join [l0] [NL]) with l0. apply collapse_no_newline, H0.
  - rewrite Join_two, collapse_line_then by exact H0.
    rewrite collapse_after_newline by (auto; discriminate).
    pose proof (dropBlank_nonempty (y :: more) ltac:(discriminate)) as Hne.
    rewrite (Join_cons l0). destruct (dropBlank (y :: more)); [congruence | reflexivity].
Qed.

Lemma trimHorizontal_Join ls :
  ls <> [] -> Forall (fun l => noNewline l = true) ls ->
  trimHorizontalWhitespace (Join ls [NL]) = Join (map squeeze ls) [NL].
Proof.
  intros Hne H. unfold trimHorizontalWhitespace. rewrite Split_Join by assumption. reflexivity.
Qed.

Lemma unescape_no_escape s : hasEscape s = false -> unescape s = s.
Proof.
  induction s as [| c r IH]; [reflexivity |].
  rewrite hasEscape_cons. intros H. apply Bool.orb_false_iff in H as [Hh Hr].
  rewrite unescape_cons. destruct r as [| d r']; [reflexivity |].
  rewrite Hh, IH by exact Hr. reflexivity.
Qed.

Lemma collapse_fixed t : tripleNewline t = false -> collapseNewlines t = t.
Proof.
  induction t as [| c r IH]; [reflexivity |].
  rewrite tripleNewline_cons. intros H. apply Bool.orb_false_iff in H as [Hh Hr].
  rewrite collapseNewlines_cons, IH by exact Hr.
  destruct r as [| d [| e u]]; try reflexivity. rewrite Hh. reflexivity.
Qed.

Lemma collapse_idem t : collapseNewlines (collapseNewlines t) = collapseNewlines t.
Proof. apply collapse_fixed, collapse_no_triple. Qed.

Lemma squeezed_tidy l : noNewline l = true -> hasEscape l = false -> tidyLine (squeeze l).
Proof.
  intros Hn He. repeat split.
  - apply squeeze_runes; [reflexivity |]. intros c Hc.
    destruct (N.eqb_spec c NL) as [-> | E]; [discriminate | reflexivity].
  - apply squeeze_runes; [reflexivity |]. intros c Hc. unfold isRVFControl.
    destruct (N.eqb_spec c 13) as [-> |]; [discriminate |].
    destruct (N.eqb_spec c 11) as [-> |]; [discriminate |].
    destruct (N.eqb_spec c 12) as [-> |]; [discriminate | reflexivity].
  - apply squeeze_no_escape, He.
  - apply squeeze_idem.
Qed.

(** The lines of the text after the horizontal step are tidy. *)
Lemma horizontal_lines s :
  hasEscape s = false ->
  exists l0 rest, map squeeze (Split s) = l0 :: rest /\ Forall tidyLine (l0 :: rest).
Proof.
  intros He. pose proof (Split_lines s) as Hn. pose proof (hasEscape_Split s He) as Hes.
  pose proof (Split_nonempty s) as Hne.
  destruct (Split s) as [| l ls]; [congruence |].
  exists (squeeze l), (map squeeze ls). split; [reflexivity |].
  change (squeeze l :: map squeeze ls) with (map squeeze (l :: ls)).
  apply Forall_map. revert Hn Hes. generalize (l :: ls). intros k Hn Hes.
  induction k as [| x k IH]; [constructor |].
  apply Forall_cons in Hn as [? ?]. apply Forall_cons in Hes as [? ?].
  constructor; [apply squeezed_tidy; assumption | apply IH; assumption].
Qed.

Lemma Forall_weaken {A} (P Q : A -> Prop) l :
  (forall x, P x -> Q x) -> Forall P l -> Forall Q l.
Proof. intros HPQ H. eapply Forall_impl; eauto. Qed.

Lemma tidy_noNewline ls : Forall tidyLine ls -> Forall (fun l => noNewline l = true) ls.
Proof. apply Forall_weaken. intros l H. apply H. Qed.

(** On tidy lines the vertical step only drops blank lines ... *)
Lemma vertical_tidy l0 rest :
  Forall tidyLine (l0 :: rest) ->
  trimVerticalWhitespace (Join (l0 :: rest) [NL]) = Join (l0 :: dropBlank rest) [NL].
Proof.
  intros H. rewrite trimVertical_steps.
  rewrite unescape_no_escape.
  - rewrite controlRuns_no_control.
    + apply collapse_Join, tidy_noNewline, H.
    + apply forallb_Join; [reflexivity |]. revert H. apply Forall_weaken. intros l Hl. apply Hl.
  - apply hasEscape_Join. revert H. apply Forall_weaken. intros l Hl. apply Hl.
Qed.

(** ... and the horizontal step changes nothing. *)
Lemma horizontal_tidy ls :
  ls <> [] -> Forall tidyLine ls -> trimHorizontalWhitespace (Join ls [NL]) = Join ls [NL].
Proof.
  intros Hne H. rewrite trimHorizontal_Join by (auto using tidy_noNewline).
  f_equal. induction H as [| l k Hl _ IH]; [reflexivity |].
  simpl. f_equal; [apply Hl |]. destruct k; [reflexivity | apply IH; discriminate].
Qed.

Lemma normalize_idem s :
  hasEscape s = false ->
  normalizeWhitespace (normalizeWhitespace s) = normalizeWhitespace s.
Proof.
  intros He. unfold normalizeWhitespace.
  destruct (horizontal_lines s He) as (l0 & rest & EL & HL).
  assert (trimHorizontalWhitespace s = Join (l0 :: rest) [NL]) as ->.
  { unfold trimHorizontalWhitespace. change (map _ (Split s)) with (map squeeze (Split s)).
    rewrite EL. reflexivity. }
  rewrite vertical_tidy by exact HL.
  assert (Forall tidyLine (l0 :: dropBlank rest)) as HL'.
  { apply Forall_cons in HL as [H0 Hr]. constructor; [exact H0 |].
    apply dropBlank_Forall, Hr. }
  rewrite horizontal_tidy by (auto; discriminate).
  rewrite trimVertical_steps.
  rewrite unescape_no_escape
    by (apply hasEscape_Join; revert HL'; apply Forall_weaken; intros l Hl; apply Hl).
  rewrite controlRuns_no_control
    by (apply forallb_Join; [reflexivity |]; revert HL'; apply Forall_weaken; intros l Hl; apply Hl).
  rewrite <- (collapse_Join l0 rest) by (apply tidy_noNewline, HL).
  apply collapse_idem.
Qed.
(** C5 fails as stated: a literal escape sequence next to a blank is
    turned into a newline by the vertical step, after the horizontal step
    has run; the blank that is now at the end of a line is only removed by
    a second application.  ["a \r b"] gives ["a <NL> b"], and that gives
    ["a<NL>b"]. *)
Lemma normalization_not_idempotent :
  normalizeWhitespace (str "a \r b") = str "a " ++ [NL] ++ str " b"
  /\ normalizeWhitespace (normalizeWhitespace (str "a \r b")) = str "a" ++ [NL] ++ str "b"
  /\ normalizeWhitespace (normalizeWhitespace (str "a \r b")) <> normalizeWhitespace (str "a \r b").
Proof. vm_compute. repeat split. discriminate. Qed.

(** C5 (amended): on every text without a literal escape sequence (a
    backslash directly followed by [r], [v] or [f]), whitespace
    normalisation applied twice gives the same result as applied once. *)
Theorem normalization_idempotent_without_escapes :
  forall s, hasEscape s = false ->
    normalizeWhitespace (normalizeWhitespace s) = normalizeWhitespace s.
Proof. exact normalize_idem. Qed.

Lemma normalization_idempotent_without_escapes_witness :
  normalizeWhitespace (normalizeWhitespace (str "a   b" ++ [9; NL; 32; NL; 13; NL; NL] ++ str " c\d"))
  = normalizeWhitespace (str "a   b" ++ [9; NL; 32; NL; 13; NL; NL] ++ str " c\d").
Proof.
  apply (normalization_idempotent_without_escapes
           (str "a   b" ++ [9; NL; 32; NL; 13; NL; NL] ++ str " c\d")).
  reflexivity.
Defined.

(** ** The airport directory *)

Section DirectoryFacts.

Variable lower : rune -> rune.

Local Abbreviation norm := (normalizeColumn lower).

Lemma buildColumnMap_lookup header : forall i (m : gmap (list N) nat) key,
  buildColumnMap lower i header m !! key =
  match columnIndex lower key i header with
  | Some j => Some j
  | None => m !! key
  end.
Proof.
  induction header as [| column header IH]; intros i m key; [reflexivity |].
  cbn [buildColumnMap columnIndex]. rewrite IH.
  destruct (columnIndex lower key (S i) header); [reflexivity |].
  fold (norm column). case_bool_decide as E.
  - subst. apply lookup_insert_eq.
  - apply lookup_insert_ne, E.
Qed.

Lemma columnMap_lookup header key :
  buildColumnMap lower 0 header ∅ !! key = columnIndex lower key 0 header.
Proof. rewrite buildColumnMap_lookup. destruct (columnIndex _ _ _ _); reflexivity. Qed.

Lemma columnIndex_bound key header : forall i j,
  columnIndex lower key i header = Some j -> (i <= j < i + length header)%nat.
Proof.
  induction header as [| column header IH]; intros i j; [discriminate |].
  cbn [columnIndex length]. destruct (columnIndex lower key (S i) header) eqn:E.
  - intros [= <-]. apply IH in E. lia.
  - case_bool_decide; [| discriminate]. intros [= <-]. lia.
Qed.

Lemma columnIndex_present key header : forall i,
  is_Some (columnIndex lower key i header) <-> hasColumn lower header key = true.
Proof.
  unfold hasColumn. induction header as [| column header IH]; intros i.
  - simpl. split; [intros [? [=]] | discriminate].
  - cbn [columnIndex existsb]. rewrite Bool.orb_true_iff, <- (IH (S i)).
    destruct (columnIndex lower key (S i) header) eqn:E.
    + split; eauto.
    + case_bool_decide.
      * split; eauto.
      * split; [eauto |]. intros [Hx | Hx]; [discriminate | exact Hx].
Qed.

Lemma checkRequired_find reqs header :
  checkRequired reqs (buildColumnMap lower 0 header ∅)
  = MissingColumn <$> List.find (fun req => negb (hasColumn lower header req)) reqs.
Proof.
  induction reqs as [| req reqs IH]; [reflexivity |].
  cbn [checkRequired List.find]. rewrite columnMap_lookup.
  pose proof (columnIndex_present req header 0) as Hp.
  destruct (columnIndex lower req 0 header) eqn:E.
  - rewrite (proj1 Hp) by eauto. simpl. exact IH.
  - destruct (hasColumn lower header req) eqn:Eh; [| reflexivity].
    destruct (proj2 Hp eq_refl) as [? [=]].
Qed.

Lemma required_present header req :
  firstMissing lower header = None -> In req requiredColumns ->
  exists j, columnIndex lower req 0 header = Some j /\ (j < length header)%nat.
Proof.
  intros Hm Hin. unfold firstMissing in Hm.
  pose proof (find_none _ _ Hm req Hin) as Hh. apply Bool.negb_false_iff in Hh.
  apply columnIndex_present with (i := 0%nat) in Hh as [j Hj].
  exists j. split; [exact Hj |]. apply columnIndex_bound in Hj. lia.
Qed.

Lemma field_fieldOf header record col :
  firstMissing lower header = None -> In (str col) requiredColumns ->
  length record = length header ->
  field (buildColumnMap lower 0 header ∅) record col = inr (fieldOf lower header record col).
Proof.
  intros Hm Hin Hlen. unfold field, fieldOf. rewrite columnMap_lookup.
  destruct (required_present header (str col) Hm Hin) as (j & -> & Hj). simpl.
  destruct (record !! j) eqn:E; [reflexivity |].
  apply lookup_ge_None in E. lia.
Qed.

Lemma loadRecord_spec header record st :
  firstMissing lower header = None ->
  loadRecord (length header) (buildColumnMap lower 0 header ∅) record st =
  match recordError lower header record with
  | Some e => (st, Some e)
  | None => if (length record =? 0)%nat then (st, None)
            else (register (airportOf lower header record) st, None)
  end.
Proof.
  intros Hm. unfold loadRecord, recordError.
  destruct (length record =? 0)%nat; [reflexivity |].
  destruct (Nat.eqb_spec (length record) (length header)) as [Hlen | Hlen]; [| reflexivity].
  cbn [negb].
  rewrite !(field_fieldOf header record) by (auto; vm_compute; tauto).
  destruct (isEmpty (TrimSpace (fieldOf lower header record "name"))); [reflexivity |].
  destruct (isEmpty (TrimSpace (fieldOf lower header record "iata_code"))
            && isEmpty (TrimSpace (fieldOf lower header record "icao_code"))); reflexivity.
Qed.

Lemma loadRecords_spec header records : forall st,
  firstMissing lower header = None ->
  loadRecords (length header) (buildColumnMap lower 0 header ∅) records st =
  (registerRows lower header (goodPrefix lower header records) st,
   firstRecordError lower header records).
Proof.
  induction records as [| record records IH]; intros st Hm; [reflexivity |].
  cbn [loadRecords goodPrefix firstRecordError]. rewrite loadRecord_spec by exact Hm.
  destruct (recordError lower header record) as [e |]; [reflexivity |].
  cbn [registerRows]. destruct (length record =? 0)%nat; apply IH, Hm.
Qed.

Lemma loadAirportData_spec header records st :
  loadAirportData lower header records st =
  match firstMissing lower header with
  | Some req => (st, Some (MissingColumn req))
  | None => (registerRows lower header (goodPrefix lower header records) (mkState ∅ (heap st)),
             firstRecordError lower header records)
  end.
Proof.
  unfold loadAirportData. rewrite checkRequired_find. fold (firstMissing lower header).
  destruct (firstMissing lower header) eqn:Hm; [reflexivity |].
  simpl. apply loadRecords_spec, Hm.
Qed.

Lemma recordError_is_record header record e :
  recordError lower header record = Some e -> isRecordError e = true.
Proof.
  unfold recordError. repeat (case_match; try discriminate); intros [= <-]; reflexivity.
Qed.

Lemma firstRecordError_is_record header records e :
  firstRecordError lower header records = Some e -> isRecordError e = true.
Proof.
  induction records as [| record records IH]; [discriminate |]. cbn [firstRecordError].
  destruct (recordError lower header record) eqn:E; [| exact IH].
  intros [= <-]. eapply recordError_is_record, E.
Qed.

Lemma firstRecordError_None header records :
  firstRecordError lower header records = None <->
  Forall (fun record => recordError lower header record = None) records.
Proof.
  induction records as [| record records IH]; [split; constructor |].
  cbn [firstRecordError]. destruct (recordError lower header record) eqn:E.
  - split; [discriminate |]. intros H. apply Forall_cons in H as [H _]. congruence.
  - rewrite IH. split; [intros H; constructor; assumption |].
    intros H. apply Forall_cons in H as [_ H]. exact H.
Qed.

Lemma firstRecordError_Some header records e :
  firstRecordError lower header records = Some e ->
  exists record, In record records /\ recordError lower header record = Some e.
Proof.
  induction records as [| record records IH]; [discriminate |]. cbn [firstRecordError].
  destruct (recordError lower header record) eqn:E.
  - intros [= <-]. exists record. split; [left; reflexivity | exact E].
  - intros H. destruct (IH H) as (r & Hin & Hr). exists r. split; [right; exact Hin | exact Hr].
Qed.

Lemma firstMissing_None header :
  firstMissing lower header = None <->
  Forall (fun req => hasColumn lower header req = true) requiredColumns.
Proof.
  unfold firstMissing. generalize requiredColumns. intros reqs.
  induction reqs as [| req reqs IH]; [split; constructor |].
  cbn [List.find]. destruct (hasColumn lower header req) eqn:E; cbn [negb].
  - rewrite IH. split; [intros H; constructor; assumption |].
    intros H. apply Forall_cons in H as [_ H]. exact H.
  - split; [discriminate |]. intros H. apply Forall_cons in H as [H _]. congruence.
Qed.

Lemma isRecordError_not_schema e : isRecordError e = true -> isSchemaError e = false.
Proof. destruct e; simpl; congruence. Qed.

(** C8: construction fails exactly under the specified conditions.  The
    error returned is the missing-column error of the first required
    column absent from the header (names compared in lower case and
    trimmed), else the error of the first row that has fields and whose
    field count differs from the header's, whose trimmed name is empty, or
    whose two codes are both empty after trimming; rows without fields
    are skipped, and otherwise construction succeeds.  No index is ever
    out of range. *)
Theorem build_fails_exactly_as_specified :
  forall header records st,
    let result := snd (loadAirportData lower header records st) in
    result = match firstMissing lower header with
             | Some req => Some (MissingColumn req)
             | None => firstRecordError lower header records
             end
    /\ ((exists e, result = Some e /\ isSchemaError e = true) <->
        (exists req, In req requiredColumns /\ hasColumn lower header req = false))
    /\ ((exists e, result = Some e /\ isRecordError e = true) <->
        (Forall (fun req => hasColumn lower header req = true) requiredColumns /\
         exists record, In record records /\ recordError lower header record <> None))
    /\ (result = None <->
        (Forall (fun req => hasColumn lower header req = true) requiredColumns /\
         Forall (fun record => recordError lower header record = None) records))
    /\ result <> Some IndexPanic
    /\ recordError lower header [] = None.
Proof.
  intros header records st result.
  assert (result = match firstMissing lower header with
                   | Some req => Some (MissingColumn req)
                   | None => firstRecordError lower header records
                   end) as Hr.
  { unfold result. rewrite loadAirportData_spec. destruct (firstMissing lower header); reflexivity. }
  pose proof (firstMissing_None header) as HmN.
  pose proof (firstRecordError_None header records) as HrN.
  split; [exact Hr |]. rewrite Hr. clear Hr result.
  split; [| split; [| split; [| split]]].
  - split.
    + intros (e & He & Hs). destruct (firstMissing lower header) as [req |] eqn:Hm.
      * apply find_some in Hm as [Hin Hh]. apply Bool.negb_true_iff in Hh. eauto.
      * apply firstRecordError_is_record, isRecordError_not_schema in He. congruence.
    + intros (req & Hin & Hh). destruct (firstMissing lower header) as [req' |] eqn:Hm.
      * eexists. split; reflexivity.
      * pose proof (proj1 HmN eq_refl) as HF. rewrite Forall_forall in HF.
        apply list_elem_of_In, HF in Hin. congruence.
  - split.
    + intros (e & He & Hs). destruct (firstMissing lower header) as [req |] eqn:Hm.
      * injection He as <-. discriminate.
      * split; [apply HmN; reflexivity |].
        destruct (firstRecordError_Some _ _ _ He) as (record & Hin & Hre).
        exists record. split; [exact Hin | congruence].
    + intros (Hall & record & Hin & Hne). rewrite (proj2 HmN Hall).
      destruct (firstRecordError lower header records) as [e |] eqn:E.
      * exists e. split; [reflexivity |]. eapply firstRecordError_is_record, E.
      * pose proof (proj1 HrN eq_refl) as HF. rewrite Forall_forall in HF.
        apply list_elem_of_In, HF in Hin. congruence.
  - split.
    + intros H. destruct (firstMissing lower header) eqn:Hm; [discriminate |].
      split; [apply HmN; reflexivity | apply HrN, H].
    + intros [Hall Hrec]. rewrite (proj2 HmN Hall). apply HrN, Hrec.
  - destruct (firstMissing lower header); [discriminate |].
    intros H. apply firstRecordError_is_record in H. discriminate.
  - reflexivity.
Qed.

Lemma records_split header records e :
  firstRecordError lower header records = Some e ->
  exists bad rest,
    records = goodPrefix lower header records ++ bad :: rest
    /\ recordError lower header bad = Some e.
Proof.
  induction records as [| record records IH]; [discriminate |].
  cbn [firstRecordError goodPrefix].
  destruct (recordError lower header record) eqn:E.
  - intros [= <-]. exists record, records. split; [reflexivity | exact E].
  - intros H. destruct (IH H) as (bad & rest & Hs & Hb).
    exists bad, rest. split; [| exact Hb]. simpl. f_equal. exact Hs.
Qed.

Lemma goodPrefix_good header records :
  Forall (fun record => recordError lower header record = None) (goodPrefix lower header records).
Proof.
  induction records as [| record records IH]; [constructor |]. cbn [goodPrefix].
  destruct (recordError lower header record) eqn:E; constructor; assumption.
Qed.

Lemma goodPrefix_all header records :
  Forall (fun record => recordError lower header record = None) records ->
  goodPrefix lower header records = records.
Proof.
  induction 1 as [| record records Hr _ IH]; [reflexivity |].
  cbn [goodPrefix]. rewrite Hr, IH. reflexivity.
Qed.

(** The row loop on its own: on a schema error the state is untouched,
    on a record error the loop has stopped at the first offending row
    and the directory holds the rows before it. *)
Lemma loop_stops_at_first_bad_row :
  forall header records st st' e,
    loadAirportData lower header records st = (st', Some e) ->
    (isSchemaError e = true /\ st' = st)
    \/ (isRecordError e = true /\
        exists good bad rest,
          records = good ++ bad :: rest
          /\ Forall (fun record => recordError lower header record = None) good
          /\ recordError lower header bad = Some e
          /\ loadAirportData lower header good st = (st', None)).
Proof.
  intros header records st st' e. rewrite loadAirportData_spec.
  destruct (firstMissing lower header) as [req |] eqn:Hm.
  - intros [= <- <-]. left. split; reflexivity.
  - intros [= <- He]. right. split; [eapply firstRecordError_is_record, He |].
    destruct (records_split _ _ _ He) as (bad & rest & Hs & Hb).
    pose proof (goodPrefix_good header records) as Hg.
    exists (goodPrefix lower header records), bad, rest.
    repeat split; auto.
    rewrite loadAirportData_spec, Hm.
    rewrite (goodPrefix_all header (goodPrefix lower header records)) by exact Hg.
    rewrite (proj2 (firstRecordError_None header _) Hg). reflexivity.
Qed.

Lemma registerRows_app header pre post st :
  registerRows lower header (pre ++ post) st
  = registerRows lower header post (registerRows lower header pre st).
Proof. revert st. induction pre as [| r pre IH]; intros st; [reflexivity |]. simpl. apply IH. Qed.

Lemma register_lookup_other a st k :
  IATACode a <> k -> ICAOCode a <> k ->
  airportMap (register a st) !! k = airportMap st !! k.
Proof.
  intros H1 H2. unfold register. cbn [airportMap].
  destruct (isEmpty (ICAOCode a)), (isEmpty (IATACode a));
    rewrite ?lookup_insert_ne by assumption; reflexivity.
Qed.

Lemma register_heap_old a st p :
  (p < length (heap st))%nat -> heap (register a st) !! p = heap st !! p.
Proof. intros H. unfold register. cbn [heap]. apply lookup_app_l, H. Qed.

Lemma register_heap_length a st : length (heap (register a st)) = S (length (heap st)).
Proof. unfold register. cbn [heap]. rewrite length_app. simpl. lia. Qed.

Lemma register_lookup_new a st :
  IATACode a <> [] -> ICAOCode a <> [] ->
  airportMap (register a st) !! IATACode a = Some (length (heap st))
  /\ airportMap (register a st) !! ICAOCode a = Some (length (heap st))
  /\ heap (register a st) !! length (heap st) = Some a.
Proof.
  intros H1 H2. unfold register. cbn [airportMap heap].
  destruct (IATACode a) as [| c1 i] eqn:E1; [congruence |].
  destruct (ICAOCode a) as [| c2 j] eqn:E2; [congruence |]. cbn [isEmpty].
  split; [| split].
  - destruct (decide (c2 :: j = c1 :: i)) as [-> | Hne].
    + apply lookup_insert_eq.
    + rewrite lookup_insert_ne by exact Hne. apply lookup_insert_eq.
  - apply lookup_insert_eq.
  - rewrite lookup_app_r by lia. rewrite Nat.sub_diag. reflexivity.
Qed.

(** Later rows that do not carry a code leave its entry alone. *)
Lemma registerRows_keeps header post k p a : forall st,
  Forall (fun r => fieldOf lower header r "iata_code" <> k
                   /\ fieldOf lower header r "icao_code" <> k) post ->
  airportMap st !! k = Some p -> heap st !! p = Some a ->
  airportMap (registerRows lower header post st) !! k = Some p
  /\ heap (registerRows lower header post st) !! p = Some a.
Proof.
  induction post as [| r post IH]; intros st H Hk Hp; [auto |].
  apply Forall_cons in H as [[H1 H2] Hpost]. cbn [registerRows].
  destruct (length r =? 0)%nat; [apply IH; assumption |].
  apply IH; [exact Hpost | |].
  - rewrite register_lookup_other; assumption.
  - rewrite register_heap_old; [exact Hp |]. eapply lookup_lt_Some, Hp.
Qed.

(** C7 (amended): a row with both codes whose codes no later row
    carries.  After a successful construction both codes resolve to the
    same pointer, and that pointer holds the record built from the row. *)
Theorem codes_of_a_row_share_one_record :
  forall header pre row post st st',
    loadAirportData lower header (pre ++ row :: post) st = (st', None) ->
    row <> [] ->
    fieldOf lower header row "iata_code" <> [] ->
    fieldOf lower header row "icao_code" <> [] ->
    Forall (fun r =>
              (fieldOf lower header r "iata_code" <> fieldOf lower header row "iata_code"
               /\ fieldOf lower header r "icao_code" <> fieldOf lower header row "iata_code")
              /\ (fieldOf lower header r "iata_code" <> fieldOf lower header row "icao_code"
                  /\ fieldOf lower header r "icao_code" <> fieldOf lower header row "icao_code"))
           post ->
    exists p,
      airportMap st' !! fieldOf lower header row "iata_code" = Some p
      /\ airportMap st' !! fieldOf lower header row "icao_code" = Some p
      /\ heap st' !! p = Some (airportOf lower header row).
Proof.
  intros header pre row post st st' Hload Hrow Hiata Hicao Hpost.
  rewrite loadAirportData_spec in Hload.
  destruct (firstMissing lower header); [discriminate |].
  injection Hload as <- He.
  rewrite goodPrefix_all by (apply firstRecordError_None, He).
  rewrite registerRows_app. cbn [registerRows].
  destruct row as [| f row]; [congruence |]. cbn [length Nat.eqb].
  set (st1 := registerRows lower header pre _).
  set (a := airportOf lower header (f :: row)).
  destruct (register_lookup_new a st1 Hiata Hicao) as (Hi & Hc & Hh).
  exists (length (heap st1)).
  assert (Forall (fun r => fieldOf lower header r "iata_code" <> IATACode a
                           /\ fieldOf lower header r "icao_code" <> IATACode a) post) as Hp1
    by (eapply Forall_weaken; [| exact Hpost]; intros r Hr; apply Hr).
  assert (Forall (fun r => fieldOf lower header r "iata_code" <> ICAOCode a
                           /\ fieldOf lower header r "icao_code" <> ICAOCode a) post) as Hp2
    by (eapply Forall_weaken; [| exact Hpost]; intros r Hr; apply Hr).
  destruct (registerRows_keeps header post _ _ a _ Hp1 Hi Hh) as [H1 H3].
  destruct (registerRows_keeps header post _ _ a _ Hp2 Hc Hh) as [H2 _].
  auto.
Qed.

End DirectoryFacts.
(** C6 fails as stated: on a table whose rows all have the header's
    number of fields, the rows before the offending one stay in the
    package-level directory after the failure. *)
Lemma partial_directory_survives_failure :
  Forall (fun record => length record = length sampleHeader) failingRows
  /\ snd (loadAirportData asciiLower sampleHeader failingRows initialState) = Some EmptyName
  /\ Name <$> lookupAirport (fst (loadAirportData asciiLower sampleHeader failingRows initialState)) (str "JFK")
     = Some (str "John F Kennedy International Airport")
  /\ fst (loadAirportData asciiLower sampleHeader failingRows initialState) <> initialState.
Proof.
  split; [repeat constructor |].
  split; [vm_compute; reflexivity |]. split; [vm_compute; reflexivity |].
  intros H. apply (f_equal heap) in H. vm_compute in H. discriminate.
Qed.

(** C7 fails as stated: a later row that repeats the IATA code of an
    earlier one takes the code over, and the two codes of the earlier row
    no longer point to one record. *)
Lemma shared_code_breaks_aliasing :
  snd (loadAirportData asciiLower sampleHeader sharedCodeRows initialState) = None
  /\ airportMap (fst (loadAirportData asciiLower sampleHeader sharedCodeRows initialState)) !! str "JFK"
     = Some 1%nat
  /\ airportMap (fst (loadAirportData asciiLower sampleHeader sharedCodeRows initialState)) !! str "KJFK"
     = Some 0%nat.
Proof. vm_compute. repeat split. Qed.

Lemma codes_of_a_row_share_one_record_witness :
  exists p,
    airportMap sampleState !! str "JFK" = Some p
    /\ airportMap sampleState !! str "KJFK" = Some p
    /\ heap sampleState !! p
       = Some (mkAirport (str "John F Kennedy International Airport") (str "US") (str "New York")
                 (str "KJFK") (str "JFK") (str "-73.7781, 40.6413")).
Proof.
  pose proof (codes_of_a_row_share_one_record asciiLower sampleHeader []
                (hd [] sampleRows) (tl sampleRows) initialState sampleState) as H.
  apply H.
  - vm_compute. reflexivity.
  - discriminate.
  - vm_compute. discriminate.
  - vm_compute. discriminate.
  - vm_compute. repeat constructor; discriminate.
Defined.
(** ** Runes that stop every match *)

Lemma run_stop p y c r : p c = false -> run p (y ++ c :: r) = run p y.
Proof.
  intros Hc. induction y as [| x y IH]; simpl.
  - rewrite Hc. reflexivity.
  - destruct (p x); [rewrite IH |]; reflexivity.
Qed.

Lemma backtrack_ext f g lo k :
  (forall j, (j <= k)%nat -> f j = g j) -> backtrack f lo k = backtrack g lo k.
Proof.
  induction k as [| k IH]; intros H;
    rewrite (backtrack_eq f), (backtrack_eq g), (H _ (Nat.le_refl _)).
  - reflexivity.
  - destruct (S k <? lo)%nat; [reflexivity |]. destruct (g (S k)); [reflexivity |].
    apply IH. intros j Hj. apply H. lia.
Qed.

Lemma matchAtoms_stop re c : stops re c = true ->
  forall y r, matchAtoms re (y ++ c :: r) = matchAtoms re y.
Proof.
  induction re as [| a re IH]; intros Hs y r; [reflexivity |].
  cbn [stops forallb] in Hs. apply andb_prop in Hs as [Ha Hre].
  apply Bool.negb_true_iff in Ha. cbn [matchAtoms].
  rewrite (run_stop _ y c r Ha).
  apply backtrack_ext. intros j Hj.
  assert (j <= length y)%nat as Hjy.
  { pose proof (run_le (cls a) y). destruct (amax a); lia. }
  rewrite drop_app_le by exact Hjy. apply IH, Hre.
Qed.

Lemma matchLen_stop re c y r : stops re c = true -> matchLen re (y ++ c :: r) = matchLen re y.
Proof. intros Hs. unfold matchLen. rewrite matchAtoms_stop by exact Hs. reflexivity. Qed.

Lemma local_stop re c pre r : stops re c = true -> local re pre (c :: r).
Proof. intros Hs x y _ _. apply matchLen_stop, Hs. Qed.

Lemma scan_stop re c r : stops re c = true -> proper re ->
  scan re 0 (c :: r) = Copy c :: scan re 0 r.
Proof.
  intros Hs Hp. cbn [scan].
  rewrite (matchLen_stop re c [] r Hs : matchLen re (c :: r) = matchLen re []), Hp.
  reflexivity.
Qed.

Lemma scan_around re x c y : stops re c = true -> proper re ->
  scan re 0 (x ++ c :: y) = scan re 0 x ++ Copy c :: scan re 0 y.
Proof.
  intros Hs Hp. rewrite scan_app by (try apply local_stop; auto; lia).
  rewrite scan_stop by assumption. reflexivity.
Qed.

Lemma replace_around re cb x c y x' y' : stops re c = true -> proper re ->
  ReplaceAllStringFunc re x cb = Some x' -> ReplaceAllStringFunc re y cb = Some y' ->
  ReplaceAllStringFunc re (x ++ c :: y) cb = Some (x' ++ c :: y').
Proof.
  unfold ReplaceAllStringFunc. intros Hs Hp Hx Hy.
  rewrite scan_around by assumption. rewrite mapM_option_app. cbn [mapM render].
  destruct (mapM (render cb) (scan re 0 x)) as [lx |]; [| discriminate].
  destruct (mapM (render cb) (scan re 0 y)) as [ly |]; [| discriminate].
  simpl in *. injection Hx as <-. injection Hy as <-.
  rewrite flatten_app. reflexivity.
Qed.

Lemma replaceAll_around re tpl x c y : stops re c = true -> proper re ->
  ReplaceAllString re (x ++ c :: y) tpl
  = ReplaceAllString re x tpl ++ c :: ReplaceAllString re y tpl.
Proof.
  intros Hs Hp. unfold ReplaceAllString. rewrite scan_around by assumption.
  rewrite map_app, flatten_app. reflexivity.
Qed.
(** ** Stripping markers *)






(** ** The horizontal collapse, rune by rune *)

Lemma trimHorizontal_lines s l ls :
  Split s = l :: ls -> trimHorizontalWhitespace s = squeeze l ++ afterLine ls.
Proof.
  intros E. unfold trimHorizontalWhitespace. rewrite E.
  change (map _ (l :: ls)) with (squeeze l :: map squeeze ls).
  rewrite Join_cons. destruct ls; [symmetry; apply app_nil_r | reflexivity].
Qed.

Lemma squeeze_blank l : isEmpty (squeeze l) = forallb isSpace l.
Proof.
  induction l as [| c r IH]; [reflexivity |].
  rewrite squeeze_cons. cbn [forallb]. destruct (isSpace c); [exact IH |].
  destruct r as [| d r']; [reflexivity |].
  destruct (isSpace d); [destruct (squeeze (d :: r')) |]; reflexivity.
Qed.

Lemma blankToEol_line r l ls : Split r = l :: ls -> blankToEol r = forallb isSpace l.
Proof.
  revert l ls. induction r as [| c r IH]; intros l ls.
  - intros [= <- _]. reflexivity.
  - rewrite Split_cons. cbn [blankToEol]. destruct (c =? NL).
    + intros [= <- _]. reflexivity.
    + destruct (Split r) as [| l' ls'] eqn:E; [destruct (Split_nonempty r E) |].
      intros [= <- _]. cbn [forallb]. rewrite (IH l' ls') by reflexivity. reflexivity.
Qed.

Lemma trimHorizontal_nil : trimHorizontalWhitespace [] = [].
Proof. reflexivity. Qed.

Lemma trimHorizontal_newline r :
  trimHorizontalWhitespace (NL :: r) = NL :: trimHorizontalWhitespace r.
Proof.
  destruct (Split r) as [| l ls] eqn:E; [destruct (Split_nonempty r E) |].
  rewrite (trimHorizontal_lines (NL :: r) [] (l :: ls)) by (rewrite Split_cons, E; reflexivity).
  rewrite (trimHorizontal_lines r l ls E).
  change (squeeze [] ++ afterLine (l :: ls)) with (NL :: Join (squeeze l :: map squeeze ls) [NL]).
  rewrite Join_cons. destruct ls; simpl; [rewrite app_nil_r |]; reflexivity.
Qed.

Lemma trimHorizontal_rune c r :
  (c =? NL) = false ->
  trimHorizontalWhitespace (c :: r) =
  if isSpace c then trimHorizontalWhitespace r
  else c :: gap r ++ trimHorizontalWhitespace r.
Proof.
  intros Hc. destruct (Split r) as [| l ls] eqn:E; [destruct (Split_nonempty r E) |].
  rewrite (trimHorizontal_lines (c :: r) (c :: l) ls) by (rewrite Split_cons, Hc, E; reflexivity).
  rewrite (trimHorizontal_lines r l ls E). rewrite squeeze_cons.
  destruct (isSpace c); [reflexivity |].
  pose proof (Split_head r l ls E) as Hh. unfold gap.
  destruct l as [| d l'].
  - destruct Hh as [-> | (r' & ->)]; reflexivity.
  - destruct Hh as (r' & ->).
    rewrite (blankToEol_line (d :: r') (d :: l') ls E), <- squeeze_blank.
    assert ((d =? NL) = false) as Hd.
    { pose proof (Split_lines (d :: r')) as Hl. rewrite E in Hl.
      apply Forall_cons in Hl as [Hl _]. apply noNewline_head in Hl. apply Hl. }
    rewrite Hd. cbn [negb]. rewrite Bool.andb_true_r.
    destruct (isSpace d); [| reflexivity]. cbn [andb].
    destruct (squeeze (d :: l')); reflexivity.
Qed.

(** ** Decorated text *)




Lemma marks_app m1 m2 : marks m1 -> marks m2 -> marks (m1 ++ m2).
Proof.
  induction 1 as [| ds m Hne Hds _ IH]; intros H2; [exact H2 |].
  rewrite <- !app_assoc. constructor; auto.
Qed.







Lemma solid_not_newline c : isSpace c = false -> (c =? NL) = false.
Proof. destruct (N.eqb_spec c NL) as [-> |]; [discriminate | reflexivity]. Qed.






(** ** Normalisation of decorated text *)

Lemma trimHorizontal_runes q x :
  q 32 = true -> forallb q x = true -> forallb q (trimHorizontalWhitespace x) = true.
Proof.
  intros Hq. induction x as [| c r IH]; [reflexivity |]. cbn [forallb].
  intros H. apply andb_prop in H as [Hc Hr]. specialize (IH Hr).
  destruct (N.eqb_spec c NL) as [-> | Hn].
  - rewrite trimHorizontal_newline. cbn [forallb]. rewrite Hc, IH. reflexivity.
  - rewrite trimHorizontal_rune by (apply N.eqb_neq, Hn).
    destruct (isSpace c); [exact IH |]. cbn [forallb]. rewrite Hc, forallb_app, IH.
    assert (forallb q (gap r) = true) as ->; [| reflexivity].
    unfold gap. destruct r as [| d r']; [reflexivity |].
    destruct (isSpace d && negb (d =? NL) && negb (blankToEol (d :: r')));
      [cbn [forallb]; rewrite Hq |]; reflexivity.
Qed.

Lemma isRVFControl_space c : isRVFControl c = true -> isSpace c = true.
Proof.
  unfold isRVFControl.
  destruct (N.eqb_spec c 13) as [E | _]; [subst; reflexivity |].
  destruct (N.eqb_spec c 11) as [E | _]; [subst; reflexivity |].
  destruct (N.eqb_spec c 12) as [E | _]; [subst; reflexivity | discriminate].
Qed.

Lemma trimHorizontal_no_control x :
  forallb (fun c => negb (isRVFControl c)) (trimHorizontalWhitespace x) = true.
Proof.
  induction x as [| c r IH]; [reflexivity |].
  destruct (N.eqb_spec c NL) as [-> | Hn].
  - rewrite trimHorizontal_newline. cbn [forallb]. rewrite IH. reflexivity.
  - rewrite trimHorizontal_rune by (apply N.eqb_neq, Hn).
    destruct (isSpace c) eqn:Hsp; [exact IH |]. cbn [forallb]. rewrite forallb_app, IH.
    destruct (isRVFControl c) eqn:Hcc; [apply isRVFControl_space in Hcc; congruence |].
    assert (forallb (fun c => negb (isRVFControl c)) (gap r) = true) as ->; [| reflexivity].
    unfold gap. destruct r as [| d r']; [reflexivity |].
    destruct (isSpace d && negb (d =? NL) && negb (blankToEol (d :: r'))); reflexivity.
Qed.

Lemma normalize_no_backslash x :
  forallb (fun c => negb (c =? 92)) x = true ->
  normalizeWhitespace x = collapseNewlines (trimHorizontalWhitespace x).
Proof.
  intros H. unfold normalizeWhitespace. rewrite trimVertical_steps.
  rewrite unescape_no_backslash by (apply trimHorizontal_runes; auto).
  rewrite controlRuns_no_control by apply trimHorizontal_no_control. reflexivity.
Qed.

Lemma marks_runes q m :
  q 27 = true -> q 91 = true -> q 109 = true -> (forall c, isDigit c = true -> q c = true) ->
  marks m -> forallb q m = true.
Proof.
  intros H27 H91 H109 Hd. induction 1 as [| ds m Hne Hds _ IH]; [reflexivity |].
  rewrite !forallb_app, IH. cbn [forallb]. rewrite H27, H91, H109.
  rewrite (forallb_weaken isDigit q ds Hd Hds). reflexivity.
Qed.



(** ** The token passes work field by field *)

Lemma isSpace_ranges c : isSpace c = true -> (9 <= c <= 13) \/ c = 32 \/ 133 <= c.
Proof.
  unfold isSpace. intros H.
  repeat (apply Bool.orb_true_iff in H as [H | H]);
    try (apply andb_prop in H as [H1 H2]; apply N.leb_le in H1, H2; lia);
    apply N.eqb_eq in H; lia.
Qed.

Lemma space_not c k :
  isSpace c = true -> 13 < k < 32 \/ 32 < k < 133 -> (c =? k) = false.
Proof. intros H Hk. apply isSpace_ranges in H. apply N.eqb_neq. lia. Qed.

Lemma space_not_upper c : isSpace c = true -> isUpper c = false.
Proof.
  intros H. apply isSpace_ranges in H. unfold isUpper.
  destruct (N.leb_spec 65 c), (N.leb_spec c 90); simpl; try reflexivity; lia.
Qed.

Lemma space_not_digit c : isSpace c = true -> isDigit c = false.
Proof.
  intros H. apply isSpace_ranges in H. unfold isDigit.
  destruct (N.leb_spec 48 c), (N.leb_spec c 57); simpl; try reflexivity; lia.
Qed.

Lemma space_not_stamp c : isSpace c = true -> isStamp c = false.
Proof.
  intros H. unfold isStamp. rewrite (space_not_digit c H).
  rewrite !(space_not c) by (auto; lia). reflexivity.
Qed.

Lemma space_stops c : isSpace c = true ->
  stops iataRegex c = true /\ stops icaoRegex c = true /\ stops dateRegex c = true
  /\ stops time12Regex c = true /\ stops time24Regex c = true /\ stops markerRegex c = true.
Proof.
  intros H. unfold stops, iataRegex, icaoRegex, dateRegex, time12Regex, time24Regex, markerRegex,
    group, opt, lit, rep, atLeast, isRune. cbn [forallb cls].
  rewrite (space_not_upper c H), (space_not_stamp c H), (space_not_digit c H).
  rewrite !(space_not c) by (auto; lia). repeat split.
Qed.

Lemma spaceHom_replace re cb :
  (forall c, isSpace c = true -> stops re c = true) -> proper re ->
  spaceHom (fun s => ReplaceAllStringFunc re s cb).
Proof. intros Hs Hp x c y x' y' Hc Hx Hy. apply replace_around; auto. Qed.

Lemma spaceHom_bind f g : spaceHom f -> spaceHom g -> spaceHom (fun s => f s ≫= g).
Proof.
  intros Hf Hg x c y x' y' Hc Hx Hy.
  destruct (f x) as [x1 |] eqn:Ex; [| discriminate].
  destruct (f y) as [y1 |] eqn:Ey; [| discriminate]. simpl in Hx, Hy.
  rewrite (Hf x c y x1 y1 Hc Ex Ey). simpl. apply Hg; assumption.
Qed.

(** Fields *)






(** ** Texts that a pass leaves alone *)

Lemma scan_no_match re w :
  (forall x y, w = x ++ y -> matchLen re y = None) -> scan re 0 w = map Copy w.
Proof.
  induction w as [| c w IH]; intros H; [reflexivity |].
  cbn [scan map]. rewrite (H [] (c :: w) eq_refl). f_equal.
  apply IH. intros x y ->. apply (H (c :: x) y). reflexivity.
Qed.

Lemma replace_no_match re cb w :
  (forall x y, w = x ++ y -> matchLen re y = None) -> ReplaceAllStringFunc re w cb = Some w.
Proof.
  intros H. unfold ReplaceAllStringFunc. rewrite scan_no_match by exact H.
  clear H. induction w as [| c w IH]; [reflexivity |].
  cbn [map mapM render] in *. destruct (mapM (render cb) (map Copy w)) as [l |]; [| discriminate].
  simpl in *. injection IH as ->. reflexivity.
Qed.

Lemma replace_without re cb k w :
  needs re k -> forallb (fun c => negb (c =? k)) w = true ->
  ReplaceAllStringFunc re w cb = Some w.
Proof.
  intros Hn Hw. apply replace_no_match. intros x y ->.
  destruct (matchLen re y) as [n |] eqn:E; [| reflexivity].
  apply Hn in E. rewrite forallb_app in Hw. apply andb_prop in Hw as [_ Hy].
  rewrite forallb_forall in Hy. apply Hy in E. rewrite N.eqb_refl in E. discriminate.
Qed.

Lemma iata_needs_hash : needs iataRegex 35.
Proof.
  intros y n. rewrite matchLen_iata, iataLen_tests.
  destruct y as [| c0 [| c1 [| c2 [| c3 r]]]]; try discriminate.
  destruct (N.eqb_spec c0 42) as [-> | _].
  - destruct r as [| c4 r]; [discriminate |].
    destruct (N.eqb_spec c1 35) as [-> | _]; [| discriminate]. intros _. simpl. auto.
  - destruct (N.eqb_spec c0 35) as [-> | _]; [| discriminate]. intros _. simpl. auto.
Qed.

Lemma icao_needs_hash : needs icaoRegex 35.
Proof.
  intros y n. rewrite matchLen_icao, icaoLen_tests.
  destruct y as [| c0 [| c1 [| c2 [| c3 [| c4 [| c5 r]]]]]]; try discriminate.
  destruct (N.eqb_spec c0 42) as [-> | _].
  - destruct r as [| c6 r]; [discriminate |].
    destruct (N.eqb_spec c1 35) as [-> | _]; [| discriminate]. intros _. simpl. auto.
  - destruct (N.eqb_spec c0 35) as [-> | _]; [| discriminate]. intros _. simpl. auto.
Qed.

Lemma date_shape y n : matchLen dateRegex y = Some n -> exists r, y = 68 :: 40 :: r.
Proof.
  rewrite matchLen_date. destruct y as [| c0 [| c1 r]]; simpl; try discriminate.
  - bits c0; discriminate.
  - bits c0; try discriminate. bits c1; try discriminate. intros _. eexists; reflexivity.
Qed.

Lemma time12_shape y n : matchLen time12Regex y = Some n -> exists r, y = 84 :: 49 :: 50 :: 40 :: r.
Proof.
  rewrite matchLen_time12. destruct y as [| c0 [| c1 [| c2 [| c3 r]]]]; simpl;
    try discriminate; bits c0; try discriminate; bits c1; try discriminate;
    bits c2; try discriminate; bits c3; try discriminate. intros _. eexists; reflexivity.
Qed.

Lemma time24_shape y n : matchLen time24Regex y = Some n -> exists r, y = 84 :: 50 :: 52 :: 40 :: r.
Proof.
  rewrite matchLen_time24. destruct y as [| c0 [| c1 [| c2 [| c3 r]]]]; simpl;
    try discriminate; bits c0; try discriminate; bits c1; try discriminate;
    bits c2; try discriminate; bits c3; try discriminate. intros _. eexists; reflexivity.
Qed.

Lemma date_needs_paren : needs dateRegex 40.
Proof. intros y n H. destruct (date_shape y n H) as (r & ->). simpl. auto. Qed.

Lemma date_needs_D : needs dateRegex 68.
Proof. intros y n H. destruct (date_shape y n H) as (r & ->). simpl. auto. Qed.

Lemma time12_needs_paren : needs time12Regex 40.
Proof. intros y n H. destruct (time12_shape y n H) as (r & ->). simpl. auto. Qed.

Lemma time24_needs_paren : needs time24Regex 40.
Proof. intros y n H. destruct (time24_shape y n H) as (r & ->). simpl. auto. Qed.

Lemma time24_needs_T : needs time24Regex 84.
Proof. intros y n H. destruct (time24_shape y n H) as (r & ->). simpl. auto. Qed.

(** ** The runes of the renderings *)

Lemma uintDigits_digits u : forallb isDigit (uintDigits u) = true.
Proof. induction u; simpl; auto. Qed.

Lemma appendInt_digits x w : forallb isDigit (appendInt x w) = true.
Proof.
  unfold appendInt. rewrite forallb_app, uintDigits_digits, Bool.andb_true_r.
  apply forallb_replicate_true. reflexivity.
Qed.


Lemma shortMonthName_letters month : forallb isLetter (shortMonthName month) = true.
Proof.
  destruct month as [| p]; [reflexivity |].
  do 4 (try destruct p as [p | p |]); reflexivity.
Qed.

Lemma Format_date_runes q t :
  (forall c, isDigit c = true -> q c = true) -> (forall c, isLetter c = true -> q c = true) ->
  q 32 = true -> forallb q (Format t layoutDate) = true.
Proof.
  intros Hd Hl Hs. unfold Format, layoutDate, flatten. cbn [map concat formatItemText].
  rewrite !forallb_app. cbn [forallb]. rewrite Hs.
  rewrite !(forallb_weaken isDigit q _ Hd (appendInt_digits _ _)).
  rewrite (forallb_weaken isLetter q _ Hl (shortMonthName_letters _)). reflexivity.
Qed.

Lemma Format_time_runes q t layout :
  layout = layoutKitchen \/ layout = layoutClock ->
  (forall c, isDigit c = true -> q c = true) ->
  q 58 = true -> q 65 = true -> q 80 = true -> q 77 = true ->
  forallb q (Format t layout) = true.
Proof.
  intros Hlay Hd H58 H65 H80 H77. unfold Format, flatten.
  destruct Hlay as [-> | ->]; cbn [layoutKitchen layoutClock map concat formatItemText];
    rewrite !forallb_app; cbn [forallb]; rewrite H58;
    rewrite !(forallb_weaken isDigit q _ Hd (appendInt_digits _ _)); [| reflexivity].
  destruct (12 <=? tHour t);
    [change (str "PM") with [80; 77] | change (str "AM") with [65; 77]];
    cbn [forallb]; rewrite ?H65, ?H80, ?H77; reflexivity.
Qed.

Lemma zoneText_shape t :
  exists sign h m, (sign = 43 \/ sign = 45) /\ forallb isDigit h = true /\ forallb isDigit m = true
    /\ zoneText t = [40; sign] ++ h ++ [58] ++ m ++ [41].
Proof.
  unfold zoneText, Format, layoutZone, flatten. cbn [map concat formatItemText].
  set (zone := Z.to_N (Z.abs (Z.quot (tOffset t) 60))).
  exists (if (Z.quot (tOffset t) 60 <? 0)%Z then 45 else 43), (appendInt (zone / 60) 2),
    (appendInt (zone mod 60) 2).
  split; [destruct (_ <? _)%Z; auto |]. split; [apply appendInt_digits |].
  split; [apply appendInt_digits |].
  rewrite app_nil_r. unfold eqText.
  case_bool_decide as E.
  - exfalso. destruct (_ <? _)%Z; discriminate E.
  - simpl. rewrite <- !app_assoc. reflexivity.
Qed.
(** ** Decorating a rendering *)



Lemma marker_marks ds : ds <> [] -> forallb isDigit ds = true -> marks (27 :: 91 :: ds ++ [109]).
Proof.
  intros Hne Hd. replace (27 :: 91 :: ds ++ [109]) with ([27; 91] ++ ds ++ [109] ++ [])
    by (simpl; reflexivity).
  constructor; auto using marks_nil.
Qed.

Lemma program_marks :
  marks ColorReset /\ marks ColorGreen /\ marks ColorYellow /\ marks ColorMagenta /\ marks ColorCyan.
Proof.
  repeat split.
  - apply (marker_marks [48]); [discriminate | reflexivity].
  - apply (marker_marks [51; 50]); [discriminate | reflexivity].
  - apply (marker_marks [51; 51]); [discriminate | reflexivity].
  - apply (marker_marks [51; 53]); [discriminate | reflexivity].
  - apply (marker_marks [51; 54]); [discriminate | reflexivity].
Qed.
(** ** One field through the five passes *)

Lemma tokenPasses_steps hl st w c1 c2 c3 c4 c5 :
  ReplaceAllStringFunc iataRegex w (airportPass iataRegex hl st) = Some c1 ->
  ReplaceAllStringFunc icaoRegex c1 (airportPass icaoRegex hl st) = Some c2 ->
  ReplaceAllStringFunc dateRegex c2 (dateCallback hl) = Some c3 ->
  ReplaceAllStringFunc time12Regex c3 (timeCallback hl layoutKitchen) = Some c4 ->
  ReplaceAllStringFunc time24Regex c4 (timeCallback hl layoutClock) = Some c5 ->
  tokenPasses hl st w = Some c5.
Proof.
  intros H1 H2 H3 H4 H5. unfold tokenPasses, airportPass in *.
  destruct hl; unfold processAirportCodes, plainProcessAirportCodes,
    processDatesAndTimes, plainProcessDatesAndTimes, datesAndTimes;
    rewrite H1; simpl; rewrite H2; simpl; rewrite H3; simpl; rewrite H4; simpl; exact H5.
Qed.

(** A text without [#] and [(] goes through every pass unchanged. *)
Lemma inert_through hl st x :
  forallb (fun c => negb (c =? 35)) x = true -> forallb (fun c => negb (c =? 40)) x = true ->
  ReplaceAllStringFunc iataRegex x (airportPass iataRegex hl st) = Some x
  /\ ReplaceAllStringFunc icaoRegex x (airportPass icaoRegex hl st) = Some x
  /\ ReplaceAllStringFunc dateRegex x (dateCallback hl) = Some x
  /\ ReplaceAllStringFunc time12Regex x (timeCallback hl layoutKitchen) = Some x
  /\ ReplaceAllStringFunc time24Regex x (timeCallback hl layoutClock) = Some x.
Proof.
  intros H35 H40. repeat split.
  - apply (replace_without _ _ 35); [apply iata_needs_hash | exact H35].
  - apply (replace_without _ _ 35); [apply icao_needs_hash | exact H35].
  - apply (replace_without _ _ 40); [apply date_needs_paren | exact H40].
  - apply (replace_without _ _ 40); [apply time12_needs_paren | exact H40].
  - apply (replace_without _ _ 40); [apply time24_needs_paren | exact H40].
Qed.


Lemma single_token re cb w out :
  w <> [] -> matchLen re w = Some (length w) -> cb w = Some out ->
  ReplaceAllStringFunc re w cb = Some out.
Proof.
  intros Hne Hm Hcb. rewrite <- (app_nil_r w) at 1.
  rewrite replace_match by (rewrite ?app_nil_r; auto). rewrite Hcb. simpl.
  rewrite app_nil_r. reflexivity.
Qed.

Lemma iata_short cb w : (length w < 4)%nat -> ReplaceAllStringFunc iataRegex w cb = Some w.
Proof.
  intros Hl. apply replace_no_match. intros x y ->. rewrite matchLen_iata, iataLen_tests.
  rewrite length_app in Hl. destruct y as [| c0 [| c1 [| c2 [| c3 r]]]]; try reflexivity.
  simpl in Hl. lia.
Qed.

Lemma icao_short cb w : (length w < 6)%nat -> ReplaceAllStringFunc icaoRegex w cb = Some w.
Proof.
  intros Hl. apply replace_no_match. intros x y ->. rewrite matchLen_icao, icaoLen_tests.
  rewrite length_app in Hl.
  destruct y as [| c0 [| c1 [| c2 [| c3 [| c4 [| c5 r]]]]]]; try reflexivity.
  simpl in Hl. lia.
Qed.

Lemma upper_not a k : isUpper a = true -> k < 65 \/ 90 < k -> (a =? k) = false.
Proof.
  unfold isUpper. intros H Hk. apply andb_prop in H as [H1 H2]. apply N.leb_le in H1, H2.
  apply N.eqb_neq. lia.
Qed.


Lemma marks_without k m : k <> 27 -> k <> 91 -> k <> 109 -> (k < 48 \/ 57 < k) ->
  marks m -> forallb (fun c => negb (c =? k)) m = true.
Proof.
  intros H27 H91 H109 Hk. apply marks_runes.
  - apply Bool.negb_true_iff, N.eqb_neq. congruence.
  - apply Bool.negb_true_iff, N.eqb_neq. congruence.
  - apply Bool.negb_true_iff, N.eqb_neq. congruence.
  - intros c Hc. unfold isDigit in Hc. apply andb_prop in Hc as [H1 H2].
    apply N.leb_le in H1, H2. apply Bool.negb_true_iff, N.eqb_neq. lia.
Qed.



(** ** Date and time fields *)

Lemma stamp_not c k : isStamp c = true -> k < 43 \/ 90 < k -> (c =? k) = false.
Proof.
  unfold isStamp, isDigit. intros H Hk. apply N.eqb_neq. intros ->.
  repeat (apply orb_prop in H as [H | H]);
    try (apply N.eqb_eq in H; lia).
  apply andb_prop in H as [H1 H2]. apply N.leb_le in H1, H2. lia.
Qed.

Lemma stamps_without body k :
  forallb isStamp body = true -> k < 43 \/ 90 < k ->
  forallb (fun c => negb (c =? k)) body = true.
Proof.
  intros Hb Hk. apply (forallb_weaken isStamp); [| exact Hb].
  intros c Hc. rewrite (stamp_not c k) by auto. reflexivity.
Qed.

(** After its opening parenthesis a token has no other one. *)
Lemma stamp_no_paren body x r :
  forallb isStamp body = true -> body ++ [41] = x ++ r -> In 40 r -> False.
Proof.
  intros Hb E Hin.
  assert (forallb (fun c => negb (c =? 40)) (body ++ [41]) = true) as H.
  { rewrite forallb_app, (stamps_without body 40) by (auto; lia). reflexivity. }
  rewrite E, forallb_app in H. apply andb_prop in H as [_ H].
  rewrite forallb_forall in H. apply H in Hin. discriminate.
Qed.

(** A date token holds no time token, and a time token of one kind
    none of the other. *)
Lemma date_token_no_time d1 d2 body x r :
  forallb isStamp body = true ->
  str "D(" ++ body ++ str ")" = x ++ 84 :: d1 :: d2 :: 40 :: r -> False.
Proof.
  intros Hb E. change (str "D(") with [68; 40] in E. change (str ")") with [41] in E.
  destruct x as [| x0 [| x1 x]]; try discriminate.
  injection E as _ _ E. apply (stamp_no_paren body x _ Hb E). simpl. auto.
Qed.

Lemma time_token_no_other e1 e2 d1 d2 body x r :
  forallb isStamp body = true -> (e1, e2) <> (d1, d2) -> e1 <> 84 -> e2 <> 84 ->
  [84; e1; e2; 40] ++ body ++ str ")" = x ++ 84 :: d1 :: d2 :: 40 :: r -> False.
Proof.
  intros Hb Hne H1 H2 E. change (str ")") with [41] in E.
  destruct x as [| x0 [| x1 [| x2 [| x3 x]]]]; try discriminate.
  - injection E as <- <- _. congruence.
  - injection E as _ E _. congruence.
  - injection E as _ _ E _. congruence.
  - injection E as _ _ _ _ E. apply (stamp_no_paren body x _ Hb E). simpl. auto.
Qed.

Lemma date_token_time12 hl body :
  forallb isStamp body = true ->
  ReplaceAllStringFunc time12Regex (str "D(" ++ body ++ str ")") (timeCallback hl layoutKitchen)
  = Some (str "D(" ++ body ++ str ")").
Proof.
  intros Hb. apply replace_no_match. intros x y E.
  destruct (matchLen time12Regex y) as [n |] eqn:Em; [| reflexivity].
  destruct (time12_shape y n Em) as (r & ->).
  destruct (date_token_no_time _ _ body x r Hb E).
Qed.

Lemma date_token_time24 hl body :
  forallb isStamp body = true ->
  ReplaceAllStringFunc time24Regex (str "D(" ++ body ++ str ")") (timeCallback hl layoutClock)
  = Some (str "D(" ++ body ++ str ")").
Proof.
  intros Hb. apply replace_no_match. intros x y E.
  destruct (matchLen time24Regex y) as [n |] eqn:Em; [| reflexivity].
  destruct (time24_shape y n Em) as (r & ->).
  destruct (date_token_no_time _ _ body x r Hb E).
Qed.

Lemma time12_token_time24 hl body :
  forallb isStamp body = true ->
  ReplaceAllStringFunc time24Regex (str "T12(" ++ body ++ str ")") (timeCallback hl layoutClock)
  = Some (str "T12(" ++ body ++ str ")").
Proof.
  intros Hb. apply replace_no_match. intros x y E.
  destruct (matchLen time24Regex y) as [n |] eqn:Em; [| reflexivity].
  destruct (time24_shape y n Em) as (r & ->).
  change (str "T12(") with [84; 49; 50; 40] in E.
  destruct (time_token_no_other 49 50 50 52 body x r Hb); auto; congruence.
Qed.

Lemma time24_token_time12 hl body :
  forallb isStamp body = true ->
  ReplaceAllStringFunc time12Regex (str "T24(" ++ body ++ str ")") (timeCallback hl layoutKitchen)
  = Some (str "T24(" ++ body ++ str ")").
Proof.
  intros Hb. apply replace_no_match. intros x y E.
  destruct (matchLen time12Regex y) as [n |] eqn:Em; [| reflexivity].
  destruct (time12_shape y n Em) as (r & ->).
  change (str "T24(") with [84; 50; 52; 40] in E.
  destruct (time_token_no_other 50 52 49 50 body x r Hb); auto; congruence.
Qed.





Lemma digit_not c k : isDigit c = true -> k < 48 \/ 57 < k -> negb (c =? k) = true.
Proof.
  unfold isDigit. intros H Hk. apply andb_prop in H as [H1 H2]. apply N.leb_le in H1, H2.
  apply Bool.negb_true_iff, N.eqb_neq. lia.
Qed.

Lemma letter_not c k : isLetter c = true -> k < 65 \/ 90 < k < 97 \/ 122 < k -> negb (c =? k) = true.
Proof.
  unfold isLetter. intros H Hk. apply Bool.negb_true_iff, N.eqb_neq.
  apply orb_prop in H as [H | H]; apply andb_prop in H as [H1 H2]; apply N.leb_le in H1, H2; lia.
Qed.

Lemma rune_not c k : c <> k -> negb (c =? k) = true.
Proof. intros H. apply Bool.negb_true_iff, N.eqb_neq, H. Qed.

(** The runes a rendering of a date or of a time is free of. *)
Lemma date_text_without t k :
  k < 32 \/ 32 < k < 48 \/ k = 92 -> forallb (fun c => negb (c =? k)) (Format t layoutDate) = true.
Proof.
  intros Hk. apply Format_date_runes.
  - intros c Hc. apply digit_not; [exact Hc | lia].
  - intros c Hc. apply letter_not; [exact Hc | lia].
  - apply rune_not. lia.
Qed.

Lemma time_text_without t layout k :
  layout = layoutKitchen \/ layout = layoutClock ->
  k < 32 \/ 32 < k < 40 \/ k = 84 \/ k = 92 ->
  forallb (fun c => negb (c =? k)) (Format t layout) = true.
Proof.
  intros Hlay Hk. apply Format_time_runes; [exact Hlay | | apply rune_not; lia ..].
  intros c Hc. apply digit_not; [exact Hc | lia].
Qed.

Lemma zoneText_without t k :
  k < 32 \/ 32 < k < 40 \/ k = 84 \/ k = 92 ->
  forallb (fun c => negb (c =? k)) (zoneText t) = true.
Proof.
  intros Hk. destruct (zoneText_shape t) as (sign & h & m & Hs & Hh & Hm & ->).
  rewrite !forallb_app. cbn [forallb].
  rewrite (forallb_weaken isDigit _ h (fun c Hc => digit_not c k Hc ltac:(lia)) Hh).
  rewrite (forallb_weaken isDigit _ m (fun c Hc => digit_not c k Hc ltac:(lia)) Hm).
  rewrite !rune_not by lia. reflexivity.
Qed.

Lemma dateCallback_hit hl body t :
  parseStamp body = Some t ->
  dateCallback hl (str "D(" ++ body ++ str ")")
  = Some (if hl then ColorMagenta ++ Format t layoutDate ++ ColorReset else Format t layoutDate).
Proof.
  intros Hp. unfold dateCallback.
  pose proof (inner_app (str "D(") body 41) as Hi.
  change (length (str "D(")) with 2%nat in Hi. change (str ")") with [41].
  rewrite Hi. simpl. rewrite Hp. destruct hl; reflexivity.
Qed.

Lemma stamps_apart body k :
  forallb isStamp body = true -> k < 40 \/ 90 < k \/ k = 68 ->
  forallb (fun c => negb (c =? k)) body = true.
Proof.
  intros Hb Hk. apply (forallb_weaken isStamp); [| exact Hb].
  intros c Hc. apply rune_not. intros ->. unfold isStamp, isDigit in Hc.
  repeat (apply orb_prop in Hc as [Hc | Hc]); try (apply N.eqb_eq in Hc; lia).
  apply andb_prop in Hc as [Hc1 Hc2]. apply N.leb_le in Hc1, Hc2. lia.
Qed.

Lemma time_rendering_without (hl : bool) t layout k :
  layout = layoutKitchen \/ layout = layoutClock -> k = 84 \/ k = 92 ->
  forallb (fun c => negb (c =? k))
    (if hl then ColorCyan ++ Format t layout ++ ColorReset ++ str " "
                  ++ ColorYellow ++ zoneText t ++ ColorReset
     else Format t layout ++ str " " ++ zoneText t) = true.
Proof.
  intros Hlay Hk. destruct program_marks as (H0 & _ & Hy & _ & Hc).
  change (str " ") with [32].
  pose proof (fun m => marks_without k m ltac:(lia) ltac:(lia) ltac:(lia) ltac:(lia)) as Hm.
  destruct hl; rewrite !forallb_app, ?(Hm _ H0), ?(Hm _ Hy), ?(Hm _ Hc);
    rewrite (time_text_without t layout k), (zoneText_without t k) by (auto; lia);
    cbn [forallb]; rewrite rune_not by lia; reflexivity.
Qed.



(** ** Every simple field, and every simple input *)






Lemma highlight_as_passes st s :
  highlightProcessContent st s = normalizeWhitespace <$> tokenPasses true st s.
Proof.
  unfold highlightProcessContent, tokenPasses, normalizeWhitespace.
  destruct (processAirportCodes st s) as [c |]; [| reflexivity]. simpl.
  destruct (processDatesAndTimes c); reflexivity.
Qed.

Lemma plain_as_passes st s :
  plainProcessContent st s = normalizeWhitespace <$> tokenPasses false st s.
Proof.
  unfold plainProcessContent, tokenPasses, normalizeWhitespace.
  destruct (plainProcessAirportCodes st s) as [c |]; [| reflexivity]. simpl.
  destruct (plainProcessDatesAndTimes c); reflexivity.
Qed.

Lemma directory_in_heap st code a : lookupAirport st code = Some a -> a ∈ heap st.
Proof.
  unfold lookupAirport. destruct (airportMap st !! code) as [p |]; [| discriminate].
  simpl. apply list_elem_of_lookup_2.
Qed.





(** * Further properties of the code *)

Lemma gap_cases r : gap r = [] \/ gap r = [32].
Proof.
  unfold gap. destruct r as [| d r]; [auto |].
  destruct (isSpace d && negb (d =? NL) && negb (blankToEol (d :: r))); auto.
Qed.

Lemma kept_blank c : isSpace c = true -> (c =? NL) = false -> kept c = false.
Proof. intros H1 H2. unfold kept. rewrite H1, H2. reflexivity. Qed.

Lemma kept_solid c : isSpace c = false -> kept c = true.
Proof. intros H. unfold kept. rewrite H. reflexivity. Qed.

Lemma trimHorizontal_kept s :
  List.filter kept (trimHorizontalWhitespace s) = List.filter kept s.
Proof.
  induction s as [| c r IH]; [reflexivity |].
  destruct (N.eqb_spec c NL) as [-> | Hc].
  - rewrite trimHorizontal_newline. cbn [List.filter]. rewrite IH. reflexivity.
  - apply N.eqb_neq in Hc. rewrite trimHorizontal_rune by exact Hc.
    destruct (isSpace c) eqn:Es.
    + cbn [List.filter]. rewrite (kept_blank c Es Hc). exact IH.
    + cbn [List.filter]. rewrite (kept_solid c Es), List.filter_app, IH.
      destruct (gap_cases r) as [-> | ->]; reflexivity.
Qed.

(** X1: The horizontal step only removes, or replaces by a blank, white
    space other than newlines: every other rune, newlines included,
    comes out as it went in, in the same order. *)
Theorem horizontal_keeps_text s :
  List.filter kept (trimHorizontalWhitespace s) = List.filter kept s.
Proof. exact (trimHorizontal_kept s). Qed.
Lemma blanksInside_after_rune s : blanksInside false s = true -> blanksInside true s = true.
Proof.
  destruct s as [| c r]; [reflexivity |]. cbn [blanksInside].
  destruct (isSpace c && negb (c =? NL)); [| auto].
  rewrite Bool.andb_false_r. discriminate.
Qed.

Lemma blanksInside_blank r :
  blanksInside true (32 :: r)
  = match r with d :: _ => negb (isSpace d) | [] => false end && blanksInside false r.
Proof. reflexivity. Qed.

Lemma horizontal_head r :
  blankToEol r = false ->
  exists d t, trimHorizontalWhitespace r = d :: t /\ isSpace d = false.
Proof.
  induction r as [| c r IH]; [discriminate |]. cbn [blankToEol].
  destruct (c =? NL) eqn:Hc; [discriminate |]. intros H.
  rewrite trimHorizontal_rune by exact Hc.
  destruct (isSpace c) eqn:Es; [apply IH, H | eauto].
Qed.

Lemma gap_blank r :
  gap r = [32] ->
  exists d t, trimHorizontalWhitespace r = d :: t /\ isSpace d = false.
Proof.
  unfold gap. destruct r as [| d r]; [discriminate |].
  destruct (isSpace d && negb (d =? NL)); [| discriminate].
  destruct (blankToEol (d :: r)) eqn:E; [discriminate |].
  intros _. apply horizontal_head, E.
Qed.

Lemma trimHorizontal_blanks s :
  blanksInside false (trimHorizontalWhitespace s) = true.
Proof.
  induction s as [| c r IH]; [reflexivity |].
  destruct (N.eqb_spec c NL) as [-> | Hc].
  - rewrite trimHorizontal_newline. exact IH.
  - apply N.eqb_neq in Hc. rewrite trimHorizontal_rune by exact Hc.
    destruct (isSpace c) eqn:Es; [exact IH |].
    cbn [blanksInside]. rewrite Es. cbn [andb negb].
    destruct (gap_cases r) as [E | E].
    + rewrite E. apply blanksInside_after_rune, IH.
    + destruct (gap_blank r E) as (d & t & Et & Hd).
      rewrite E. change ([32] ++ trimHorizontalWhitespace r) with (32 :: trimHorizontalWhitespace r).
      rewrite blanksInside_blank, IH, Et, Hd. reflexivity.
Qed.

(** X2: After the horizontal step the only white space left is newlines and
    single blanks between two runes that are not white space: no line
    starts or ends with a blank, no two blanks are adjacent, and no tab,
    carriage return or other white-space rune remains. *)
Theorem horizontal_leaves_single_blanks s :
  blanksInside false (trimHorizontalWhitespace s) = true.
Proof. exact (trimHorizontal_blanks s). Qed.
Lemma squeeze_noNewline l : noNewline (squeeze l) = true.
Proof.
  unfold noNewline. apply squeeze_runes; [reflexivity |].
  intros c Hc. rewrite (solid_not_newline c Hc). reflexivity.
Qed.

Lemma trimHorizontal_as_lines s :
  trimHorizontalWhitespace s = Join (map squeeze (Split s)) [NL].
Proof. reflexivity. Qed.

(** X3: The horizontal step is idempotent. *)
Theorem horizontal_idempotent s :
  trimHorizontalWhitespace (trimHorizontalWhitespace s) = trimHorizontalWhitespace s.
Proof.
  rewrite (trimHorizontal_as_lines s).
  rewrite trimHorizontal_Join.
  - rewrite map_map. f_equal. apply map_ext. intros l. apply squeeze_idem.
  - pose proof (Split_nonempty s) as H. destruct (Split s); [congruence | discriminate].
  - apply Forall_forall. intros l Hl. apply list_elem_of_In, in_map_iff in Hl as (l0 & <- & _).
    apply squeeze_noNewline.
Qed.
Lemma hasEscape_head c r :
  hasEscape (c :: r) = ((c =? 92) && headIs isRVFLetter r) || hasEscape r.
Proof.
  rewrite hasEscape_cons. destruct r; [| reflexivity].
  cbn [headIs]. rewrite Bool.andb_false_r. reflexivity.
Qed.

Lemma unescape_head s : headIs isRVFLetter (unescape s) = headIs isRVFLetter s.
Proof.
  destruct s as [| c r]; [reflexivity |]. rewrite unescape_cons.
  destruct r as [| d r']; [reflexivity |].
  destruct (N.eqb_spec c 92) as [-> | E]; [| reflexivity].
  destruct (isRVFLetter d); reflexivity.
Qed.

Lemma unescape_clears s : hasEscape (unescape s) = false.
Proof.
  induction s as [s IH] using text_length_ind.
  destruct s as [| c r]; [reflexivity |]. rewrite unescape_cons.
  destruct r as [| d r']; [reflexivity |].
  destruct ((c =? 92) && isRVFLetter d) eqn:E.
  - rewrite hasEscape_head. rewrite IH by (simpl; lia). reflexivity.
  - rewrite hasEscape_head, unescape_head. cbn [headIs]. rewrite E.
    apply IH. simpl. lia.
Qed.

Lemma controlRuns_head s :
  headIs isRVFLetter (controlRuns s) = headIs isRVFLetter s.
Proof.
  induction s as [| c r IH]; [reflexivity |]. rewrite controlRuns_cons.
  destruct (isRVFControl c) eqn:E; [| reflexivity].
  assert (headIs isRVFLetter (c :: r) = false) as ->.
  { cbn [headIs]. unfold isRVFControl in E. unfold isRVFLetter.
    repeat (apply orb_prop in E as [E | E]); apply N.eqb_eq in E; subst; reflexivity. }
  destruct r as [| d r']; [reflexivity |].
  destruct (isRVFControl d) eqn:Ed; [| reflexivity].
  rewrite IH. cbn [headIs]. unfold isRVFControl in Ed. unfold isRVFLetter.
  repeat (apply orb_prop in Ed as [Ed | Ed]); apply N.eqb_eq in Ed; subst; reflexivity.
Qed.

Lemma controlRuns_keeps_clear s : hasEscape s = false -> hasEscape (controlRuns s) = false.
Proof.
  induction s as [| c r IH]; [reflexivity |]. rewrite hasEscape_head, controlRuns_cons.
  intros H. apply Bool.orb_false_iff in H as [Hc Hr]. specialize (IH Hr).
  destruct (isRVFControl c) eqn:E.
  - destruct r as [| d r']; [reflexivity |].
    destruct (isRVFControl d); [exact IH |].
    rewrite hasEscape_head, IH. reflexivity.
  - rewrite hasEscape_head, controlRuns_head, Hc, IH. reflexivity.
Qed.

Lemma collapse_head p s : headIs p (collapseNewlines s) = headIs p s.
Proof.
  induction s as [| c r IH]; [reflexivity |]. rewrite collapseNewlines_cons.
  destruct r as [| d [| e r']]; try reflexivity.
  destruct ((c =? NL) && (d =? NL) && (e =? NL)) eqn:E; [| reflexivity].
  rewrite IH. cbn [headIs].
  apply andb_prop in E as [E _]. apply andb_prop in E as [Ec Ed].
  apply N.eqb_eq in Ec, Ed. subst. reflexivity.
Qed.

Lemma collapse_keeps_clear s : hasEscape s = false -> hasEscape (collapseNewlines s) = false.
Proof.
  induction s as [| c r IH]; [reflexivity |]. rewrite hasEscape_head.
  intros H. apply Bool.orb_false_iff in H as [Hc Hr]. specialize (IH Hr).
  assert (hasEscape (c :: collapseNewlines r) = false) as Hk.
  { rewrite hasEscape_head, collapse_head, Hc, IH. reflexivity. }
  rewrite collapseNewlines_cons.
  destruct r as [| d [| e r']]; try exact Hk.
  destruct ((c =? NL) && (d =? NL) && (e =? NL)); [exact IH | exact Hk].
Qed.

Lemma controlRuns_clears s :
  forallb (fun c => negb (isRVFControl c)) (controlRuns s) = true.
Proof.
  induction s as [| c r IH]; [reflexivity |]. rewrite controlRuns_cons.
  destruct (isRVFControl c) eqn:E.
  - destruct r as [| d r']; [reflexivity |].
    destruct (isRVFControl d); [exact IH |]. cbn [forallb]. rewrite IH. reflexivity.
  - cbn [forallb]. rewrite E, IH. reflexivity.
Qed.

Lemma collapse_keeps q s : forallb q s = true -> forallb q (collapseNewlines s) = true.
Proof.
  induction s as [| c r IH]; [reflexivity |]. cbn [forallb].
  intros H. apply andb_prop in H as [Hc Hr]. specialize (IH Hr).
  assert (forallb q (c :: collapseNewlines r) = true) as Hk
    by (cbn [forallb]; rewrite Hc, IH; reflexivity).
  rewrite collapseNewlines_cons.
  destruct r as [| d [| e r']]; try exact Hk.
  destruct ((c =? NL) && (d =? NL) && (e =? NL)); [exact IH | exact Hk].
Qed.

Lemma trimVertical_tidy s : verticallyTidy (trimVerticalWhitespace s) = true.
Proof.
  rewrite trimVertical_steps. unfold verticallyTidy.
  rewrite collapse_keeps_clear, collapse_keeps, collapse_no_triple; try reflexivity.
  - apply controlRuns_clears.
  - apply controlRuns_keeps_clear, unescape_clears.
Qed.

Lemma trimVertical_fixed s : verticallyTidy s = true -> trimVerticalWhitespace s = s.
Proof.
  unfold verticallyTidy. intros H. apply andb_prop in H as [H H3].
  apply andb_prop in H as [H1 H2].
  apply Bool.negb_true_iff in H1, H3.
  rewrite trimVertical_steps, unescape_no_escape, controlRuns_no_control, collapse_fixed; auto.
Qed.

(** X4: The texts the vertical step leaves unchanged are exactly those
    without an escape sequence, without carriage return, vertical tab
    and form feed, and without three newlines in a row. *)
Theorem vertical_fixed_points s :
  trimVerticalWhitespace s = s <-> verticallyTidy s = true.
Proof.
  split; [| apply trimVertical_fixed].
  intros H. rewrite <- H. apply trimVertical_tidy.
Qed.

(** X5: The vertical step is idempotent on every text. *)
Theorem vertical_idempotent s :
  trimVerticalWhitespace (trimVerticalWhitespace s) = trimVerticalWhitespace s.
Proof. apply trimVertical_fixed, trimVertical_tidy. Qed.
Lemma unescape_keeps q s : q NL = true -> forallb q s = true -> forallb q (unescape s) = true.
Proof.
  intros Hq. induction s as [s IH] using text_length_ind.
  destruct s as [| c r]; [reflexivity |]. rewrite unescape_cons.
  destruct r as [| d r']; [auto |]. cbn [forallb].
  intros H. apply andb_prop in H as [Hc H]. apply andb_prop in H as [Hd Hr].
  destruct ((c =? 92) && isRVFLetter d).
  - cbn [forallb]. rewrite Hq. apply IH; [simpl; lia | exact Hr].
  - cbn [forallb]. rewrite Hc. apply IH; [simpl; lia |]. cbn [forallb]. rewrite Hd, Hr. reflexivity.
Qed.

(** X6: Inside [normalizeWhitespace] the rule for carriage returns, vertical
    tabs and form feeds never applies: the horizontal step has already
    turned them into blanks or dropped them, so only the escape rule and
    the newline rule act. *)
Theorem control_rule_idle_after_horizontal s :
  normalizeWhitespace s
  = ReplaceAllString newlinesRegex
      (ReplaceAllString escapeRegex (trimHorizontalWhitespace s) [NL]) [NL; NL].
Proof.
  unfold normalizeWhitespace, trimVerticalWhitespace.
  rewrite control_step, escape_step, controlRuns_no_control; [reflexivity |].
  apply unescape_keeps; [reflexivity | apply trimHorizontal_no_control].
Qed.

Lemma asBlank_space c : isSpace (asBlank c) = isSpace c.
Proof.
  unfold asBlank. destruct (isSpace c) eqn:E; cbn [andb]; [| exact E].
  destruct (c =? NL); cbn [negb]; [exact E | reflexivity].
Qed.

Lemma asBlank_newline c : (asBlank c =? NL) = (c =? NL).
Proof.
  unfold asBlank. destruct (isSpace c); cbn [andb]; [| reflexivity].
  destruct (c =? NL) eqn:E; cbn [negb]; [exact E | reflexivity].
Qed.

Lemma asBlank_solid c : isSpace c = false -> asBlank c = c.
Proof. intros H. unfold asBlank. rewrite H. reflexivity. Qed.

Lemma blankToEol_asBlank r : blankToEol (map asBlank r) = blankToEol r.
Proof.
  induction r as [| c r IH]; [reflexivity |]. cbn [map blankToEol].
  rewrite asBlank_newline, asBlank_space, IH. reflexivity.
Qed.

Lemma gap_asBlank r : gap (map asBlank r) = gap r.
Proof.
  destruct r as [| d r]; [reflexivity |].
  pose proof (blankToEol_asBlank (d :: r)) as H. cbn [map] in H.
  cbn [map]. unfold gap. rewrite H, asBlank_newline, asBlank_space. reflexivity.
Qed.

(** X7: The horizontal step does not tell the kinds of white space apart:
    replacing every tab, carriage return or other white-space rune that
    is not a newline by a blank does not change its result. *)
Theorem horizontal_reads_white_space_as_blank s :
  trimHorizontalWhitespace (map asBlank s) = trimHorizontalWhitespace s.
Proof.
  induction s as [| c r IH]; [reflexivity |]. cbn [map].
  destruct (c =? NL) eqn:Hc.
  - apply N.eqb_eq in Hc. subst c.
    change (asBlank NL) with NL. rewrite !trimHorizontal_newline, IH. reflexivity.
  - rewrite !trimHorizontal_rune by (rewrite ?asBlank_newline; exact Hc).
    rewrite asBlank_space, IH, gap_asBlank.
    destruct (isSpace c) eqn:Es; [reflexivity |]. rewrite asBlank_solid by exact Es. reflexivity.
Qed.
(** ** Texts without tokens, and the two sides of white space *)

Lemma tokenPasses_inert hl st s :
  forallb (fun c => negb (c =? 35)) s = true -> forallb (fun c => negb (c =? 40)) s = true ->
  tokenPasses hl st s = Some s.
Proof.
  intros H35 H40. destruct (inert_through hl st s H35 H40) as (H1 & H2 & H3 & H4 & H5).
  apply (tokenPasses_steps hl st s s s s s); assumption.
Qed.

(** X8: A text with neither [#] nor [(] holds no token: in both modes, and
    whatever the directory, the output is the input with its white
    space normalised. *)
Theorem text_without_tokens_only_normalised st s :
  forallb (fun c => negb (c =? 35)) s = true -> forallb (fun c => negb (c =? 40)) s = true ->
  plainProcessContent st s = Some (normalizeWhitespace s)
  /\ highlightProcessContent st s = Some (normalizeWhitespace s).
Proof.
  intros H35 H40.
  rewrite plain_as_passes, highlight_as_passes, !tokenPasses_inert by assumption.
  split; reflexivity.
Qed.

Lemma text_without_tokens_only_normalised_witness :
  plainProcessContent sampleState (str "Gate  12 ,  boarding at noon")
  = Some (normalizeWhitespace (str "Gate  12 ,  boarding at noon"))
  /\ highlightProcessContent sampleState (str "Gate  12 ,  boarding at noon")
     = Some (normalizeWhitespace (str "Gate  12 ,  boarding at noon")).
Proof. apply text_without_tokens_only_normalised; reflexivity. Defined.

Lemma spaceHom_bind_form f :
  spaceHom f -> (forall s, is_Some (f s)) ->
  forall x c y, isSpace c = true ->
    f (x ++ c :: y) = x' ← f x; y' ← f y; Some (x' ++ c :: y').
Proof.
  intros Hf Ht x c y Hc.
  destruct (Ht x) as [x' Ex], (Ht y) as [y' Ey]. rewrite Ex, Ey. simpl.
  apply Hf; assumption.
Qed.

Lemma airport_passes_spaceHom st city airport :
  spaceHom (fun s => ReplaceAllStringFunc iataRegex s (airportCallback iataRegex st city airport)
                     ≫= fun s => ReplaceAllStringFunc icaoRegex s
                                   (airportCallback icaoRegex st city airport)).
Proof.
  apply spaceHom_bind; apply spaceHom_replace;
    try reflexivity; intros c Hc; apply (space_stops c Hc).
Qed.

Lemma datesAndTimes_spaceHom hl : spaceHom (datesAndTimes hl).
Proof.
  unfold datesAndTimes.
  apply (spaceHom_bind (fun s => ReplaceAllStringFunc dateRegex s (dateCallback hl))).
  - apply spaceHom_replace; try reflexivity; intros c Hc; apply (space_stops c Hc).
  - apply (spaceHom_bind (fun s => ReplaceAllStringFunc time12Regex s (timeCallback hl layoutKitchen))).
    + apply spaceHom_replace; try reflexivity; intros c Hc; apply (space_stops c Hc).
    + apply spaceHom_replace; try reflexivity; intros c Hc; apply (space_stops c Hc).
Qed.

(** X9: No token spans white space: each of the four token functions
    rewrites the text before a white-space rune and the text after it
    independently, and keeps the rune. *)
Theorem white_space_separates_tokens st x c y :
  isSpace c = true ->
  plainProcessAirportCodes st (x ++ c :: y)
  = (x' ← plainProcessAirportCodes st x; y' ← plainProcessAirportCodes st y; Some (x' ++ c :: y'))
  /\ processAirportCodes st (x ++ c :: y)
     = (x' ← processAirportCodes st x; y' ← processAirportCodes st y; Some (x' ++ c :: y'))
  /\ plainProcessDatesAndTimes (x ++ c :: y)
     = (x' ← plainProcessDatesAndTimes x; y' ← plainProcessDatesAndTimes y; Some (x' ++ c :: y'))
  /\ processDatesAndTimes (x ++ c :: y)
     = (x' ← processDatesAndTimes x; y' ← processDatesAndTimes y; Some (x' ++ c :: y')).
Proof.
  intros Hc. repeat split.
  - apply (spaceHom_bind_form (plainProcessAirportCodes st)); auto.
    + apply airport_passes_spaceHom.
    + intros s. apply airportCodes_total.
  - apply (spaceHom_bind_form (processAirportCodes st)); auto.
    + apply airport_passes_spaceHom.
    + intros s. apply airportCodes_total.
  - apply (spaceHom_bind_form plainProcessDatesAndTimes); auto.
    + apply datesAndTimes_spaceHom.
    + intros s. apply datesAndTimes_total.
  - apply (spaceHom_bind_form processDatesAndTimes); auto.
    + apply datesAndTimes_spaceHom.
    + intros s. apply datesAndTimes_total.
Qed.

Lemma white_space_separates_tokens_witness :
  plainProcessAirportCodes sampleState (str "#JFK" ++ 9 :: str "#LHR")
  = (x' ← plainProcessAirportCodes sampleState (str "#JFK");
     y' ← plainProcessAirportCodes sampleState (str "#LHR"); Some (x' ++ 9 :: y')).
Proof.
  apply (proj1 (white_space_separates_tokens sampleState (str "#JFK") 9 (str "#LHR") eq_refl)).
Defined.
(** ** Directories without a matching entry *)

Lemma scan_text re : forall src k,
  flatten (map pieceText (scan re k src)) = drop k src.
Proof.
  induction src as [| c rest IH]; intros k; [destruct k; reflexivity |].
  cbn [scan]. destruct k as [| k]; [| apply IH].
  destruct (matchLen re (c :: rest)) as [[| n] |] eqn:E.
  - cbn [map pieceText]. unfold flatten in *. cbn [concat]. rewrite (IH 0%nat). reflexivity.
  - cbn [map pieceText]. unfold flatten in *. cbn [concat]. rewrite (IH n).
    change (take (S n) (c :: rest) ++ drop n rest)
      with (take (S n) (c :: rest) ++ drop (S n) (c :: rest)).
    apply take_drop.
  - cbn [map pieceText]. unfold flatten in *. cbn [concat]. rewrite (IH 0%nat). reflexivity.
Qed.

(** A callback that returns every match as it is leaves the text as it is. *)
Lemma replace_self re cb src :
  (forall s n, matchLen re s = Some (S n) -> cb (take (S n) s) = Some (take (S n) s)) ->
  ReplaceAllStringFunc re src cb = Some src.
Proof.
  intros H. unfold ReplaceAllStringFunc.
  assert (forall k, mapM (render cb) (scan re k src) = Some (map pieceText (scan re k src))) as Hm.
  { intros k. pose proof (scan_pieces re src k) as Hp.
    induction (scan re k src) as [| p l IH]; [reflexivity |].
    cbn [mapM map]. rewrite IH by (intros m Hin; apply Hp; right; exact Hin).
    destruct p as [c | m]; [reflexivity |]. cbn [render pieceText].
    destruct (Hp m (or_introl eq_refl)) as (s & n & Hs & ->). rewrite (H s n Hs). reflexivity. }
  rewrite Hm. simpl. rewrite scan_text. reflexivity.
Qed.

Lemma airportCallback_miss re st city airport m :
  (forall code, lookupAirport st code = None) ->
  is_Some (airportCallback re st city airport m) ->
  airportCallback re st city airport m = Some m.
Proof.
  intros Hn. unfold airportCallback.
  destruct (FindStringSubmatch re m) as [groups |]; simpl; [| intros [? [=]]].
  destruct (groups !! 2%nat) as [code |]; simpl; [| intros [? [=]]].
  rewrite Hn. reflexivity.
Qed.

(** X10: With a directory that resolves no code (in particular before any
    table is loaded) the airport passes of both modes return every text
    unchanged. *)
Theorem airport_passes_idle_without_entries st s :
  (forall code, lookupAirport st code = None) ->
  plainProcessAirportCodes st s = Some s /\ processAirportCodes st s = Some s.
Proof.
  intros Hn.
  assert (forall city airport,
            ReplaceAllStringFunc iataRegex s (airportCallback iataRegex st city airport) = Some s
            /\ ReplaceAllStringFunc icaoRegex s (airportCallback icaoRegex st city airport) = Some s)
    as H.
  { intros city airport. split; apply replace_self; intros s' n Hm;
      apply airportCallback_miss; auto;
      [apply iata_callback_total | apply icao_callback_total]; exact Hm. }
  unfold plainProcessAirportCodes, processAirportCodes.
  split.
  - rewrite (proj1 (H plainCity plainAirport)). simpl. apply H.
  - rewrite (proj1 (H highlightCity highlightAirport)). simpl. apply H.
Qed.

Lemma airport_passes_idle_without_entries_witness :
  plainProcessAirportCodes initialState (str "From #JFK to *##EGLL") = Some (str "From #JFK to *##EGLL")
  /\ processAirportCodes initialState (str "From #JFK to *##EGLL") = Some (str "From #JFK to *##EGLL").
Proof.
  apply airport_passes_idle_without_entries. intros code. reflexivity.
Defined.
(** ** Lone airport tokens *)

Lemma star_token_nonempty (star : bool) (w : text) : w <> [] -> (if star then [42] else []) ++ w <> [].
Proof. intros H. destruct star; [discriminate | exact H]. Qed.

Lemma iata_token_pass st city airport (star : bool) a b c :
  isUpper a = true -> isUpper b = true -> isUpper c = true ->
  ReplaceAllStringFunc iataRegex ((if star then [42] else []) ++ [35; a; b; c])
    (airportCallback iataRegex st city airport)
  = Some (resolve st (if star then city else airport) [a; b; c]
            ((if star then [42] else []) ++ [35; a; b; c])).
Proof.
  intros Ha Hb Hc. apply single_token.
  - apply star_token_nonempty. discriminate.
  - destruct star; [apply (iata_star_token_len a b c []) | apply (iata_token_len a b c [])]; auto.
  - destruct (iata_callback st city airport a b c Ha Hb Hc) as [H1 H2].
    destruct star; assumption.
Qed.

Lemma icao_token_pass st city airport (star : bool) a b c d :
  isUpper a = true -> isUpper b = true -> isUpper c = true -> isUpper d = true ->
  ReplaceAllStringFunc icaoRegex ((if star then [42] else []) ++ [35; 35; a; b; c; d])
    (airportCallback icaoRegex st city airport)
  = Some (resolve st (if star then city else airport) [a; b; c; d]
            ((if star then [42] else []) ++ [35; 35; a; b; c; d])).
Proof.
  intros Ha Hb Hc Hd. apply single_token.
  - apply star_token_nonempty. discriminate.
  - destruct star; [apply (icao_star_token_len a b c d []) | apply (icao_token_len a b c d [])]; auto.
  - destruct (icao_callback st city airport a b c d Ha Hb Hc Hd) as [H1 H2].
    destruct star; assumption.
Qed.

Lemma icao_token_first_pass st city airport (star : bool) a b c d :
  isUpper a = true -> isUpper b = true -> isUpper c = true ->
  lookupAirport st [a; b; c] = None ->
  ReplaceAllStringFunc iataRegex ((if star then [42] else []) ++ [35; 35; a; b; c; d])
    (airportCallback iataRegex st city airport)
  = Some ((if star then [42] else []) ++ [35; 35; a; b; c; d]).
Proof.
  intros Ha Hb Hc Hn.
  assert ((if star then [42] else []) ++ [35; 35; a; b; c; d]
          = ((if star then [42] else []) ++ [35]) ++ [35; a; b; c] ++ [d]) as Hw
    by (destruct star; reflexivity).
  rewrite Hw. rewrite (replace_token _ _ _ _ _ [35; a; b; c]).
  - rewrite !iata_short by (destruct star; simpl; lia). reflexivity.
  - apply iata_local. destruct star; discriminate.
  - discriminate.
  - apply (iata_token_len a b c [d]); auto.
  - rewrite (proj1 (iata_callback st _ _ a b c Ha Hb Hc)).
    unfold resolve. rewrite Hn. reflexivity.
Qed.

(** X11: An ICAO token on its own whose first three letters are not a code
    of the directory is replaced by the rendering of its record: the
    name, or with [*] the municipality (the name when that is blank),
    coloured in annotated mode. *)
Theorem icao_token_resolved st (star : bool) a b c d ap :
  isUpper a = true -> isUpper b = true -> isUpper c = true -> isUpper d = true ->
  lookupAirport st [a; b; c] = None ->
  lookupAirport st [a; b; c; d] = Some ap ->
  plainProcessAirportCodes st ((if star then [42] else []) ++ [35; 35; a; b; c; d])
  = Some (if star then plainCity ap else plainAirport ap)
  /\ processAirportCodes st ((if star then [42] else []) ++ [35; 35; a; b; c; d])
     = Some (if star then highlightCity ap else highlightAirport ap).
Proof.
  intros Ha Hb Hc Hd Hn Hl. unfold plainProcessAirportCodes, processAirportCodes.
  rewrite !icao_token_first_pass by assumption. simpl.
  rewrite !icao_token_pass by assumption. unfold resolve. rewrite Hl.
  destruct star; split; reflexivity.
Qed.

Lemma icao_token_resolved_witness :
  plainProcessAirportCodes sampleState (str "*##LFPG") = Some (str "Paris")
  /\ processAirportCodes sampleState (str "*##LFPG")
     = Some (ColorCyan ++ str "Paris" ++ ColorReset).
Proof.
  pose proof (icao_token_resolved sampleState true 76 70 80 71
                (mkAirport (str "Charles de Gaulle Airport") (str "FR") (str "Paris")
                   (str "LFPG") (str "CDG") (str "2.55, 49.0097"))
                eq_refl eq_refl eq_refl eq_refl) as H.
  apply H; vm_compute; reflexivity.
Defined.

(** X12: The text an airport pass inserts is not protected from the passes
    that follow: the rendering of a resolved IATA token is scanned by
    the ICAO pass, so an ICAO token inside a name or a municipality of
    the table is expanded in its turn. *)
Theorem iata_rendering_is_rescanned st (star : bool) a b c ap :
  isUpper a = true -> isUpper b = true -> isUpper c = true ->
  lookupAirport st [a; b; c] = Some ap ->
  plainProcessAirportCodes st ((if star then [42] else []) ++ [35; a; b; c])
  = ReplaceAllStringFunc icaoRegex (if star then plainCity ap else plainAirport ap)
      (airportCallback icaoRegex st plainCity plainAirport)
  /\ processAirportCodes st ((if star then [42] else []) ++ [35; a; b; c])
     = ReplaceAllStringFunc icaoRegex (if star then highlightCity ap else highlightAirport ap)
         (airportCallback icaoRegex st highlightCity highlightAirport).
Proof.
  intros Ha Hb Hc Hl. unfold plainProcessAirportCodes, processAirportCodes.
  rewrite !iata_token_pass by assumption. unfold resolve. rewrite Hl.
  destruct star; split; reflexivity.
Qed.

Lemma iata_rendering_is_rescanned_witness :
  plainProcessAirportCodes nestedState (str "#ANX") = Some (str "Annex of London Heathrow Airport").
Proof.
  pose proof (iata_rendering_is_rescanned nestedState false 65 78 88
                (mkAirport (str "Annex of ##EGLL") (str "GB") (str "   ")
                   (str "EGAX") (str "ANX") (str "0, 0"))
                eq_refl eq_refl eq_refl) as H.
  eapply eq_trans; [exact (proj1 (H ltac:(vm_compute; reflexivity))) | vm_compute; reflexivity].
Defined.

(** X13: With [*] a record whose municipality is empty or blank is rendered
    by its name: the starred token gives what the plain token gives, in
    both modes (green, not cyan, in annotated mode). *)
Theorem star_falls_back_to_name st a b c ap :
  isUpper a = true -> isUpper b = true -> isUpper c = true ->
  lookupAirport st [a; b; c] = Some ap ->
  TrimSpace (Municipality ap) = [] ->
  plainProcessAirportCodes st [42; 35; a; b; c] = plainProcessAirportCodes st [35; a; b; c]
  /\ processAirportCodes st [42; 35; a; b; c] = processAirportCodes st [35; a; b; c].
Proof.
  intros Ha Hb Hc Hl Hm. unfold plainProcessAirportCodes, processAirportCodes.
  rewrite !(iata_token_pass st _ _ true a b c Ha Hb Hc).
  rewrite !(iata_token_pass st _ _ false a b c Ha Hb Hc).
  unfold resolve. rewrite Hl. unfold plainCity, highlightCity, plainAirport, highlightAirport.
  rewrite Hm. split; reflexivity.
Qed.

Lemma star_falls_back_to_name_witness :
  plainProcessAirportCodes nestedState (str "*#ANX") = plainProcessAirportCodes nestedState (str "#ANX")
  /\ processAirportCodes nestedState (str "*#ANX") = processAirportCodes nestedState (str "#ANX").
Proof.
  apply (star_falls_back_to_name nestedState 65 78 88
           (mkAirport (str "Annex of ##EGLL") (str "GB") (str "   ")
              (str "EGAX") (str "ANX") (str "0, 0"))); vm_compute; reflexivity.
Defined.
(** ** Date and time tokens on their own *)

Lemma datesAndTimes_steps hl w c1 c2 c3 :
  ReplaceAllStringFunc dateRegex w (dateCallback hl) = Some c1 ->
  ReplaceAllStringFunc time12Regex c1 (timeCallback hl layoutKitchen) = Some c2 ->
  ReplaceAllStringFunc time24Regex c2 (timeCallback hl layoutClock) = Some c3 ->
  datesAndTimes hl w = Some c3.
Proof. intros H1 H2 H3. unfold datesAndTimes. rewrite H1. simpl. rewrite H2. simpl. exact H3. Qed.

Lemma time_token_without_D d1 d2 body :
  forallb isStamp body = true -> d1 <> 68 -> d2 <> 68 ->
  forallb (fun c => negb (c =? 68)) ([84; d1; d2; 40] ++ body ++ str ")") = true.
Proof.
  intros Hb H1 H2. change (str ")") with [41].
  rewrite !forallb_app. cbn [forallb]. rewrite !rune_not by (auto; lia).
  rewrite (stamps_apart body 68) by auto. reflexivity.
Qed.

Lemma date_token_rendered hl body t :
  forallb isStamp body = true -> (16 <= length body)%nat -> parseStamp body = Some t ->
  datesAndTimes hl (str "D(" ++ body ++ str ")")
  = Some (if hl then ColorMagenta ++ Format t layoutDate ++ ColorReset else Format t layoutDate).
Proof.
  intros Hb Hl Hp.
  pose proof (date_token_len body [] Hb Hl) as Hm. rewrite app_nil_r in Hm.
  destruct program_marks as (H0 & _ & _ & Hmag & _).
  assert (forallb (fun c => negb (c =? 40))
            (if hl then ColorMagenta ++ Format t layoutDate ++ ColorReset else Format t layoutDate)
          = true) as H40.
  { destruct hl; [| apply date_text_without; lia].
    rewrite !forallb_app, !(marks_without 40), (date_text_without t 40) by (auto; lia).
    reflexivity. }
  eapply datesAndTimes_steps.
  - apply single_token; [discriminate | exact Hm | apply dateCallback_hit, Hp].
  - apply (replace_without _ _ 40); [apply time12_needs_paren | exact H40].
  - apply (replace_without _ _ 40); [apply time24_needs_paren | exact H40].
Qed.

Lemma time12_token_rendered hl body t :
  forallb isStamp body = true -> (16 <= length body)%nat -> parseStamp body = Some t ->
  datesAndTimes hl (str "T12(" ++ body ++ str ")")
  = Some (if hl then ColorCyan ++ Format t layoutKitchen ++ ColorReset ++ str " "
                       ++ ColorYellow ++ zoneText t ++ ColorReset
          else Format t layoutKitchen ++ str " " ++ zoneText t).
Proof.
  intros Hb Hl Hp.
  pose proof (time12_token_len body [] Hb Hl) as Hm. rewrite app_nil_r in Hm.
  eapply datesAndTimes_steps.
  - apply (replace_without _ _ 68); [apply date_needs_D |].
    apply (time_token_without_D 49 50); auto; lia.
  - apply single_token; [discriminate | exact Hm |].
    apply (timeCallback_hit hl layoutKitchen 49 50 body t Hp).
  - apply (replace_without _ _ 84); [apply time24_needs_T |].
    apply time_rendering_without; auto.
Qed.

Lemma time24_token_rendered hl body t :
  forallb isStamp body = true -> (16 <= length body)%nat -> parseStamp body = Some t ->
  datesAndTimes hl (str "T24(" ++ body ++ str ")")
  = Some (if hl then ColorCyan ++ Format t layoutClock ++ ColorReset ++ str " "
                       ++ ColorYellow ++ zoneText t ++ ColorReset
          else Format t layoutClock ++ str " " ++ zoneText t).
Proof.
  intros Hb Hl Hp.
  pose proof (time24_token_len body [] Hb Hl) as Hm. rewrite app_nil_r in Hm.
  eapply datesAndTimes_steps.
  - apply (replace_without _ _ 68); [apply date_needs_D |].
    apply (time_token_without_D 50 52); auto; lia.
  - apply time24_token_time12, Hb.
  - apply single_token; [discriminate | exact Hm |].
    apply (timeCallback_hit hl layoutClock 50 52 body t Hp).
Qed.

Lemma stamp_token_unparsed hl body :
  forallb isStamp body = true -> (16 <= length body)%nat -> parseStamp body = None ->
  datesAndTimes hl (str "D(" ++ body ++ str ")") = Some (str "D(" ++ body ++ str ")")
  /\ datesAndTimes hl (str "T12(" ++ body ++ str ")") = Some (str "T12(" ++ body ++ str ")")
  /\ datesAndTimes hl (str "T24(" ++ body ++ str ")") = Some (str "T24(" ++ body ++ str ")").
Proof.
  intros Hb Hl Hp.
  pose proof (date_token_len body [] Hb Hl) as Hd. rewrite app_nil_r in Hd.
  pose proof (time12_token_len body [] Hb Hl) as H12. rewrite app_nil_r in H12.
  pose proof (time24_token_len body [] Hb Hl) as H24. rewrite app_nil_r in H24.
  split; [| split].
  - eapply datesAndTimes_steps.
    + apply single_token; [discriminate | exact Hd | apply dateCallback_miss, Hp].
    + apply date_token_time12, Hb.
    + apply date_token_time24, Hb.
  - eapply datesAndTimes_steps.
    + apply (replace_without _ _ 68); [apply date_needs_D |].
      apply (time_token_without_D 49 50); auto; lia.
    + apply single_token; [discriminate | exact H12 |].
      apply (timeCallback_miss hl layoutKitchen 49 50), Hp.
    + apply time12_token_time24, Hb.
  - eapply datesAndTimes_steps.
    + apply (replace_without _ _ 68); [apply date_needs_D |].
      apply (time_token_without_D 50 52); auto; lia.
    + apply time24_token_time12, Hb.
    + apply single_token; [discriminate | exact H24 |].
      apply (timeCallback_miss hl layoutClock 50 52), Hp.
Qed.
Lemma stampTail_short n body post :
  forallb isStamp body = true -> (length body < 16)%nat -> stampTail n (body ++ 41 :: post) = None.
Proof.
  intros Hb Hl. unfold stampTail. rewrite (run_app_stop isStamp body 41 post Hb eq_refl).
  destruct (Nat.leb_spec 16 (length body)); [lia | reflexivity].
Qed.

Lemma short_date_token re cb body :
  (forall y n, matchLen re y = Some n ->
     (exists r, y = 68 :: 40 :: r) \/ (exists d1 d2 r, y = 84 :: d1 :: d2 :: 40 :: r)) ->
  (forall r, matchLen re (68 :: 40 :: r) = None \/ matchLen re (68 :: 40 :: r) = stampTail 2 r) ->
  forallb isStamp body = true -> (length body < 16)%nat ->
  ReplaceAllStringFunc re (str "D(" ++ body ++ str ")") cb = Some (str "D(" ++ body ++ str ")").
Proof.
  intros Hshape Hlen Hb Hl. apply replace_no_match. intros x y E.
  destruct (matchLen re y) as [n |] eqn:Em; [| reflexivity]. exfalso.
  change (str "D(") with [68; 40] in E. change (str ")") with [41] in E.
  destruct (Hshape y n Em) as [(r & ->) | (d1 & d2 & r & ->)].
  - destruct x as [| x0 [| x1 x]].
    + injection E as <-.
      destruct (Hlen (body ++ [41])) as [Hn | Hn]; rewrite Hn in Em; [discriminate |].
      rewrite stampTail_short in Em by auto. discriminate.
    + discriminate.
    + injection E as _ _ E. apply (stamp_no_paren body x _ Hb E). simpl. auto.
  - apply (date_token_no_time d1 d2 body x r Hb E).
Qed.

Lemma short_time_token re cb e1 e2 body :
  (forall y n, matchLen re y = Some n ->
     (exists r, y = 68 :: 40 :: r) \/ (exists d1 d2 r, y = 84 :: d1 :: d2 :: 40 :: r)) ->
  (forall r, matchLen re (84 :: e1 :: e2 :: 40 :: r) = None
             \/ matchLen re (84 :: e1 :: e2 :: 40 :: r) = stampTail 4 r) ->
  forallb isStamp body = true -> (length body < 16)%nat ->
  isDigit e1 = true -> isDigit e2 = true ->
  ReplaceAllStringFunc re ([84; e1; e2; 40] ++ body ++ str ")") cb
  = Some ([84; e1; e2; 40] ++ body ++ str ")").
Proof.
  intros Hshape Hlen Hb Hl H1 H2. apply replace_no_match. intros x y E.
  destruct (matchLen re y) as [n |] eqn:Em; [| reflexivity]. exfalso.
  change (str ")") with [41] in E.
  destruct (Hshape y n Em) as [(r & ->) | (d1 & d2 & r & ->)].
  - destruct x as [| x0 [| x1 [| x2 [| x3 x]]]];
      try (injection E; intros; subst; discriminate).
    injection E as _ _ _ _ E. apply (stamp_no_paren body x _ Hb E). simpl. auto.
  - destruct x as [| x0 [| x1 [| x2 [| x3 x]]]];
      try (injection E; intros; subst; discriminate).
    + injection E as <- <- <-.
      destruct (Hlen (body ++ [41])) as [Hn | Hn]; rewrite Hn in Em; [discriminate |].
      rewrite stampTail_short in Em by auto. discriminate.
    + injection E as _ _ _ _ E. apply (stamp_no_paren body x _ Hb E). simpl. auto.
Qed.

Lemma date_shapes y n :
  matchLen dateRegex y = Some n ->
  (exists r, y = 68 :: 40 :: r) \/ (exists d1 d2 r, y = 84 :: d1 :: d2 :: 40 :: r).
Proof. intros H. left. apply (date_shape y n H). Qed.

Lemma time12_shapes y n :
  matchLen time12Regex y = Some n ->
  (exists r, y = 68 :: 40 :: r) \/ (exists d1 d2 r, y = 84 :: d1 :: d2 :: 40 :: r).
Proof. intros H. right. destruct (time12_shape y n H) as (r & ->). eauto. Qed.

Lemma time24_shapes y n :
  matchLen time24Regex y = Some n ->
  (exists r, y = 68 :: 40 :: r) \/ (exists d1 d2 r, y = 84 :: d1 :: d2 :: 40 :: r).
Proof. intros H. right. destruct (time24_shape y n H) as (r & ->). eauto. Qed.

Lemma time_regex_on_token re e1 e2 r :
  re = dateRegex \/ re = time12Regex \/ re = time24Regex ->
  isDigit e1 = true -> isDigit e2 = true ->
  matchLen re (84 :: e1 :: e2 :: 40 :: r) = None
  \/ matchLen re (84 :: e1 :: e2 :: 40 :: r) = stampTail 4 r.
Proof.
  intros [-> | [-> | ->]] H1 H2.
  - left. rewrite matchLen_date. reflexivity.
  - rewrite matchLen_time12. unfold time12Len.
    destruct (N.eqb_spec e1 49) as [-> | E1]; [| left; bits e1; try reflexivity; congruence].
    destruct (N.eqb_spec e2 50) as [-> | E2]; [| left; bits e2; try reflexivity; congruence].
    right. reflexivity.
  - rewrite matchLen_time24. unfold time24Len.
    destruct (N.eqb_spec e1 50) as [-> | E1]; [| left; bits e1; try reflexivity; congruence].
    destruct (N.eqb_spec e2 52) as [-> | E2]; [| left; bits e2; try reflexivity; congruence].
    right. reflexivity.
Qed.

Lemma stamp_token_short hl body :
  forallb isStamp body = true -> (length body < 16)%nat ->
  datesAndTimes hl (str "D(" ++ body ++ str ")") = Some (str "D(" ++ body ++ str ")")
  /\ datesAndTimes hl (str "T12(" ++ body ++ str ")") = Some (str "T12(" ++ body ++ str ")")
  /\ datesAndTimes hl (str "T24(" ++ body ++ str ")") = Some (str "T24(" ++ body ++ str ")").
Proof.
  intros Hb Hl.
  assert (forall re cb, re = dateRegex \/ re = time12Regex \/ re = time24Regex ->
            ReplaceAllStringFunc re (str "D(" ++ body ++ str ")") cb
            = Some (str "D(" ++ body ++ str ")")) as HD.
  { intros re cb [-> | [-> | ->]].
    - apply (short_date_token _ _ body date_shapes); [| exact Hb | exact Hl].
      intros r. right. rewrite matchLen_date. reflexivity.
    - apply (short_date_token _ _ body time12_shapes); [| exact Hb | exact Hl].
      intros r. left. rewrite matchLen_time12. reflexivity.
    - apply (short_date_token _ _ body time24_shapes); [| exact Hb | exact Hl].
      intros r. left. rewrite matchLen_time24. reflexivity. }
  assert (forall re cb e1 e2, re = dateRegex \/ re = time12Regex \/ re = time24Regex ->
            isDigit e1 = true -> isDigit e2 = true ->
            ReplaceAllStringFunc re ([84; e1; e2; 40] ++ body ++ str ")") cb
            = Some ([84; e1; e2; 40] ++ body ++ str ")")) as HT.
  { intros re cb e1 e2 Hre H1 H2.
    apply short_time_token; [| | exact Hb | exact Hl | exact H1 | exact H2].
    - destruct Hre as [-> | [-> | ->]];
        [apply date_shapes | apply time12_shapes | apply time24_shapes].
    - intros r. apply time_regex_on_token; assumption. }
  split; [| split].
  - eapply datesAndTimes_steps; apply HD; auto.
  - change (str "T12(") with [84; 49; 50; 40].
    eapply datesAndTimes_steps; apply HT; auto.
  - change (str "T24(") with [84; 50; 52; 40].
    eapply datesAndTimes_steps; apply HT; auto.
Qed.
Lemma getnum_length s fixed n r :
  getnum s fixed = Some (n, r) ->
  length s = (2 + length r)%nat \/ (fixed = false /\ length s = (1 + length r)%nat).
Proof.
  unfold getnum. destruct s as [| c0 [| c1 s]]; [discriminate | |].
  - destruct (isDigit c0); [| discriminate]. destruct fixed; [discriminate |].
    intros [= _ <-]. right. auto.
  - destruct (isDigit c0); [| discriminate]. destruct (isDigit c1).
    + intros [= _ <-]. left. reflexivity.
    + destruct fixed; [discriminate |]. intros [= _ <-]. right. auto.
Qed.

Lemma parseItem_length it p value p' value' :
  parseItem it p value = Some (p', value') ->
  exists n, itemWidth it n /\ length value = (n + length value')%nat.
Proof.
  destruct it; cbn [parseItem itemWidth].
  - destruct value as [| a [| b [| c [| d value0]]]]; try discriminate.
    destruct (isDigit a && isDigit b && isDigit c && isDigit d); [| discriminate].
    intros [= _ <-]. exists 4%nat. auto.
  - destruct (getnum value true) as [[n r] |] eqn:E; [| discriminate]. cbn [mbind option_bind].
    destruct ((n =? 0) || (12 <? n)); [discriminate |]. intros [= _ <-].
    apply getnum_length in E as [E | [[=] _]]. exists 2%nat. auto.
  - destruct (getnum value true) as [[n r] |] eqn:E; [| discriminate]. cbn [mbind option_bind].
    intros [= _ <-]. apply getnum_length in E as [E | [[=] _]]. exists 2%nat. auto.
  - destruct (getnum value false) as [[n r] |] eqn:E; [| discriminate]. cbn [mbind option_bind].
    destruct (24 <=? n); [discriminate |]. intros [= _ <-].
    apply getnum_length in E as [E | [_ E]]; [exists 2%nat | exists 1%nat]; auto.
  - destruct (getnum value true) as [[n r] |] eqn:E; [| discriminate]. cbn [mbind option_bind].
    destruct (60 <=? n); [discriminate |]. intros [= _ <-].
    apply getnum_length in E as [E | [[=] _]]. exists 2%nat. auto.
  - destruct value as [| sign [| h1 [| h2 [| colon [| m1 [| m2 value0]]]]]]; try discriminate.
    destruct (negb (colon =? 58)); [discriminate |].
    destruct (getnum [h1; h2] true) as [[hr ?] |]; [| discriminate]. cbn [mbind option_bind].
    destruct (getnum [m1; m2] true) as [[mm ?] |]; [| discriminate]. cbn [mbind option_bind].
    destruct ((24 <? hr) || (60 <? mm)); [discriminate |].
    destruct (sign =? 43); [intros [= _ <-]; exists 6%nat; auto |].
    destruct (sign =? 45); [intros [= _ <-]; exists 6%nat; auto | discriminate].
  - destruct value as [| v value0]; [discriminate |].
    destruct (v =? c); [| discriminate]. intros [= _ <-]. exists 1%nat. auto.
Qed.

Lemma parseItems_length layout : forall p value p',
  parseItems layout p value = Some p' ->
  exists ns, Forall2 itemWidth layout ns /\ length value = foldr Nat.add 0%nat ns.
Proof.
  induction layout as [| it layout IH]; intros p value p'; cbn [parseItems].
  - destruct value; [| discriminate]. intros _. exists []. split; [constructor | reflexivity].
  - destruct (parseItem it p value) as [[p1 v1] |] eqn:E; [| discriminate]. simpl.
    intros H. apply IH in H as (ns & Hns & Hl).
    apply parseItem_length in E as (n & Hn & E).
    exists (n :: ns). split; [constructor; assumption |]. simpl. lia.
Qed.

Lemma Parse_length layout value t :
  Parse layout value = Some t ->
  exists ns, Forall2 itemWidth layout ns /\ length value = foldr Nat.add 0%nat ns.
Proof.
  unfold Parse. destruct (parseItems layout _ value) as [p |] eqn:E; [| discriminate].
  intros _. eapply parseItems_length, E.
Qed.

Ltac widths H :=
  repeat match type of H with
         | Forall2 _ (_ :: _) _ =>
             let n := fresh "n" in let ns := fresh "ns" in
             let Hn := fresh "Hn" in let Hs := fresh "Hs" in
             apply Forall2_cons_inv_l in H as (n & ns & Hn & Hs & ->);
             cbn [itemWidth] in Hn; rename Hs into H
         | Forall2 _ [] _ => apply Forall2_nil_inv_l in H as ->
         end.

(** A stamp either layout accepts has 16 or 17 runes (ending in [Z]) or
    21 or 22 runes (ending in an offset). *)
Lemma parseStamp_length value t :
  parseStamp value = Some t ->
  length value = 16%nat \/ length value = 17%nat \/ length value = 21%nat \/ length value = 22%nat.
Proof.
  unfold parseStamp. destruct (Parse layoutUTC value) as [t0 |] eqn:E.
  - intros _. apply Parse_length in E as (ns & H & Hl). unfold layoutUTC in H.
    widths H. simpl in Hl. lia.
  - intros E'. apply Parse_length in E' as (ns & H & Hl). unfold layoutOffset in H.
    widths H. simpl in Hl. lia.
Qed.

(** X14: A date or time token whose stamp is not 16, 17, 21 or 22 runes long
    is never replaced: below 16 runes the pattern does not match, and
    no other length is accepted by either layout (so a stamp with
    seconds, such as [2025-03-15T14:30:00Z], stays as it is). *)
Theorem stamp_of_other_length_is_kept hl body :
  forallb isStamp body = true ->
  length body <> 16%nat -> length body <> 17%nat ->
  length body <> 21%nat -> length body <> 22%nat ->
  datesAndTimes hl (str "D(" ++ body ++ str ")") = Some (str "D(" ++ body ++ str ")")
  /\ datesAndTimes hl (str "T12(" ++ body ++ str ")") = Some (str "T12(" ++ body ++ str ")")
  /\ datesAndTimes hl (str "T24(" ++ body ++ str ")") = Some (str "T24(" ++ body ++ str ")").
Proof.
  intros Hb H16 H17 H21 H22.
  destruct (Nat.lt_ge_cases (length body) 16) as [Hs | Hs].
  - apply stamp_token_short; assumption.
  - apply stamp_token_unparsed; [assumption | assumption |].
    destruct (parseStamp body) as [t |] eqn:E; [| reflexivity].
    apply parseStamp_length in E. lia.
Qed.

Lemma stamp_of_other_length_is_kept_witness :
  datesAndTimes false (str "D(2025-03-15T14:30:00Z)") = Some (str "D(2025-03-15T14:30:00Z)")
  /\ datesAndTimes false (str "T12(2025-03-15T14:30:00Z)") = Some (str "T12(2025-03-15T14:30:00Z)")
  /\ datesAndTimes false (str "T24(2025-03-15T14:30:00Z)") = Some (str "T24(2025-03-15T14:30:00Z)").
Proof.
  apply (stamp_of_other_length_is_kept false (str "2025-03-15T14:30:00Z"));
    [reflexivity | simpl; lia ..].
Defined.
(** ** Stamps as they are written *)

Lemma two_digits_table :
  forallb (fun k => match appendInt (N.of_nat k) 2 with
                    | [a; b] => isDigit a && isDigit b && (digitVal a * 10 + digitVal b =? N.of_nat k)
                    | _ => false
                    end) (seq 0 100) = true.
Proof. vm_compute. reflexivity. Qed.

Lemma four_digits_table :
  forallb (fun q => forallb (fun r =>
    match appendInt (N.of_nat q * 100 + N.of_nat r) 4 with
    | [a; b; c; d] =>
        isDigit a && isDigit b && isDigit c && isDigit d
        && (((digitVal a * 10 + digitVal b) * 10 + digitVal c) * 10 + digitVal d
            =? N.of_nat q * 100 + N.of_nat r)
    | _ => false
    end) (seq 0 100)) (seq 0 100) = true.
Proof. vm_compute. reflexivity. Qed.

Lemma two_digits n : n < 100 ->
  exists a b, appendInt n 2 = [a; b] /\ isDigit a = true /\ isDigit b = true
              /\ digitVal a * 10 + digitVal b = n.
Proof.
  intros Hn. pose proof two_digits_table as H. rewrite forallb_forall in H.
  specialize (H (N.to_nat n)). rewrite N2Nat.id in H.
  assert (In (N.to_nat n) (seq 0 100)) as Hin by (apply in_seq; lia).
  apply H in Hin. destruct (appendInt n 2) as [| a [| b [| ? ?]]]; try discriminate.
  apply andb_prop in Hin as [Hin H3]. apply andb_prop in Hin as [H1 H2].
  apply N.eqb_eq in H3. eauto 6.
Qed.

Lemma four_digits n : n < 10000 ->
  exists a b c d, appendInt n 4 = [a; b; c; d]
    /\ isDigit a = true /\ isDigit b = true /\ isDigit c = true /\ isDigit d = true
    /\ ((digitVal a * 10 + digitVal b) * 10 + digitVal c) * 10 + digitVal d = n.
Proof.
  intros Hn. pose proof four_digits_table as H. rewrite forallb_forall in H.
  pose proof (N.Div0.div_mod n 100) as Hdm.
  assert (n mod 100 < 100) as Hr by (apply N.mod_lt; discriminate).
  remember (n / 100) as q eqn:Eq. remember (n mod 100) as r eqn:Er.
  assert (q < 100) as Hq by lia.
  specialize (H (N.to_nat q)).
  assert (In (N.to_nat q) (seq 0 100)) as Hin by (apply in_seq; lia).
  apply H in Hin. rewrite forallb_forall in Hin.
  specialize (Hin (N.to_nat r)).
  assert (In (N.to_nat r) (seq 0 100)) as Hin' by (apply in_seq; lia).
  apply Hin in Hin'. rewrite !N2Nat.id in Hin'.
  replace (q * 100 + r) with n in Hin' by lia.
  destruct (appendInt n 4) as [| a [| b [| c [| d [| ? ?]]]]]; try discriminate.
  apply andb_prop in Hin' as [Hin' H5]. apply andb_prop in Hin' as [Hin' H4].
  apply andb_prop in Hin' as [Hin' H3]. apply andb_prop in Hin' as [H1 H2].
  apply N.eqb_eq in H5. exists a, b, c, d. auto 10.
Qed.
Lemma getnum_two a b r fixed :
  isDigit a = true -> isDigit b = true ->
  getnum (a :: b :: r) fixed = Some (digitVal a * 10 + digitVal b, r).
Proof. intros Ha Hb. unfold getnum. rewrite Ha, Hb. reflexivity. Qed.

Lemma parseItems_clock y1 y2 y3 y4 m1 m2 d1 d2 h1 h2 i1 i2 tail rest p :
  isDigit y1 = true -> isDigit y2 = true -> isDigit y3 = true -> isDigit y4 = true ->
  isDigit m1 = true -> isDigit m2 = true -> isDigit d1 = true -> isDigit d2 = true ->
  isDigit h1 = true -> isDigit h2 = true -> isDigit i1 = true -> isDigit i2 = true ->
  let y := ((digitVal y1 * 10 + digitVal y2) * 10 + digitVal y3) * 10 + digitVal y4 in
  let mo := digitVal m1 * 10 + digitVal m2 in
  let d := digitVal d1 * 10 + digitVal d2 in
  let h := digitVal h1 * 10 + digitVal h2 in
  let mi := digitVal i1 * 10 + digitVal i2 in
  parseItems ([PLongYear; PLit 45; PZeroMonth; PLit 45; PZeroDay; PLit 84; PHour; PLit 58;
               PZeroMinute] ++ tail) p
    ([y1; y2; y3; y4; 45; m1; m2; 45; d1; d2; 84; h1; h2; 58; i1; i2] ++ rest)
  = if (mo =? 0) || (12 <? mo) then None
    else if 24 <=? h then None
    else if 60 <=? mi then None
    else parseItems tail (mkParsed y mo d h mi (zoneOffset p)) rest.
Proof.
  intros Hy1 Hy2 Hy3 Hy4 Hm1 Hm2 Hd1 Hd2 Hh1 Hh2 Hi1 Hi2 y mo d h mi.
  cbn [app parseItems parseItem]. rewrite Hy1, Hy2, Hy3, Hy4.
  cbn [andb mbind option_bind]. rewrite N.eqb_refl. cbn [mbind option_bind parseItems parseItem].
  rewrite (getnum_two m1 m2) by assumption. cbn [mbind option_bind].
  fold mo. destruct ((mo =? 0) || (12 <? mo)); [reflexivity |].
  cbn [mbind option_bind parseItems parseItem]. rewrite N.eqb_refl.
  cbn [mbind option_bind parseItems parseItem].
  rewrite (getnum_two d1 d2) by assumption. cbn [mbind option_bind parseItems parseItem].
  rewrite N.eqb_refl. cbn [mbind option_bind parseItems parseItem].
  rewrite (getnum_two h1 h2) by assumption. cbn [mbind option_bind].
  fold h. destruct (24 <=? h); [reflexivity |].
  cbn [mbind option_bind parseItems parseItem]. rewrite N.eqb_refl.
  cbn [mbind option_bind parseItems parseItem].
  rewrite (getnum_two i1 i2) by assumption. cbn [mbind option_bind].
  fold mi. destruct (60 <=? mi); [reflexivity |].
  cbn [mbind option_bind pYear pMonth pDay pHour pMin zoneOffset]. reflexivity.
Qed.
Lemma validClock_checks y mo d h mi (A : Type) (yes : A) (no : A) :
  (if (mo =? 0) || (12 <? mo) then no
   else if 24 <=? h then no
   else if 60 <=? mi then no
   else if (d <? 1) || (daysIn mo y <? d) then no else yes)
  = if validClock y mo d h mi then yes else no.
Proof.
  unfold validClock.
  destruct (N.eqb_spec mo 0), (N.ltb_spec 12 mo), (N.leb_spec 24 h), (N.leb_spec 60 mi),
    (N.ltb_spec d 1), (N.ltb_spec (daysIn mo y) d), (N.leb_spec 1 mo), (N.leb_spec mo 12),
    (N.leb_spec 1 d), (N.leb_spec d (daysIn mo y)), (N.ltb_spec h 24), (N.ltb_spec mi 60);
    cbn [orb andb]; try reflexivity; lia.
Qed.

Lemma Parse_UTC_digits y1 y2 y3 y4 m1 m2 d1 d2 h1 h2 i1 i2 :
  isDigit y1 = true -> isDigit y2 = true -> isDigit y3 = true -> isDigit y4 = true ->
  isDigit m1 = true -> isDigit m2 = true -> isDigit d1 = true -> isDigit d2 = true ->
  isDigit h1 = true -> isDigit h2 = true -> isDigit i1 = true -> isDigit i2 = true ->
  let y := ((digitVal y1 * 10 + digitVal y2) * 10 + digitVal y3) * 10 + digitVal y4 in
  let mo := digitVal m1 * 10 + digitVal m2 in
  let d := digitVal d1 * 10 + digitVal d2 in
  let h := digitVal h1 * 10 + digitVal h2 in
  let mi := digitVal i1 * 10 + digitVal i2 in
  Parse layoutUTC ([y1; y2; y3; y4; 45; m1; m2; 45; d1; d2; 84; h1; h2; 58; i1; i2] ++ [90])
  = if validClock y mo d h mi then Some (mkTime y mo d h mi 0) else None.
Proof.
  intros Hy1 Hy2 Hy3 Hy4 Hm1 Hm2 Hd1 Hd2 Hh1 Hh2 Hi1 Hi2 y mo d h mi.
  rewrite <- validClock_checks. unfold Parse.
  change layoutUTC with ([PLongYear; PLit 45; PZeroMonth; PLit 45; PZeroDay; PLit 84; PHour;
                          PLit 58; PZeroMinute] ++ [PLit 90]).
  rewrite parseItems_clock by assumption. fold y mo d h mi.
  destruct ((mo =? 0) || (12 <? mo)); [reflexivity |].
  destruct (24 <=? h); [reflexivity |]. destruct (60 <=? mi); [reflexivity |].
  cbn [parseItems parseItem mbind option_bind]. rewrite N.eqb_refl.
  cbn [mbind option_bind isEmpty pYear pMonth pDay pHour pMin zoneOffset default].
  destruct ((d <? 1) || (daysIn mo y <? d)); reflexivity.
Qed.

Lemma Parse_offset_digits y1 y2 y3 y4 m1 m2 d1 d2 h1 h2 i1 i2 (west : bool) o1 o2 o3 o4 :
  isDigit y1 = true -> isDigit y2 = true -> isDigit y3 = true -> isDigit y4 = true ->
  isDigit m1 = true -> isDigit m2 = true -> isDigit d1 = true -> isDigit d2 = true ->
  isDigit h1 = true -> isDigit h2 = true -> isDigit i1 = true -> isDigit i2 = true ->
  isDigit o1 = true -> isDigit o2 = true -> isDigit o3 = true -> isDigit o4 = true ->
  let y := ((digitVal y1 * 10 + digitVal y2) * 10 + digitVal y3) * 10 + digitVal y4 in
  let mo := digitVal m1 * 10 + digitVal m2 in
  let d := digitVal d1 * 10 + digitVal d2 in
  let h := digitVal h1 * 10 + digitVal h2 in
  let mi := digitVal i1 * 10 + digitVal i2 in
  let oh := digitVal o1 * 10 + digitVal o2 in
  let om := digitVal o3 * 10 + digitVal o4 in
  let stamp := [y1; y2; y3; y4; 45; m1; m2; 45; d1; d2; 84; h1; h2; 58; i1; i2]
               ++ [if west then 45 else 43; o1; o2; 58; o3; o4] in
  oh <= 24 -> om <= 60 ->
  Parse layoutUTC stamp = None
  /\ Parse layoutOffset stamp
     = if validClock y mo d h mi
       then Some (mkTime y mo d h mi
                    (if west then - Z.of_N ((oh * 60 + om) * 60) else Z.of_N ((oh * 60 + om) * 60))%Z)
       else None.
Proof.
  intros Hy1 Hy2 Hy3 Hy4 Hm1 Hm2 Hd1 Hd2 Hh1 Hh2 Hi1 Hi2 Ho1 Ho2 Ho3 Ho4
    y mo d h mi oh om stamp Hoh Hom.
  split.
  - unfold Parse, stamp.
    change layoutUTC with ([PLongYear; PLit 45; PZeroMonth; PLit 45; PZeroDay; PLit 84; PHour;
                            PLit 58; PZeroMinute] ++ [PLit 90]).
    rewrite parseItems_clock by assumption.
    destruct (_ || _); [reflexivity |]. destruct (24 <=? _); [reflexivity |].
    destruct (60 <=? _); [reflexivity |].
    cbn [parseItems parseItem mbind option_bind]. destruct west; reflexivity.
  - rewrite <- validClock_checks. unfold Parse, stamp.
    change layoutOffset with ([PLongYear; PLit 45; PZeroMonth; PLit 45; PZeroDay; PLit 84; PHour;
                               PLit 58; PZeroMinute] ++ [PNumColonTZ]).
    rewrite parseItems_clock by assumption. fold y mo d h mi.
    destruct ((mo =? 0) || (12 <? mo)); [reflexivity |].
    destruct (24 <=? h); [reflexivity |]. destruct (60 <=? mi); [reflexivity |].
    cbn [parseItems parseItem mbind option_bind]. rewrite N.eqb_refl. cbn [negb].
    rewrite (getnum_two o1 o2), (getnum_two o3 o4) by assumption.
    cbn [mbind option_bind]. fold oh om.
    destruct (N.ltb_spec 24 oh); [lia |]. destruct (N.ltb_spec 60 om); [lia |]. cbn [orb].
    destruct west; cbn [N.eqb Pos.eqb mbind option_bind isEmpty
                          pYear pMonth pDay pHour pMin zoneOffset default];
      destruct ((d <? 1) || (daysIn mo y <? d)); reflexivity.
Qed.
Lemma stampClock_digits y mo d h mi :
  y < 10000 -> mo < 100 -> d < 100 -> h < 100 -> mi < 100 ->
  exists y1 y2 y3 y4 m1 m2 d1 d2 h1 h2 i1 i2,
    stampClock y mo d h mi = [y1; y2; y3; y4; 45; m1; m2; 45; d1; d2; 84; h1; h2; 58; i1; i2]
    /\ (isDigit y1 = true /\ isDigit y2 = true /\ isDigit y3 = true /\ isDigit y4 = true)
    /\ (isDigit m1 = true /\ isDigit m2 = true) /\ (isDigit d1 = true /\ isDigit d2 = true)
    /\ (isDigit h1 = true /\ isDigit h2 = true) /\ (isDigit i1 = true /\ isDigit i2 = true)
    /\ ((digitVal y1 * 10 + digitVal y2) * 10 + digitVal y3) * 10 + digitVal y4 = y
    /\ digitVal m1 * 10 + digitVal m2 = mo /\ digitVal d1 * 10 + digitVal d2 = d
    /\ digitVal h1 * 10 + digitVal h2 = h /\ digitVal i1 * 10 + digitVal i2 = mi.
Proof.
  intros Hy Hmo Hd Hh Hmi.
  destruct (four_digits y Hy) as (y1 & y2 & y3 & y4 & Ey & ? & ? & ? & ? & ?).
  destruct (two_digits mo Hmo) as (m1 & m2 & Em & ? & ? & ?).
  destruct (two_digits d Hd) as (d1 & d2 & Ed & ? & ? & ?).
  destruct (two_digits h Hh) as (h1 & h2 & Eh & ? & ? & ?).
  destruct (two_digits mi Hmi) as (i1 & i2 & Ei & ? & ? & ?).
  exists y1, y2, y3, y4, m1, m2, d1, d2, h1, h2, i1, i2.
  unfold stampClock. rewrite Ey, Em, Ed, Eh, Ei. cbn [app]. auto 20.
Qed.

Lemma clock_digits_stamp y1 y2 y3 y4 m1 m2 d1 d2 h1 h2 i1 i2 tail :
  isDigit y1 = true -> isDigit y2 = true -> isDigit y3 = true -> isDigit y4 = true ->
  isDigit m1 = true -> isDigit m2 = true -> isDigit d1 = true -> isDigit d2 = true ->
  isDigit h1 = true -> isDigit h2 = true -> isDigit i1 = true -> isDigit i2 = true ->
  forallb isStamp tail = true ->
  forallb isStamp ([y1; y2; y3; y4; 45; m1; m2; 45; d1; d2; 84; h1; h2; 58; i1; i2] ++ tail) = true.
Proof.
  intros. rewrite forallb_app. cbn [forallb]. unfold isStamp.
  repeat match goal with H : isDigit _ = true |- _ => rewrite H; clear H end.
  cbn [orb andb]. assumption.
Qed.

Lemma Format_date_text t :
  Format t layoutDate
  = appendInt (tDay t) 2 ++ str " " ++ shortMonthName (tMonth t) ++ str " " ++ appendInt (tYear t) 4.
Proof.
  unfold Format, layoutDate, flatten. cbn [map concat formatItemText].
  rewrite app_nil_r. reflexivity.
Qed.

Lemma Format_clock_text t :
  Format t layoutClock = appendInt (tHour t) 2 ++ str ":" ++ appendInt (tMinute t) 2.
Proof.
  unfold Format, layoutClock, flatten. cbn [map concat formatItemText].
  rewrite app_nil_r. reflexivity.
Qed.

Lemma Format_kitchen_text t :
  Format t layoutKitchen
  = appendInt (if tHour t mod 12 =? 0 then 12 else tHour t mod 12) 2 ++ str ":"
    ++ appendInt (tMinute t) 2 ++ (if 12 <=? tHour t then str "PM" else str "AM").
Proof.
  unfold Format, layoutKitchen, flatten. cbn [map concat formatItemText].
  rewrite app_nil_r. reflexivity.
Qed.

Lemma validClock_bounds y mo d h mi :
  validClock y mo d h mi = true -> mo < 100 /\ d < 100 /\ h < 100 /\ mi < 100.
Proof.
  unfold validClock. intros H.
  repeat (apply andb_prop in H as [H ?]).
  repeat match goal with
         | H : (_ <=? _) = true |- _ => apply N.leb_le in H
         | H : (_ <? _) = true |- _ => apply N.ltb_lt in H
         end.
  assert (daysIn mo y <= 31) as Hd.
  { unfold daysIn. destruct ((mo =? 2) && isLeap y); [lia |].
    destruct mo as [| p]; [lia |]. do 4 (try destruct p as [p | p |]); lia. }
  lia.
Qed.

Lemma parseStamp_UTC_written y mo d h mi :
  y < 10000 -> mo < 100 -> d < 100 -> h < 100 -> mi < 100 ->
  forallb isStamp (stampUTC y mo d h mi) = true
  /\ length (stampUTC y mo d h mi) = 17%nat
  /\ parseStamp (stampUTC y mo d h mi)
     = if validClock y mo d h mi then Some (mkTime y mo d h mi 0) else None.
Proof.
  intros Hy Hmo Hd Hh Hmi.
  destruct (stampClock_digits y mo d h mi Hy Hmo Hd Hh Hmi)
    as (y1 & y2 & y3 & y4 & m1 & m2 & d1 & d2 & h1 & h2 & i1 & i2 & E
        & (? & ? & ? & ?) & (? & ?) & (? & ?) & (? & ?) & (? & ?) & Vy & Vm & Vd & Vh & Vi).
  unfold stampUTC. rewrite E. split; [| split].
  - apply clock_digits_stamp; auto.
  - reflexivity.
  - pose proof (Parse_UTC_digits y1 y2 y3 y4 m1 m2 d1 d2 h1 h2 i1 i2) as P.
    cbv zeta in P. rewrite Vy, Vm, Vd, Vh, Vi in P.
    assert (Parse layoutOffset
              ([y1; y2; y3; y4; 45; m1; m2; 45; d1; d2; 84; h1; h2; 58; i1; i2] ++ [90]) = None) as Q.
    { unfold Parse.
      change layoutOffset with ([PLongYear; PLit 45; PZeroMonth; PLit 45; PZeroDay; PLit 84; PHour;
                                 PLit 58; PZeroMinute] ++ [PNumColonTZ]).
      rewrite parseItems_clock by assumption.
      destruct (_ || _); [reflexivity |]. destruct (24 <=? _); [reflexivity |].
      destruct (60 <=? _); reflexivity. }
    unfold parseStamp. rewrite P by assumption.
    destruct (validClock y mo d h mi); [reflexivity | exact Q].
Qed.
(** X15: A date and time written as [YYYY-MM-DDThh:mmZ] that exist are shown
    as written, without any conversion: the date as [DD Mon YYYY], the
    time on the 12-hour clock with [AM] or [PM] or on the 24-hour clock,
    each followed by [(+00:00)]. *)
Theorem utc_stamp_shown_as_written y mo d h mi :
  y < 10000 -> validClock y mo d h mi = true ->
  plainProcessDatesAndTimes (str "D(" ++ stampUTC y mo d h mi ++ str ")")
  = Some (appendInt d 2 ++ str " " ++ shortMonthName mo ++ str " " ++ appendInt y 4)
  /\ plainProcessDatesAndTimes (str "T12(" ++ stampUTC y mo d h mi ++ str ")")
     = Some ((appendInt (if h mod 12 =? 0 then 12 else h mod 12) 2 ++ str ":"
              ++ appendInt mi 2 ++ (if 12 <=? h then str "PM" else str "AM")) ++ str " (+00:00)")
  /\ plainProcessDatesAndTimes (str "T24(" ++ stampUTC y mo d h mi ++ str ")")
     = Some ((appendInt h 2 ++ str ":" ++ appendInt mi 2) ++ str " (+00:00)").
Proof.
  intros Hy Hv. destruct (validClock_bounds y mo d h mi Hv) as (Hmo & Hd & Hh & Hmi).
  destruct (parseStamp_UTC_written y mo d h mi Hy Hmo Hd Hh Hmi) as (Hs & Hl & Hp).
  rewrite Hv in Hp. unfold plainProcessDatesAndTimes.
  rewrite (date_token_rendered false _ _ Hs ltac:(lia) Hp).
  rewrite (time12_token_rendered false _ _ Hs ltac:(lia) Hp).
  rewrite (time24_token_rendered false _ _ Hs ltac:(lia) Hp).
  rewrite Format_date_text, Format_kitchen_text, Format_clock_text.
  rewrite (zoneText_UTC (mkTime y mo d h mi 0) eq_refl). repeat split.
Qed.

Lemma utc_stamp_shown_as_written_witness :
  plainProcessDatesAndTimes (str "D(2025-12-25T10:00Z)") = Some (str "25 Dec 2025")
  /\ plainProcessDatesAndTimes (str "T12(2025-12-25T10:00Z)") = Some (str "10:00AM (+00:00)")
  /\ plainProcessDatesAndTimes (str "T24(2025-12-25T10:00Z)") = Some (str "10:00 (+00:00)").
Proof.
  exact (utc_stamp_shown_as_written 2025 12 25 10 0 eq_refl eq_refl).
Defined.

(** X16: A stamp of the form [YYYY-MM-DDThh:mmZ] whose date does not exist
    (month 0 or above 12, day 0 or beyond the end of the month, leap
    years counted) or whose time is out of range (hour above 23, minute
    above 59) is left in the text as it is, in both modes. *)
Theorem impossible_stamp_is_kept hl y mo d h mi :
  y < 10000 -> mo < 100 -> d < 100 -> h < 100 -> mi < 100 ->
  validClock y mo d h mi = false ->
  datesAndTimes hl (str "D(" ++ stampUTC y mo d h mi ++ str ")")
  = Some (str "D(" ++ stampUTC y mo d h mi ++ str ")")
  /\ datesAndTimes hl (str "T12(" ++ stampUTC y mo d h mi ++ str ")")
     = Some (str "T12(" ++ stampUTC y mo d h mi ++ str ")")
  /\ datesAndTimes hl (str "T24(" ++ stampUTC y mo d h mi ++ str ")")
     = Some (str "T24(" ++ stampUTC y mo d h mi ++ str ")").
Proof.
  intros Hy Hmo Hd Hh Hmi Hv.
  destruct (parseStamp_UTC_written y mo d h mi Hy Hmo Hd Hh Hmi) as (Hs & Hl & Hp).
  rewrite Hv in Hp. apply stamp_token_unparsed; [exact Hs | lia | exact Hp].
Qed.

Lemma impossible_stamp_is_kept_witness :
  datesAndTimes false (str "D(2025-02-29T10:00Z)") = Some (str "D(2025-02-29T10:00Z)")
  /\ datesAndTimes false (str "T12(2025-02-29T10:00Z)") = Some (str "T12(2025-02-29T10:00Z)")
  /\ datesAndTimes false (str "T24(2025-02-29T10:00Z)") = Some (str "T24(2025-02-29T10:00Z)").
Proof.
  exact (impossible_stamp_is_kept false 2025 2 29 10 0 eq_refl eq_refl eq_refl eq_refl eq_refl eq_refl).
Defined.
Lemma zoneText_written (west : bool) oh om t :
  om < 60 ->
  tOffset t = (if west then - Z.of_N ((oh * 60 + om) * 60) else Z.of_N ((oh * 60 + om) * 60))%Z ->
  zoneText t
  = str "(" ++ [if west && negb (oh * 60 + om =? 0) then 45 else 43]
    ++ appendInt oh 2 ++ str ":" ++ appendInt om 2 ++ str ")".
Proof.
  intros Hom Ht.
  assert (Z.quot (tOffset t) 60
          = if west then (- Z.of_N (oh * 60 + om))%Z else Z.of_N (oh * 60 + om)) as Hq.
  { rewrite Ht, N2Z.inj_mul. change (Z.of_N 60) with 60%Z.
    destruct west; [rewrite Z.quot_opp_l by lia |]; rewrite Z.quot_mul by lia; reflexivity. }
  assert (Z.to_N (Z.abs (Z.quot (tOffset t) 60)) = oh * 60 + om) as Hz.
  { rewrite Hq. destruct west; lia. }
  assert ((Z.quot (tOffset t) 60 <? 0)%Z = west && negb (oh * 60 + om =? 0)) as Hs.
  { rewrite Hq. destruct west; cbn [andb].
    - destruct (N.eqb_spec (oh * 60 + om) 0) as [E | E]; cbn [negb];
        [apply Z.ltb_ge | apply Z.ltb_lt]; lia.
    - apply Z.ltb_ge. lia. }
  assert ((oh * 60 + om) / 60 = oh) as Hh.
  { rewrite N.div_add_l by lia. rewrite N.div_small by exact Hom. lia. }
  assert ((oh * 60 + om) mod 60 = om) as Hm.
  { rewrite N.add_comm, N.Div0.mod_add. apply N.mod_small, Hom. }
  unfold zoneText, Format, layoutZone, flatten. cbn [map concat formatItemText].
  rewrite Hz, Hs, Hh, Hm, app_nil_r. unfold eqText.
  case_bool_decide as E.
  - exfalso. destruct (west && _); discriminate E.
  - change (str "(") with [40]. change (str ")") with [41]. change (str ":") with [58].
    cbn [app]. rewrite <- app_assoc. reflexivity.
Qed.

Lemma parseStamp_offset_written y mo d h mi west oh om :
  y < 10000 -> mo < 100 -> d < 100 -> h < 100 -> mi < 100 -> oh <= 24 -> om <= 60 ->
  forallb isStamp (stampOffset y mo d h mi west oh om) = true
  /\ length (stampOffset y mo d h mi west oh om) = 22%nat
  /\ parseStamp (stampOffset y mo d h mi west oh om)
     = if validClock y mo d h mi
       then Some (mkTime y mo d h mi
                    (if west then - Z.of_N ((oh * 60 + om) * 60) else Z.of_N ((oh * 60 + om) * 60))%Z)
       else None.
Proof.
  intros Hy Hmo Hd Hh Hmi Hoh Hom.
  destruct (stampClock_digits y mo d h mi Hy Hmo Hd Hh Hmi)
    as (y1 & y2 & y3 & y4 & m1 & m2 & d1 & d2 & h1 & h2 & i1 & i2 & E
        & (? & ? & ? & ?) & (? & ?) & (? & ?) & (? & ?) & (? & ?) & Vy & Vm & Vd & Vh & Vi).
  destruct (two_digits oh ltac:(lia)) as (o1 & o2 & Eo & Ho1 & Ho2 & Vo).
  destruct (two_digits om ltac:(lia)) as (o3 & o4 & Ep & Ho3 & Ho4 & Vp).
  assert (stampOffset y mo d h mi west oh om
          = [y1; y2; y3; y4; 45; m1; m2; 45; d1; d2; 84; h1; h2; 58; i1; i2]
            ++ [if west then 45 else 43; o1; o2; 58; o3; o4]) as Es.
  { unfold stampOffset. rewrite E, Eo, Ep. reflexivity. }
  rewrite Es. split; [| split].
  - apply clock_digits_stamp; auto. cbn [forallb]. unfold isStamp.
    rewrite Ho1, Ho2, Ho3, Ho4. destruct west; reflexivity.
  - reflexivity.
  - pose proof (Parse_offset_digits y1 y2 y3 y4 m1 m2 d1 d2 h1 h2 i1 i2 west o1 o2 o3 o4) as P.
    cbv zeta in P. rewrite Vy, Vm, Vd, Vh, Vi, Vo, Vp in P.
    destruct P as [P1 P2]; try assumption.
    unfold parseStamp. rewrite P1. exact P2.
Qed.

(** X17: A date and time written with an offset, [YYYY-MM-DDThh:mm+HH:MM] or
    [...-HH:MM], that exist are shown as written too: the date and the
    time of day are those of the stamp, not converted to another zone,
    and the offset follows in parentheses as written, except that
    [-00:00] is shown as [+00:00]. *)
Theorem offset_stamp_shown_as_written y mo d h mi (west : bool) oh om :
  y < 10000 -> validClock y mo d h mi = true -> oh < 24 -> om < 60 ->
  let zone := str "(" ++ [if west && negb (oh * 60 + om =? 0) then 45 else 43]
              ++ appendInt oh 2 ++ str ":" ++ appendInt om 2 ++ str ")" in
  plainProcessDatesAndTimes (str "D(" ++ stampOffset y mo d h mi west oh om ++ str ")")
  = Some (appendInt d 2 ++ str " " ++ shortMonthName mo ++ str " " ++ appendInt y 4)
  /\ plainProcessDatesAndTimes (str "T12(" ++ stampOffset y mo d h mi west oh om ++ str ")")
     = Some ((appendInt (if h mod 12 =? 0 then 12 else h mod 12) 2 ++ str ":"
              ++ appendInt mi 2 ++ (if 12 <=? h then str "PM" else str "AM")) ++ str " " ++ zone)
  /\ plainProcessDatesAndTimes (str "T24(" ++ stampOffset y mo d h mi west oh om ++ str ")")
     = Some ((appendInt h 2 ++ str ":" ++ appendInt mi 2) ++ str " " ++ zone).
Proof.
  intros Hy Hv Hoh Hom zone.
  destruct (validClock_bounds y mo d h mi Hv) as (Hmo & Hd & Hh & Hmi).
  destruct (parseStamp_offset_written y mo d h mi west oh om Hy Hmo Hd Hh Hmi
              ltac:(lia) ltac:(lia)) as (Hs & Hl & Hp).
  rewrite Hv in Hp. unfold plainProcessDatesAndTimes.
  rewrite (date_token_rendered false _ _ Hs ltac:(lia) Hp).
  rewrite (time12_token_rendered false _ _ Hs ltac:(lia) Hp).
  rewrite (time24_token_rendered false _ _ Hs ltac:(lia) Hp).
  rewrite Format_date_text, Format_kitchen_text, Format_clock_text.
  rewrite (zoneText_written west oh om
             (mkTime y mo d h mi
                (if west then - Z.of_N ((oh * 60 + om) * 60) else Z.of_N ((oh * 60 + om) * 60))%Z)
             Hom eq_refl).
  repeat split.
Qed.

Lemma offset_stamp_shown_as_written_witness :
  plainProcessDatesAndTimes (str "D(2025-03-15T14:30-04:00)") = Some (str "15 Mar 2025")
  /\ plainProcessDatesAndTimes (str "T12(2025-03-15T14:30-04:00)") = Some (str "02:30PM (-04:00)")
  /\ plainProcessDatesAndTimes (str "T24(2025-03-15T14:30-04:00)") = Some (str "14:30 (-04:00)").
Proof.
  exact (offset_stamp_shown_as_written 2025 3 15 14 30 true 4 0 eq_refl eq_refl eq_refl eq_refl).
Defined.
(** ** Lookups after a successful load *)

Lemma register_map a st k p :
  airportMap (register a st) !! k = Some p ->
  p = length (heap st) \/ airportMap st !! k = Some p.
Proof.
  unfold register. cbn [airportMap].
  destruct (isEmpty (ICAOCode a)), (isEmpty (IATACode a)); intros H; auto.
  - apply lookup_insert_Some in H as [[_ <-] | [_ H]]; auto.
  - apply lookup_insert_Some in H as [[_ <-] | [_ H]]; auto.
  - apply lookup_insert_Some in H as [[_ <-] | [_ H]]; auto.
    apply lookup_insert_Some in H as [[_ <-] | [_ H]]; auto.
Qed.

Lemma register_valid a st : pointersValid st -> pointersValid (register a st).
Proof.
  intros Hv k p H.
  assert (length (heap (register a st)) = S (length (heap st))) as ->
    by (unfold register; cbn [heap]; rewrite length_app; simpl; lia).
  apply register_map in H as [-> | Hk]; [lia |]. apply Hv in Hk. lia.
Qed.

Lemma register_map_lookup a st k :
  airportMap (register a st) !! k
  = if negb (isEmpty k) && (eqText (IATACode a) k || eqText (ICAOCode a) k)
    then Some (length (heap st)) else airportMap st !! k.
Proof.
  unfold register, eqText. cbn [airportMap].
  destruct (IATACode a) as [| c1 i], (ICAOCode a) as [| c2 j]; cbn [isEmpty];
    rewrite ?lookup_insert; repeat case_decide; repeat case_bool_decide;
    subst; cbn [isEmpty negb andb orb]; try reflexivity; try congruence.
  all: destruct k; cbn [isEmpty negb andb]; try reflexivity; congruence.
Qed.

Lemma register_lookup a st k :
  pointersValid st ->
  lookupAirport (register a st) k
  = if negb (isEmpty k) && (eqText (IATACode a) k || eqText (ICAOCode a) k)
    then Some a else lookupAirport st k.
Proof.
  intros Hv. unfold lookupAirport. rewrite register_map_lookup.
  destruct (negb (isEmpty k) && (eqText (IATACode a) k || eqText (ICAOCode a) k)).
  - simpl. unfold register. cbn [heap]. rewrite lookup_app_r by lia.
    rewrite Nat.sub_diag. reflexivity.
  - destruct (airportMap st !! k) as [p |] eqn:E; [| reflexivity].
    simpl. apply register_heap_old. eapply Hv, E.
Qed.
Lemma registerRows_lookup lower header records k : forall st,
  pointersValid st ->
  lookupAirport (registerRows lower header records st) k
  = match lastCarrier lower header k records with
    | Some r => Some (airportOf lower header r)
    | None => lookupAirport st k
    end.
Proof.
  induction records as [| r records IH]; intros st Hv; [reflexivity |].
  cbn [registerRows lastCarrier]. unfold carries.
  destruct (length r =? 0)%nat eqn:El; cbn [negb andb].
  - rewrite IH by exact Hv. destruct (lastCarrier lower header k records); reflexivity.
  - rewrite IH by (apply register_valid, Hv).
    destruct (lastCarrier lower header k records); [reflexivity |].
    rewrite register_lookup by exact Hv. cbn [airportOf IATACode ICAOCode].
    destruct (negb (isEmpty k) && _); reflexivity.
Qed.

(** X18: After a successful load, a lookup finds exactly the codes the table
    registers, whatever the directory held before: the code must be the
    non-empty IATA or ICAO field of some row, exactly as written in the
    table (not trimmed, case kept), and the record returned is built from
    the last such row; every other code, the empty one included, is not
    found. *)
Theorem lookup_after_load lower header records st st' k :
  loadAirportData lower header records st = (st', None) ->
  lookupAirport st' k = airportOf lower header <$> lastCarrier lower header k records.
Proof.
  rewrite loadAirportData_spec. destruct (firstMissing lower header); [discriminate |].
  intros [= <- He].
  apply firstRecordError_None in He. rewrite (goodPrefix_all lower header records He).
  rewrite registerRows_lookup by (intros k0 p; cbn [airportMap]; rewrite lookup_empty; discriminate).
  destruct (lastCarrier lower header k records); [reflexivity |].
  unfold lookupAirport. cbn [airportMap]. rewrite lookup_empty. reflexivity.
Qed.

Lemma lookup_after_load_witness :
  lookupAirport sampleState (str "EGL")
  = airportOf asciiLower sampleHeader <$> lastCarrier asciiLower sampleHeader (str "EGL") sampleRows.
Proof.
  apply (lookup_after_load asciiLower sampleHeader sampleRows initialState sampleState (str "EGL")).
  pose proof (surjective_pairing (loadAirportData asciiLower sampleHeader sampleRows initialState))
    as H.
  assert (snd (loadAirportData asciiLower sampleHeader sampleRows initialState) = None) as Hs
    by (vm_compute; reflexivity).
  rewrite Hs in H. exact H.
Defined.
(** ** The header *)

Lemma buildColumnMap_normalized lower h1 : forall h2 i m,
  map (normalizeColumn lower) h1 = map (normalizeColumn lower) h2 ->
  buildColumnMap lower i h1 m = buildColumnMap lower i h2 m.
Proof.
  induction h1 as [| c1 h1 IH]; intros [| c2 h2] i m; try discriminate; [reflexivity |].
  cbn [map buildColumnMap]. intros [= Hc Hh].
  unfold normalizeColumn in Hc. rewrite Hc. apply IH, Hh.
Qed.

(** X19: The column names of the header are compared in lower case and
    without surrounding white space: two headers whose names agree in
    that form make [loadAirportData] behave in the same way on every
    table of rows. *)
Theorem header_names_are_normalized lower h1 h2 records st :
  map (normalizeColumn lower) h1 = map (normalizeColumn lower) h2 ->
  loadAirportData lower h1 records st = loadAirportData lower h2 records st.
Proof.
  intros H. unfold loadAirportData.
  rewrite (buildColumnMap_normalized lower h1 h2 0 ∅ H).
  assert (length h1 = length h2) as ->
    by (rewrite <- (length_map (normalizeColumn lower) h1), H, length_map; reflexivity).
  reflexivity.
Qed.

Lemma header_names_are_normalized_witness :
  loadAirportData asciiLower shoutedHeader sampleRows initialState
  = loadAirportData asciiLower sampleHeader sampleRows initialState.
Proof.
  apply header_names_are_normalized. vm_compute. reflexivity.
Defined.
(** ** The order of the columns *)

Section ColumnOrder.

Variable lower : rune -> rune.

Local Abbreviation names := (map (normalizeColumn lower)).

Lemma columnIndex_absent key header : forall i,
  key ∉ names header -> columnIndex lower key i header = None.
Proof.
  induction header as [| c header IH]; intros i H; [reflexivity |].
  cbn [columnIndex map] in *. apply not_elem_of_cons in H as [Hc Hh].
  rewrite IH by exact Hh. case_bool_decide; congruence.
Qed.

Lemma columnIndex_lookup key header : forall i j,
  NoDup (names header) -> names header !! j = Some key ->
  columnIndex lower key i header = Some (i + j)%nat.
Proof.
  induction header as [| c header IH]; intros i j Hnd Hj; [discriminate |].
  cbn [columnIndex map] in *. apply NoDup_cons in Hnd as [Hc Hnd].
  destruct j as [| j].
  - injection Hj as Hj. rewrite columnIndex_absent by (rewrite <- Hj; exact Hc).
    rewrite bool_decide_eq_true_2 by exact Hj. f_equal. lia.
  - rewrite (IH (S i) j Hnd Hj). f_equal. lia.
Qed.

Lemma fieldOf_at header record col j :
  NoDup (names header) -> names header !! j = Some (str col) ->
  fieldOf lower header record col = default [] (record !! j).
Proof.
  intros Hnd Hj. unfold fieldOf. rewrite (columnIndex_lookup _ _ 0 j Hnd Hj). reflexivity.
Qed.

Lemma fieldOf_absent header record col :
  str col ∉ names header -> fieldOf lower header record col = [].
Proof. intros H. unfold fieldOf. rewrite columnIndex_absent by exact H. reflexivity. Qed.

Lemma reorder_id l : reorder (seq 0 (length l)) l = l.
Proof.
  unfold reorder. apply list_eq. intros i. rewrite list_lookup_fmap.
  destruct (l !! i) as [x |] eqn:E.
  - rewrite lookup_seq_lt by (eapply lookup_lt_Some, E). simpl. rewrite E. reflexivity.
  - rewrite (proj2 (lookup_ge_None (seq 0 (length l)) i)); [reflexivity |].
    rewrite length_seq. apply lookup_ge_None, E.
Qed.

Lemma reorder_perm idx l : idx ≡ₚ seq 0 (length l) -> reorder idx l ≡ₚ l.
Proof.
  intros H. rewrite <- (reorder_id l) at 2. unfold reorder. rewrite H. reflexivity.
Qed.

Lemma reorder_length idx l : length (reorder idx l) = length idx.
Proof. unfold reorder. apply length_fmap. Qed.

Lemma reorder_lookup idx l j' j :
  idx !! j' = Some j -> reorder idx l !! j' = Some (default [] (l !! j)).
Proof. intros H. unfold reorder. rewrite list_lookup_fmap, H. reflexivity. Qed.

Lemma names_reorder idx header :
  idx ≡ₚ seq 0 (length header) -> names (reorder idx header) ≡ₚ names header.
Proof. intros H. apply (fmap_Permutation (normalizeColumn lower)), reorder_perm, H. Qed.

Lemma fieldOf_reorder idx header record col :
  idx ≡ₚ seq 0 (length header) -> NoDup (names header) -> length record = length header ->
  fieldOf lower (reorder idx header) (reorder idx record) col = fieldOf lower header record col.
Proof.
  intros Hp Hnd Hl. pose proof (names_reorder idx header Hp) as Hn.
  destruct (decide (str col ∈ names header)) as [Hin | Hin].
  - apply list_elem_of_lookup_1 in Hin as [j Hj].
    assert (j < length header)%nat as Hlt
      by (apply lookup_lt_Some in Hj; rewrite length_map in Hj; exact Hj).
    assert (j ∈ idx) as Hji by (rewrite Hp; apply elem_of_seq; lia).
    apply list_elem_of_lookup_1 in Hji as [j' Hj'].
    rewrite (fieldOf_at header record col j Hnd Hj).
    rewrite (fieldOf_at (reorder idx header) (reorder idx record) col j').
    + rewrite (reorder_lookup idx record j' j Hj'). reflexivity.
    + rewrite Hn. exact Hnd.
    + change (names (reorder idx header) !! j')
        with ((normalizeColumn lower <$> reorder idx header) !! j').
      rewrite list_lookup_fmap, (reorder_lookup idx header j' j Hj').
      change (names header !! j) with ((normalizeColumn lower <$> header) !! j) in Hj.
      rewrite list_lookup_fmap in Hj.
      destruct (header !! j) as [c |]; [exact Hj | discriminate].
  - rewrite (fieldOf_absent header record col Hin).
    apply fieldOf_absent. rewrite Hn. exact Hin.
Qed.

Lemma hasColumn_perm h1 h2 req :
  h1 ≡ₚ h2 -> hasColumn lower h1 req = hasColumn lower h2 req.
Proof.
  intros H. unfold hasColumn. apply eq_true_iff_eq. rewrite !existsb_exists.
  split; intros (c & Hc & E); exists c; (split; [| exact E]);
    apply list_elem_of_In; apply list_elem_of_In in Hc; [rewrite <- H | rewrite H]; exact Hc.
Qed.

Lemma firstMissing_perm h1 h2 :
  h1 ≡ₚ h2 -> firstMissing lower h1 = firstMissing lower h2.
Proof.
  intros H. unfold firstMissing.
  induction requiredColumns as [| req reqs IH]; [reflexivity |].
  cbn [List.find]. rewrite (hasColumn_perm h1 h2 req H), IH. reflexivity.
Qed.

Lemma recordError_reorder idx header record :
  idx ≡ₚ seq 0 (length header) -> NoDup (names header) -> length record = length header ->
  recordError lower (reorder idx header) (reorder idx record) = recordError lower header record.
Proof.
  intros Hp Hnd Hl. unfold recordError.
  rewrite !reorder_length, !fieldOf_reorder by assumption.
  assert (length idx = length header) as ->
    by (rewrite (Permutation_length Hp), length_seq; reflexivity).
  rewrite Hl. reflexivity.
Qed.

Lemma airportOf_reorder idx header record :
  idx ≡ₚ seq 0 (length header) -> NoDup (names header) -> length record = length header ->
  airportOf lower (reorder idx header) (reorder idx record) = airportOf lower header record.
Proof.
  intros Hp Hnd Hl. unfold airportOf. rewrite !fieldOf_reorder by assumption. reflexivity.
Qed.

Lemma table_reorder idx header records :
  idx ≡ₚ seq 0 (length header) -> NoDup (names header) ->
  Forall (fun record => length record = length header) records ->
  firstRecordError lower (reorder idx header) (map (reorder idx) records)
  = firstRecordError lower header records
  /\ forall st,
       registerRows lower (reorder idx header)
         (goodPrefix lower (reorder idx header) (map (reorder idx) records)) st
       = registerRows lower header (goodPrefix lower header records) st.
Proof.
  intros Hp Hnd. induction 1 as [| r records Hr _ [IH1 IH2]]; [split; reflexivity |].
  cbn [map firstRecordError goodPrefix].
  rewrite (recordError_reorder idx header r Hp Hnd Hr).
  destruct (recordError lower header r); [split; reflexivity |].
  split; [exact IH1 |]. intros st. cbn [registerRows].
  rewrite reorder_length, (airportOf_reorder idx header r Hp Hnd Hr), IH2.
  assert (length idx = length r) as ->
    by (rewrite (Permutation_length Hp), length_seq, Hr; reflexivity).
  reflexivity.
Qed.

End ColumnOrder.

(** X20: The columns of the table may come in any order: when the column
    names are distinct and every row has as many fields as the header,
    permuting the columns of the header and of every row in the same way
    changes neither the error returned nor the directory built. *)
Theorem column_order_is_irrelevant lower idx header records st :
  idx ≡ₚ seq 0 (length header) ->
  NoDup (map (normalizeColumn lower) header) ->
  Forall (fun record => length record = length header) records ->
  loadAirportData lower (reorder idx header) (map (reorder idx) records) st
  = loadAirportData lower header records st.
Proof.
  intros Hp Hnd Hl. rewrite !loadAirportData_spec.
  rewrite (firstMissing_perm lower _ _ (reorder_perm idx header Hp)).
  destruct (firstMissing lower header); [reflexivity |].
  destruct (table_reorder lower idx header records Hp Hnd Hl) as [H1 H2].
  rewrite H1, H2. reflexivity.
Qed.
Lemma column_order_is_irrelevant_witness :
  loadAirportData asciiLower (reorder shuffledColumns sampleHeader)
    (map (reorder shuffledColumns) sampleRows) initialState
  = loadAirportData asciiLower sampleHeader sampleRows initialState.
Proof.
  apply column_order_is_irrelevant.
  - apply (bool_decide_unpack _). vm_compute. exact I.
  - apply (bool_decide_unpack _). vm_compute. exact I.
  - apply (bool_decide_unpack _). vm_compute. exact I.
Defined.
(** ** What plain mode never writes *)

Lemma forallb_take {A} (q : A -> bool) n l : forallb q l = true -> forallb q (take n l) = true.
Proof.
  revert n. induction l as [| x l IH]; intros [| n]; simpl; auto.
  intros H. apply andb_prop in H as [Hx Hl]. rewrite Hx. apply IH, Hl.
Qed.

Lemma scan_runes q re : forall src k,
  forallb q src = true ->
  Forall (fun p => forallb q (pieceText p) = true) (scan re k src).
Proof.
  induction src as [| c src IH]; intros k H; [constructor |].
  pose proof H as Hcs. cbn [forallb] in H. apply andb_prop in H as [Hc Hs].
  cbn [scan]. destruct k as [| k]; [| apply IH, Hs].
  destruct (matchLen re (c :: src)) as [[| n] |].
  - constructor; [cbn; rewrite Hc; reflexivity | apply IH, Hs].
  - constructor; [apply forallb_take, Hcs | apply IH, Hs].
  - constructor; [cbn; rewrite Hc; reflexivity | apply IH, Hs].
Qed.

(** A replacement keeps a property of runes that the callback keeps. *)
Lemma replace_runes q re cb src out :
  (forall m o, forallb q m = true -> cb m = Some o -> forallb q o = true) ->
  forallb q src = true -> ReplaceAllStringFunc re src cb = Some out -> forallb q out = true.
Proof.
  intros Hcb Hsrc. unfold ReplaceAllStringFunc. pose proof (scan_runes q re src 0 Hsrc) as Hp.
  revert out. induction Hp as [| p ps Hp _ IH]; intros out.
  - intros [= <-]. reflexivity.
  - cbn [mapM]. destruct (render cb p) as [o |] eqn:Er; [| discriminate]. simpl.
    destruct (mapM (render cb) ps) as [os |]; [| discriminate]. simpl.
    intros [= <-]. change (flatten (o :: os)) with (o ++ flatten os). rewrite forallb_app.
    rewrite (IH (flatten os) eq_refl), Bool.andb_true_r.
    destruct p as [c | m]; cbn [render pieceText] in *.
    + injection Er as <-. exact Hp.
    + eapply Hcb; eassumption.
Qed.

Lemma airportCallback_plain_runes k re st m o :
  directoryWithout k st ->
  forallb (fun c => negb (c =? k)) m = true ->
  airportCallback re st plainCity plainAirport m = Some o ->
  forallb (fun c => negb (c =? k)) o = true.
Proof.
  intros Hd Hm. unfold airportCallback.
  destruct (FindStringSubmatch re m) as [groups |]; [| discriminate]. cbn [mbind option_bind].
  destruct (groups !! 2%nat) as [code |]; [| discriminate]. cbn [mbind option_bind].
  destruct (lookupAirport st code) as [a |] eqn:El; [| intros [= E]; subst o; exact Hm].
  destruct (Hd code a El) as [Hn Hc].
  destruct (groups !! 1%nat) as [g1 |]; [| discriminate]. cbn [mbind option_bind].
  unfold plainCity, plainAirport.
  destruct (eqText g1 (str "*")); intros [= E]; subst o; [| exact Hn].
  destruct (negb (isEmpty (TrimSpace (Municipality a)))); assumption.
Qed.

Lemma dateCallback_plain_runes m o :
  forallb (fun c => negb (c =? 27)) m = true -> dateCallback false m = Some o ->
  forallb (fun c => negb (c =? 27)) o = true.
Proof.
  intros Hm. unfold dateCallback. destruct (inner 2 m); [| discriminate]. cbn [mbind option_bind].
  destruct (parseStamp _) as [t |]; intros [= E]; subst o; [| exact Hm].
  apply date_text_without. lia.
Qed.

Lemma timeCallback_plain_runes layout m o :
  layout = layoutKitchen \/ layout = layoutClock ->
  forallb (fun c => negb (c =? 27)) m = true -> timeCallback false layout m = Some o ->
  forallb (fun c => negb (c =? 27)) o = true.
Proof.
  intros Hlay Hm. unfold timeCallback. destruct (inner 4 m); [| discriminate].
  cbn [mbind option_bind].
  destruct (parseStamp _) as [t |]; cbv zeta; intros [= E]; subst o; [| exact Hm].
  rewrite !forallb_app. cbn [forallb].
  rewrite (time_text_without t layout 27), (zoneText_without t 27) by (auto; lia).
  reflexivity.
Qed.

Lemma controlRuns_keeps q s : q NL = true -> forallb q s = true -> forallb q (controlRuns s) = true.
Proof.
  intros Hq. induction s as [| c r IH]; [reflexivity |]. cbn [forallb].
  intros H. apply andb_prop in H as [Hc Hr]. specialize (IH Hr). rewrite controlRuns_cons.
  destruct (isRVFControl c).
  - destruct r as [| d r']; [cbn; rewrite Hq; reflexivity |].
    destruct (isRVFControl d); [exact IH |]. cbn [forallb]. rewrite Hq, IH. reflexivity.
  - cbn [forallb]. rewrite Hc, IH. reflexivity.
Qed.

Lemma normalize_runes q s :
  q 32 = true -> q NL = true -> forallb q s = true -> forallb q (normalizeWhitespace s) = true.
Proof.
  intros H32 HNL Hs. unfold normalizeWhitespace. rewrite trimVertical_steps.
  apply collapse_keeps, controlRuns_keeps, unescape_keeps, trimHorizontal_runes; auto.
Qed.

(** X21: Plain mode writes no style marker of its own: when neither the
    input nor a name or municipality of the directory holds the escape
    rune, the plain output holds none. *)
Theorem plain_output_has_no_escape st s out :
  directoryWithout 27 st ->
  forallb (fun c => negb (c =? 27)) s = true ->
  plainProcessContent st s = Some out ->
  forallb (fun c => negb (c =? 27)) out = true.
Proof.
  intros Hd Hs. unfold plainProcessContent, plainProcessAirportCodes,
    plainProcessDatesAndTimes, datesAndTimes.
  destruct (ReplaceAllStringFunc iataRegex s _) as [c1 |] eqn:E1; [| discriminate]. simpl.
  destruct (ReplaceAllStringFunc icaoRegex c1 _) as [c2 |] eqn:E2; [| discriminate]. simpl.
  destruct (ReplaceAllStringFunc dateRegex c2 _) as [c3 |] eqn:E3; [| discriminate]. simpl.
  destruct (ReplaceAllStringFunc time12Regex c3 _) as [c4 |] eqn:E4; [| discriminate]. simpl.
  destruct (ReplaceAllStringFunc time24Regex c4 _) as [c5 |] eqn:E5; [| discriminate]. simpl.
  intros [= <-].
  apply (replace_runes _ _ _ _ _ (fun m o => airportCallback_plain_runes 27 _ st m o Hd)) in E1;
    [| exact Hs].
  apply (replace_runes _ _ _ _ _ (fun m o => airportCallback_plain_runes 27 _ st m o Hd)) in E2;
    [| exact E1].
  apply (replace_runes _ _ _ _ _ dateCallback_plain_runes) in E3; [| exact E2].
  apply (replace_runes _ _ _ _ _
           (fun m o => timeCallback_plain_runes layoutKitchen m o (or_introl eq_refl))) in E4;
    [| exact E3].
  apply (replace_runes _ _ _ _ _
           (fun m o => timeCallback_plain_runes layoutClock m o (or_intror eq_refl))) in E5;
    [| exact E4].
  apply (normalize_runes (fun c => negb (c =? 27))); auto.
Qed.

Lemma directoryWithout_check k st :
  forallb (fun a => forallb (fun c => negb (c =? k)) (Name a)
                    && forallb (fun c => negb (c =? k)) (Municipality a)) (heap st) = true ->
  directoryWithout k st.
Proof.
  intros H code a Hl. apply directory_in_heap, list_elem_of_In in Hl.
  rewrite forallb_forall in H. apply H in Hl. apply andb_prop in Hl. exact Hl.
Qed.

Lemma plain_output_has_no_escape_witness :
  forallb (fun c => negb (c =? 27))
    (str "Fly London to Charles de Gaulle Airport on 09 May 2022 at 08:07AM (+02:00)") = true.
Proof.
  apply (plain_output_has_no_escape sampleState
           (str "Fly  *#LHR to ##LFPG on D(2022-05-09T08:07Z) at T12(2022-05-09T08:07+02:00)")).
  - apply directoryWithout_check. vm_compute. reflexivity.
  - vm_compute. reflexivity.
  - vm_compute. reflexivity.
Defined.
(** ** The zone of a time *)

(** X22: The zone printed after a time is always the numeric offset in
    parentheses: [Format] with the layout [-07:00] never yields [Z], so
    the branch of the callbacks that tests for it is never taken. *)
Theorem zone_is_always_numeric t :
  Format t layoutZone <> str "Z"
  /\ zoneText t = str "(" ++ Format t layoutZone ++ str ")".
Proof.
  assert (Format t layoutZone <> str "Z") as H.
  { unfold Format, layoutZone, flatten. cbn [map concat formatItemText].
    destruct (_ <? _)%Z; discriminate. }
  split; [exact H |]. unfold zoneText, eqText. cbv zeta.
  rewrite bool_decide_eq_false_2 by exact H. reflexivity.
Qed.
(** ** Codes are written in capitals *)

Lemma iata_match_upper y n :
  matchLen iataRegex y = Some n -> exists c, In c y /\ isUpper c = true.
Proof.
  rewrite matchLen_iata, iataLen_tests.
  destruct y as [| c0 [| c1 [| c2 [| c3 r]]]]; try discriminate.
  destruct (c0 =? 42).
  - destruct r as [| c4 r]; [discriminate |].
    destruct (c1 =? 35); [| discriminate]. cbn [andb].
    destruct (isUpper c2) eqn:E; [| discriminate]. intros _. exists c2. simpl. auto 8.
  - destruct (c0 =? 35); [| discriminate]. cbn [andb].
    destruct (isUpper c1) eqn:E; [| discriminate]. intros _. exists c1. simpl. auto.
Qed.

Lemma icao_match_upper y n :
  matchLen icaoRegex y = Some n -> exists c, In c y /\ isUpper c = true.
Proof.
  rewrite matchLen_icao, icaoLen_tests.
  destruct y as [| c0 [| c1 [| c2 [| c3 [| c4 [| c5 r]]]]]]; try discriminate.
  destruct (c0 =? 42).
  - destruct r as [| c6 r]; [discriminate |].
    destruct (c1 =? 35); [| discriminate]. destruct (c2 =? 35); [| discriminate]. cbn [andb].
    destruct (isUpper c3) eqn:E; [| discriminate]. intros _. exists c3. simpl. auto 8.
  - destruct (c0 =? 35); [| discriminate]. destruct (c1 =? 35); [| discriminate]. cbn [andb].
    destruct (isUpper c2) eqn:E; [| discriminate]. intros _. exists c2. simpl. auto 8.
Qed.

Lemma replace_without_class re cb (p : rune -> bool) w :
  (forall y n, matchLen re y = Some n -> exists c, In c y /\ p c = true) ->
  forallb (fun c => negb (p c)) w = true -> ReplaceAllStringFunc re w cb = Some w.
Proof.
  intros Hn Hw. apply replace_no_match. intros x y ->.
  destruct (matchLen re y) as [n |] eqn:E; [| reflexivity].
  apply Hn in E as (c & Hin & Hc). rewrite forallb_app in Hw. apply andb_prop in Hw as [_ Hy].
  rewrite forallb_forall in Hy. apply Hy in Hin. rewrite Hc in Hin. discriminate.
Qed.

(** X23: Airport tokens are written in capitals: a text without a capital
    letter from [A] to [Z] is returned unchanged by the airport passes of
    both modes, whatever the directory holds. *)
Theorem text_without_capitals_has_no_airport_token st s :
  forallb (fun c => negb (isUpper c)) s = true ->
  plainProcessAirportCodes st s = Some s /\ processAirportCodes st s = Some s.
Proof.
  intros H. unfold plainProcessAirportCodes, processAirportCodes.
  rewrite !(replace_without_class iataRegex _ isUpper s iata_match_upper H). simpl.
  rewrite !(replace_without_class icaoRegex _ isUpper s icao_match_upper H). auto.
Qed.

Lemma text_without_capitals_has_no_airport_token_witness :
  plainProcessAirportCodes sampleState (str "from #jfk to ##egll") = Some (str "from #jfk to ##egll")
  /\ processAirportCodes sampleState (str "from #jfk to ##egll") = Some (str "from #jfk to ##egll").
Proof. apply text_without_capitals_has_no_airport_token. reflexivity. Defined.

(** ** The words of a text *)

Lemma filter_kept_solid s :
  List.filter (fun c => negb (isSpace c)) (List.filter kept s)
  = List.filter (fun c => negb (isSpace c)) s.
Proof.
  induction s as [| c s IH]; [reflexivity |]. cbn [List.filter]. unfold kept at 1.
  destruct (isSpace c) eqn:E; cbn [negb orb].
  - destruct (c =? NL); [cbn [List.filter]; rewrite E |]; exact IH.
  - cbn [List.filter]. rewrite E, IH. reflexivity.
Qed.

Lemma collapse_keeps_words s :
  List.filter (fun c => negb (isSpace c)) (collapseNewlines s)
  = List.filter (fun c => negb (isSpace c)) s.
Proof.
  induction s as [| c r IH]; [reflexivity |]. rewrite collapseNewlines_cons.
  assert (List.filter (fun c => negb (isSpace c)) (c :: collapseNewlines r)
          = List.filter (fun c => negb (isSpace c)) (c :: r)) as Hk
    by (cbn [List.filter]; rewrite IH; reflexivity).
  destruct r as [| d [| e r']]; try exact Hk.
  destruct ((c =? NL) && (d =? NL) && (e =? NL)) eqn:E; [| exact Hk].
  rewrite IH. apply andb_prop in E as [E _]. apply andb_prop in E as [E _].
  apply N.eqb_eq in E. subst c. reflexivity.
Qed.

(** X24: On a text without backslash, whitespace normalisation changes white
    space only: the runes that are not white space come out as they
    went in, in the same order. *)
Theorem normalization_keeps_words s :
  forallb (fun c => negb (c =? 92)) s = true ->
  List.filter (fun c => negb (isSpace c)) (normalizeWhitespace s)
  = List.filter (fun c => negb (isSpace c)) s.
Proof.
  intros H. rewrite normalize_no_backslash by exact H.
  rewrite collapse_keeps_words, <- filter_kept_solid, trimHorizontal_kept.
  apply filter_kept_solid.
Qed.

Lemma normalization_keeps_words_witness :
  List.filter (fun c => negb (isSpace c)) (normalizeWhitespace (str "a   b" ++ [9; 10; 10; 10; 13] ++ str " c"))
  = str "abc".
Proof.
  exact (normalization_keeps_words (str "a   b" ++ [9; 10; 10; 10; 13] ++ str " c") eq_refl).
Defined.
(** ** Blanks in a normalised text *)

Lemma blanksInside_newline prev r : blanksInside prev (NL :: r) = blanksInside false r.
Proof. reflexivity. Qed.

Lemma collapse_blanksInside s : forall prev,
  blanksInside prev s = true -> blanksInside prev (collapseNewlines s) = true.
Proof.
  induction s as [| c r IH]; intros prev H; [reflexivity |].
  assert (blanksInside prev (c :: collapseNewlines r) = true) as Hk.
  { cbn [blanksInside] in *. destruct (isSpace c && negb (c =? NL)).
    - apply andb_prop in H as [H Hr]. apply andb_prop in H as [H Hn]. rewrite H.
      rewrite (IH false Hr), Bool.andb_true_r. cbn [andb].
      change (match collapseNewlines r with d :: _ => negb (isSpace d) | [] => false end)
        with (headIs (fun d => negb (isSpace d)) (collapseNewlines r)).
      rewrite collapse_head. exact Hn.
    - apply IH, H. }
  rewrite collapseNewlines_cons.
  destruct r as [| d [| e r']]; try exact Hk.
  destruct ((c =? NL) && (d =? NL) && (e =? NL)) eqn:E; [| exact Hk].
  apply andb_prop in E as [E _]. apply andb_prop in E as [Ec Ed].
  apply N.eqb_eq in Ec, Ed. subst c d.
  rewrite blanksInside_newline in H. apply IH.
  rewrite blanksInside_newline in *. exact H.
Qed.

(** X25: On a text without backslash the whole normalisation leaves, besides
    newlines, only single blanks between two runes that are not white
    space: no line of the result starts or ends with a blank and no two
    blanks are adjacent. *)
Theorem normalized_text_has_single_blanks s :
  forallb (fun c => negb (c =? 92)) s = true ->
  blanksInside false (normalizeWhitespace s) = true.
Proof.
  intros H. rewrite normalize_no_backslash by exact H.
  apply collapse_blanksInside, trimHorizontal_blanks.
Qed.

Lemma normalized_text_has_single_blanks_witness :
  blanksInside false (normalizeWhitespace (str "  a   b" ++ [9; 10; 10; 10; 13] ++ str " c  ")) = true.
Proof.
  exact (normalized_text_has_single_blanks (str "  a   b" ++ [9; 10; 10; 10; 13] ++ str " c  ") eq_refl).
Defined.
(** ** Columns the program does not use *)

Section ExtraColumn.

Variable lower : rune -> rune.

Lemma columnIndex_snoc key header extra : forall i,
  normalizeColumn lower extra <> key ->
  columnIndex lower key i (header ++ [extra]) = columnIndex lower key i header.
Proof.
  induction header as [| c header IH]; intros i H.
  - cbn [app columnIndex]. rewrite bool_decide_eq_false_2 by exact H. reflexivity.
  - cbn [app columnIndex]. rewrite IH by exact H. reflexivity.
Qed.

Lemma fieldOf_snoc header extra record x col :
  normalizeColumn lower extra <> str col ->
  length record = length header ->
  fieldOf lower (header ++ [extra]) (record ++ [x]) col = fieldOf lower header record col.
Proof.
  intros H Hl. unfold fieldOf. rewrite columnIndex_snoc by exact H.
  destruct (columnIndex lower (str col) 0 header) as [j |] eqn:E; [| reflexivity].
  simpl. apply columnIndex_bound in E. rewrite lookup_app_l by lia. reflexivity.
Qed.

Lemma hasColumn_snoc header extra req :
  normalizeColumn lower extra <> req ->
  hasColumn lower (header ++ [extra]) req = hasColumn lower header req.
Proof.
  intros H. unfold hasColumn. rewrite existsb_app. cbn [existsb].
  rewrite bool_decide_eq_false_2 by exact H. rewrite !Bool.orb_false_r. reflexivity.
Qed.

Lemma firstMissing_snoc header extra :
  ~ In (normalizeColumn lower extra) requiredColumns ->
  firstMissing lower (header ++ [extra]) = firstMissing lower header.
Proof.
  unfold firstMissing. induction requiredColumns as [| req reqs IH]; intros H; [reflexivity |].
  cbn [List.find]. rewrite hasColumn_snoc by (intros E; apply H; left; symmetry; exact E).
  rewrite IH by (intros Hin; apply H; right; exact Hin). reflexivity.
Qed.

Lemma required_fields_snoc header extra record x :
  ~ In (normalizeColumn lower extra) requiredColumns ->
  length record = length header ->
  forall col, In (str col) requiredColumns ->
    fieldOf lower (header ++ [extra]) (record ++ [x]) col = fieldOf lower header record col.
Proof.
  intros H Hl col Hc. apply fieldOf_snoc; [| exact Hl]. intros E. apply H. rewrite E. exact Hc.
Qed.

Lemma recordError_snoc header extra record x :
  ~ In (normalizeColumn lower extra) requiredColumns -> record <> [] ->
  recordError lower (header ++ [extra]) (record ++ [x]) = recordError lower header record.
Proof.
  intros H Hne. unfold recordError. rewrite !length_app. cbn [length].
  assert ((length record + 1 =? 0)%nat = false) as -> by (apply Nat.eqb_neq; lia).
  assert ((length record =? 0)%nat = false) as ->
    by (apply Nat.eqb_neq; destruct record; [congruence | simpl; lia]).
  destruct (Nat.eqb_spec (length record) (length header)) as [El | El].
  - rewrite (proj2 (Nat.eqb_eq _ _)) by lia. cbn [negb].
    rewrite !(required_fields_snoc header extra record x H El) by (simpl; auto 10).
    reflexivity.
  - rewrite (proj2 (Nat.eqb_neq _ _)) by lia. reflexivity.
Qed.

Lemma airportOf_snoc header extra record x :
  ~ In (normalizeColumn lower extra) requiredColumns -> length record = length header ->
  airportOf lower (header ++ [extra]) (record ++ [x]) = airportOf lower header record.
Proof.
  intros H Hl. unfold airportOf.
  rewrite !(required_fields_snoc header extra record x H Hl) by (simpl; auto 10).
  reflexivity.
Qed.

Lemma recordError_length header record :
  record <> [] -> recordError lower header record = None -> length record = length header.
Proof.
  intros Hne. unfold recordError.
  assert ((length record =? 0)%nat = false) as ->
    by (apply Nat.eqb_neq; destruct record; [congruence | simpl; lia]).
  destruct (Nat.eqb_spec (length record) (length header)); [auto | discriminate].
Qed.

Lemma table_snoc header extra (more : list text -> text) records :
  ~ In (normalizeColumn lower extra) requiredColumns ->
  Forall (fun record => record <> []) records ->
  firstRecordError lower (header ++ [extra]) (map (fun r => r ++ [more r]) records)
  = firstRecordError lower header records
  /\ forall st,
       registerRows lower (header ++ [extra])
         (goodPrefix lower (header ++ [extra]) (map (fun r => r ++ [more r]) records)) st
       = registerRows lower header (goodPrefix lower header records) st.
Proof.
  intros H. induction 1 as [| r records Hr _ [IH1 IH2]]; [split; reflexivity |].
  cbn [map firstRecordError goodPrefix].
  rewrite (recordError_snoc header extra r (more r) H Hr).
  destruct (recordError lower header r) eqn:E; [split; reflexivity |].
  split; [exact IH1 |]. intros st. cbn [registerRows].
  rewrite (airportOf_snoc header extra r (more r) H (recordError_length header r Hr E)), IH2.
  rewrite length_app. cbn [length].
  assert ((length r + 1 =? 0)%nat = false) as -> by (apply Nat.eqb_neq; lia).
  assert ((length r =? 0)%nat = false) as ->
    by (apply Nat.eqb_neq; destruct r; [congruence | simpl; lia]).
  reflexivity.
Qed.

End ExtraColumn.

(** X26: A column the program does not use is ignored: adding to the header
    a column whose name is none of the six required ones, and to every
    row (each with at least one field) a field for it, changes neither
    the error returned nor the directory built. *)
Theorem unused_column_is_ignored lower header extra (more : list text -> text) records st :
  ~ In (normalizeColumn lower extra) requiredColumns ->
  Forall (fun record => record <> []) records ->
  loadAirportData lower (header ++ [extra]) (map (fun r => r ++ [more r]) records) st
  = loadAirportData lower header records st.
Proof.
  intros H Hr. rewrite !loadAirportData_spec, firstMissing_snoc by exact H.
  destruct (firstMissing lower header); [reflexivity |].
  destruct (table_snoc lower header extra more records H Hr) as [H1 H2].
  rewrite H1, H2. reflexivity.
Qed.

Lemma unused_column_is_ignored_witness :
  loadAirportData asciiLower (sampleHeader ++ [str "Elevation_ft"])
    (map (fun r => r ++ [str "13"]) sampleRows) initialState
  = loadAirportData asciiLower sampleHeader sampleRows initialState.
Proof.
  apply (unused_column_is_ignored asciiLower sampleHeader (str "Elevation_ft") (fun _ => str "13")).
  - vm_compute. intuition discriminate.
  - apply (bool_decide_unpack _). vm_compute. exact I.
Defined.

(** ** The command-line program *)

Lemma loadAirportData_no_panic lower header records st :
  snd (loadAirportData lower header records st) <> Some IndexPanic.
Proof.
  rewrite loadAirportData_spec. destruct (firstMissing lower header); [discriminate |].
  cbn [snd]. intros H. apply firstRecordError_is_record in H. discriminate.
Qed.

Lemma loadAirportDataFile_no_panic lower f st :
  snd (loadAirportDataFile lower f st) <> LoadPanics.
Proof.
  destruct f as [err | err | header err | header records]; cbn [loadAirportDataFile];
    try discriminate.
  - pose proof (loadAirportData_no_panic lower header [] st) as H.
    destruct (loadAirportData lower header [] st) as [st' [e |]]; [| discriminate].
    cbn [snd] in *. destruct e; try discriminate. congruence.
  - pose proof (loadAirportData_no_panic lower header records st) as H.
    destruct (loadAirportData lower header records st) as [st' [e |]]; [| discriminate].
    cbn [snd] in *. destruct e; try discriminate. congruence.
Qed.

(** X27: The program never panics: whatever the arguments, the files and
    their contents, no index of a row, of the groups of a match or of a
    slice of a match is out of range, and the run ends normally (with the
    usage, an error message, or the output). *)
Theorem main_never_panics lower helpFlag args w st :
  main lower helpFlag args w st <> Panics.
Proof.
  unfold main. destruct helpFlag; [discriminate |].
  destruct args as [| inputPath [| outputPath [| airportLookupPath [| ? ?]]]]; try discriminate.
  destruct (negb (fileExists (stat w) inputPath)); [discriminate |].
  destruct (negb (fileExists (stat w) airportLookupPath)); [discriminate |].
  pose proof (loadAirportDataFile_no_panic lower (openTable w airportLookupPath) st) as Hl.
  destruct (loadAirportDataFile lower (openTable w airportLookupPath) st) as [st' [| err |]];
    cbn [snd] in Hl; [| discriminate | congruence].
  destruct (readFile w inputPath) as [err | input]; [discriminate |].
  destruct (plainProcessContent_total st' input) as [p ->].
  destruct (highlightProcessContent_total st' input) as [h ->].
  destruct (writeFile w outputPath p); discriminate.
Qed.

(** X28: The output file is written at most once, and only by a complete
    run: three arguments without [-h], a table that was read and loaded
    without error, and an input that was read.  The file then holds the
    plain rendering of the input under the directory of that table, never
    under a partly built one. *)
Theorem main_writes_only_after_full_load lower helpFlag args w st path content :
  In (path, content) (written (main lower helpFlag args w st)) ->
  exists inputPath airportLookupPath header records st' input,
    helpFlag = false /\ args = [inputPath; path; airportLookupPath]
    /\ openTable w airportLookupPath = Rows header records
    /\ loadAirportData lower header records st = (st', None)
    /\ readFile w inputPath = inr input
    /\ plainProcessContent st' input = Some content
    /\ written (main lower helpFlag args w st) = [(path, content)].
Proof.
  unfold main. destruct helpFlag; [intros []|].
  destruct args as [| inputPath [| outputPath [| airportLookupPath [| ? ?]]]]; try (intros []).
  destruct (negb (fileExists (stat w) inputPath)); [intros [] |].
  destruct (negb (fileExists (stat w) airportLookupPath)); [intros [] |].
  unfold loadAirportDataFile.
  destruct (openTable w airportLookupPath) as [err | err | header err | header records] eqn:Ef;
    try (intros []).
  - destruct (loadAirportData lower header [] st) as [st' [e |]]; [destruct e |]; intros [].
  - destruct (loadAirportData lower header records st) as [st' [e |]] eqn:El;
      [destruct e; intros [] |].
    destruct (readFile w inputPath) as [err | input] eqn:Er; [intros [] |].
    destruct (plainProcessContent st' input) as [p |] eqn:Ep; [| intros []].
    destruct (highlightProcessContent st' input) as [h |]; [| intros []].
    destruct (writeFile w outputPath p); [intros [] |].
    cbn. intros [[= <- <-] | []].
    exists inputPath, airportLookupPath, header, records, st', input. auto 10.
Qed.

Lemma main_writes_only_after_full_load_witness :
  exists inputPath airportLookupPath header records st' input,
    false = false
    /\ [str "in.txt"; str "out.txt"; str "airports.csv"]
       = [inputPath; str "out.txt"; airportLookupPath]
    /\ openTable sampleWorld airportLookupPath = Rows header records
    /\ loadAirportData asciiLower header records initialState = (st', None)
    /\ readFile sampleWorld inputPath = inr input
    /\ plainProcessContent st' input = Some (str "Depart John F Kennedy International Airport")
    /\ written (main asciiLower false [str "in.txt"; str "out.txt"; str "airports.csv"]
                  sampleWorld initialState)
       = [(str "out.txt", str "Depart John F Kennedy International Airport")].
Proof.
  apply (main_writes_only_after_full_load asciiLower false
           [str "in.txt"; str "out.txt"; str "airports.csv"] sampleWorld initialState
           (str "out.txt") (str "Depart John F Kennedy International Airport")).
  vm_compute. auto.
Defined.

(** ** What a failed construction leaves *)

Lemma uniform_spec (header : list text) (records : list (list text)) :
  forallb (fun record => (length record =? length header)%nat) records = true
  <-> Forall (fun record => length record = length header) records.
Proof.
  rewrite forallb_forall, Forall_forall. split; intros H r Hr.
  - apply list_elem_of_In in Hr. apply Nat.eqb_eq, H, Hr.
  - apply Nat.eqb_eq, H, list_elem_of_In, Hr.
Qed.

Lemma ragged_spec (header : list text) (records : list (list text)) :
  forallb (fun record => (length record =? length header)%nat) records = false
  -> Exists (fun record => length record <> length header) records.
Proof.
  induction records as [| r records IH]; [discriminate |]. cbn [forallb].
  destruct (Nat.eqb_spec (length r) (length header)) as [E | E]; cbn [andb].
  - intros H. apply Exists_cons_tl, IH, H.
  - intros _. apply Exists_cons_hd, E.
Qed.

Lemma recordError_uniform lower header record e :
  length record = length header -> recordError lower header record = Some e ->
  e = EmptyName \/ e = NoCode.
Proof.
  intros Hl. unfold recordError. rewrite Hl, Nat.eqb_refl. cbn [negb].
  repeat (case_match; try discriminate); intros [= <-]; auto.
Qed.

(** C6 (amended): what a failed construction leaves, on every table the
    code can receive.  When a required column is missing the directory is
    as it was.  Otherwise the directory has been replaced before the rows
    are read: when a record has another number of fields than the header,
    the reader fails before any row is looked at and the directory is
    left empty; when every record has the header's number of fields, the
    failure is an empty name or a row without code, construction has
    stopped at the first such row, and the directory is the one a
    successful construction from the rows before it leaves. *)
Theorem failed_build_leaves_directory lower header records err st st' message :
  loadAirportDataFile lower (readAll header records err) st = (st', LoadFails message) ->
  (exists req, firstMissing lower header = Some req
               /\ message = str "missing required column: " ++ req /\ st' = st)
  \/ (firstMissing lower header = None
      /\ Exists (fun record => length record <> length header) records
      /\ message = err
      /\ airportMap st' = ∅ /\ forall code, lookupAirport st' code = None)
  \/ (firstMissing lower header = None
      /\ Forall (fun record => length record = length header) records
      /\ exists good bad rest e,
           records = good ++ bad :: rest
           /\ Forall (fun record => recordError lower header record = None) good
           /\ recordError lower header bad = Some e
           /\ (e = EmptyName \/ e = NoCode)
           /\ LoadFails message = ofError e
           /\ loadAirportDataFile lower (readAll header good err) st = (st', LoadOk)).
Proof.
  unfold readAll.
  destruct (forallb _ records) eqn:Hu.
  - apply uniform_spec in Hu. cbn [loadAirportDataFile]. rewrite loadAirportData_spec.
    destruct (firstMissing lower header) as [req |] eqn:Hm.
    + cbn [ofError]. intros [= <- <-]. left. exists req. auto.
    + destruct (firstRecordError lower header records) as [e |] eqn:He; [| discriminate].
      intros H. right. right. split; [reflexivity |]. split; [exact Hu |].
      destruct (records_split lower _ _ _ He) as (bad & rest & Hs & Hb).
      pose proof (goodPrefix_good lower header records) as Hg.
      exists (goodPrefix lower header records), bad, rest, e.
      assert (Forall (fun record => length record = length header)
                (goodPrefix lower header records)) as Hgu.
      { rewrite Hs in Hu. apply Forall_app in Hu as [Hu _]. exact Hu. }
      assert (length bad = length header) as Hbl.
      { rewrite Hs in Hu. apply Forall_app in Hu as [_ Hu].
        apply Forall_cons in Hu as [Hu _]. exact Hu. }
      split; [exact Hs |]. split; [exact Hg |]. split; [exact Hb |].
      split; [eapply recordError_uniform; eauto |].
      assert (st' = registerRows lower header (goodPrefix lower header records)
                      (mkState ∅ (heap st)) /\ LoadFails message = ofError e) as [-> Hmsg].
      { destruct e; cbn [ofError] in H |- *; injection H; intros; subst; auto; discriminate. }
      split; [exact Hmsg |].
      rewrite (proj2 (uniform_spec header _) Hgu). cbn [loadAirportDataFile].
      rewrite loadAirportData_spec, Hm.
      rewrite (goodPrefix_all lower header (goodPrefix lower header records)) by exact Hg.
      rewrite (proj2 (firstRecordError_None lower header _) Hg). reflexivity.
  - apply ragged_spec in Hu. cbn [loadAirportDataFile]. rewrite loadAirportData_spec.
    destruct (firstMissing lower header) as [req |] eqn:Hm.
    + cbn [ofError]. intros [= <- <-]. left. exists req. auto.
    + cbn [goodPrefix registerRows firstRecordError]. intros [= <- <-]. right. left.
      split; [reflexivity |]. split; [exact Hu |]. split; [reflexivity |].
      split; [reflexivity |]. intros code. unfold lookupAirport. cbn [airportMap].
      rewrite lookup_empty. reflexivity.
Qed.

Lemma failed_build_leaves_directory_witness :
  (exists req, firstMissing asciiLower sampleHeader = Some req
               /\ str "empty name in record" = str "missing required column: " ++ req
               /\ fst (loadAirportData asciiLower sampleHeader failingRows initialState) = initialState)
  \/ (firstMissing asciiLower sampleHeader = None
      /\ Exists (fun record => length record <> length sampleHeader) failingRows
      /\ str "empty name in record" = str "wrong number of fields"
      /\ airportMap (fst (loadAirportData asciiLower sampleHeader failingRows initialState)) = ∅
      /\ forall code,
           lookupAirport (fst (loadAirportData asciiLower sampleHeader failingRows initialState)) code
           = None)
  \/ (firstMissing asciiLower sampleHeader = None
      /\ Forall (fun record => length record = length sampleHeader) failingRows
      /\ exists good bad rest e,
           failingRows = good ++ bad :: rest
           /\ Forall (fun record => recordError asciiLower sampleHeader record = None) good
           /\ recordError asciiLower sampleHeader bad = Some e
           /\ (e = EmptyName \/ e = NoCode)
           /\ LoadFails (str "empty name in record") = ofError e
           /\ loadAirportDataFile asciiLower (readAll sampleHeader good (str "wrong number of fields"))
                initialState
              = (fst (loadAirportData asciiLower sampleHeader failingRows initialState), LoadOk)).
Proof.
  apply (failed_build_leaves_directory asciiLower sampleHeader failingRows
           (str "wrong number of fields") initialState).
  vm_compute. reflexivity.
Defined.

(** ** An unresolved ICAO token whose first three letters are an IATA code *)

Lemma normalize_words s :
  forallb (fun c => negb (c =? 92)) s = true ->
  List.filter (fun c => negb (isSpace c)) (normalizeWhitespace s)
  = List.filter (fun c => negb (isSpace c)) s.
Proof.
  intros H. rewrite normalize_no_backslash by exact H.
  rewrite collapse_keeps_words, <- filter_kept_solid, trimHorizontal_kept.
  apply filter_kept_solid.
Qed.

(** One [#] before a text without [#] is no ICAO token. *)
Lemma icao_one_hash cb t :
  forallb (fun c => negb (c =? 35)) t = true ->
  ReplaceAllStringFunc icaoRegex (35 :: t) cb = Some (35 :: t).
Proof.
  intros Ht. change (35 :: t) with ([35] ++ t). rewrite replace_app.
  - rewrite (icao_short cb [35]) by (simpl; lia).
    rewrite (replace_without icaoRegex cb 35 t) by (auto using icao_needs_hash). reflexivity.
  - intros x y E Hy. destruct x as [| c0 x].
    + simpl in E. subst y. rewrite !matchLen_icao.
      destruct t as [| c1 t]; [reflexivity |].
      cbn [forallb] in Ht. apply andb_prop in Ht as [Hc _].
      apply Bool.negb_true_iff, N.eqb_neq in Hc.
      cbn [app icaoLen]. destruct c1 as [| p]; [reflexivity |].
      repeat (destruct p as [p | p |]; try reflexivity); congruence.
    + injection E as _ E. destruct x; destruct y; try discriminate; congruence.
Qed.

Lemma clean_without r k :
  cleanText r = true -> k = 27 \/ k = 35 \/ k = 40 \/ k = 92 ->
  forallb (fun c => negb (c =? k)) r = true.
Proof.
  unfold cleanText. intros H Hk. apply andb_prop in H as [_ H].
  rewrite forallb_forall in H |- *. intros c Hc. specialize (H c Hc).
  unfold inertRune in H. apply Bool.negb_true_iff in H.
  repeat (apply Bool.orb_false_elim in H as [H ?]).
  destruct Hk as [-> | [-> | [-> | ->]]]; apply Bool.negb_true_iff; assumption.
Qed.

Lemma clean_head r : cleanText r = true -> exists c r', r = c :: r' /\ isSpace c = false.
Proof.
  unfold cleanText, cleanEnds. destruct r as [| c r']; [discriminate |].
  intros H. apply andb_prop in H as [H _]. apply andb_prop in H as [H _].
  apply Bool.negb_true_iff in H. eauto.
Qed.

Lemma taken_token_passes hl st ap a b c d :
  isUpper a = true -> isUpper b = true -> isUpper c = true -> isUpper d = true ->
  lookupAirport st [a; b; c] = Some ap ->
  cleanText (Name ap) = true ->
  tokenPasses hl st [35; 35; a; b; c; d]
  = Some ([35] ++ (if hl then highlightAirport ap else plainAirport ap) ++ [d]).
Proof.
  intros Ha Hb Hc Hd Hl Hn.
  set (r := if hl then highlightAirport ap else plainAirport ap).
  assert (forall k, k = 35 \/ k = 40 -> forallb (fun c => negb (c =? k)) (r ++ [d]) = true) as Hr.
  { intros k Hk. rewrite forallb_app. cbn [forallb].
    rewrite (upper_not d k) by (auto; lia).
    assert (forallb (fun c => negb (c =? k)) (Name ap) = true) as Hnk
      by (apply clean_without; [exact Hn | tauto]).
    unfold r, highlightAirport, plainAirport. destruct hl; rewrite ?forallb_app, Hnk.
    - destruct Hk as [-> | ->]; reflexivity.
    - reflexivity. }
  assert (forallb (fun c => negb (c =? 40)) ([35] ++ r ++ [d]) = true) as H40.
  { cbn [app forallb]. rewrite Hr by auto. reflexivity. }
  apply (tokenPasses_steps hl st _ ([35] ++ r ++ [d]) ([35] ++ r ++ [d]) ([35] ++ r ++ [d])
           ([35] ++ r ++ [d])).
  - change [35; 35; a; b; c; d] with ([35] ++ [35; a; b; c] ++ [d]).
    rewrite (replace_token _ _ _ _ _ r).
    + rewrite !iata_short by (simpl; lia). reflexivity.
    + apply iata_local. discriminate.
    + discriminate.
    + apply (iata_token_len a b c [d]); auto.
    + unfold airportPass. rewrite (proj1 (iata_callback st _ _ a b c Ha Hb Hc)).
      unfold resolve. rewrite Hl. unfold r. destruct hl; reflexivity.
  - apply icao_one_hash, Hr. auto.
  - apply (replace_without _ _ 40); [apply date_needs_paren | exact H40].
  - apply (replace_without _ _ 40); [apply time12_needs_paren | exact H40].
  - apply (replace_without _ _ 40); [apply time24_needs_paren | exact H40].
Qed.

(** C3: an ICAO token whose code is not in the directory is not emitted
    as it stands when its first three letters are an IATA code of the
    directory.  For every directory, every four capital letters [abcd]
    with [abcd] unknown and [abc] the code of a record with a clean
    name: [##abcd] is a token of the ICAO pattern, but the IATA pass has
    replaced [#abc] inside it before the ICAO pass runs; in both modes
    the output is [#], the name of the record of [abc] and the letter
    [d], not the token. *)
Theorem unresolved_icao_token_is_rewritten st ap a b c d :
  isUpper a = true -> isUpper b = true -> isUpper c = true -> isUpper d = true ->
  lookupAirport st [a; b; c; d] = None ->
  lookupAirport st [a; b; c] = Some ap ->
  cleanText (Name ap) = true ->
  matchLen icaoRegex [35; 35; a; b; c; d] = Some 6%nat
  /\ plainProcessContent st [35; 35; a; b; c; d]
     = Some (normalizeWhitespace ([35] ++ Name ap ++ [d]))
  /\ highlightProcessContent st [35; 35; a; b; c; d]
     = Some (normalizeWhitespace ([35] ++ ColorGreen ++ Name ap ++ ColorReset ++ [d]))
  /\ plainProcessContent st [35; 35; a; b; c; d] <> Some [35; 35; a; b; c; d]
  /\ highlightProcessContent st [35; 35; a; b; c; d] <> Some [35; 35; a; b; c; d].
Proof.
  intros Ha Hb Hc Hd Hmiss Hl Hn.
  pose proof (taken_token_passes false st ap a b c d Ha Hb Hc Hd Hl Hn) as Hp.
  pose proof (taken_token_passes true st ap a b c d Ha Hb Hc Hd Hl Hn) as Hh.
  cbv beta iota in Hp, Hh. unfold plainAirport in Hp. unfold highlightAirport in Hh.
  rewrite plain_as_passes, highlight_as_passes, Hp, Hh. cbn [fmap option_fmap option_map].
  rewrite <- !app_assoc.
  pose proof (clean_without _ 92 Hn ltac:(tauto)) as H92.
  pose proof (clean_without _ 35 Hn ltac:(tauto)) as H35.
  destruct (clean_head _ Hn) as (c0 & r' & En & Hc0).
  split; [apply (icao_token_len a b c d []); auto |].
  split; [reflexivity |]. split; [reflexivity |]. split.
  - intros [= E]. apply (f_equal (List.filter (fun c => negb (isSpace c)))) in E.
    rewrite normalize_words in E.
    + rewrite En in E, H35. cbn [app List.filter] in E. rewrite Hc0 in E.
      change (isSpace 35) with false in E. cbn [negb] in E.
      injection E as E _. subst c0. discriminate.
    + cbn [app forallb]. rewrite forallb_app, H92. cbn [forallb].
      rewrite (upper_not d 92) by (auto; lia). reflexivity.
  - intros [= E]. apply (f_equal (List.filter (fun c => negb (isSpace c)))) in E.
    rewrite normalize_words in E.
    + change (isSpace 35) with false in E. discriminate.
    + cbn [app forallb]. rewrite !forallb_app, H92. cbn [forallb].
      rewrite (upper_not d 92) by (auto; lia). reflexivity.
Qed.

Lemma unresolved_icao_token_is_rewritten_witness :
  matchLen icaoRegex (str "##ABCX") = Some 6%nat
  /\ plainProcessContent sampleState (str "##ABCX")
     = Some (normalizeWhitespace ([35] ++ str "Albacete Airport" ++ [88]))
  /\ highlightProcessContent sampleState (str "##ABCX")
     = Some (normalizeWhitespace ([35] ++ ColorGreen ++ str "Albacete Airport" ++ ColorReset ++ [88]))
  /\ plainProcessContent sampleState (str "##ABCX") <> Some (str "##ABCX")
  /\ highlightProcessContent sampleState (str "##ABCX") <> Some (str "##ABCX").
Proof.
  apply (unresolved_icao_token_is_rewritten sampleState
           (mkAirport (str "Albacete Airport") (str "ES") (str "Albacete") (str "LEAB")
                      (str "ABC") (str "-1.86352, 38.9485")) 65 66 67 88);
    vm_compute; reflexivity.
Defined.
